(** * Icon sets (src/tools/iconset/iconset.cpp): a shallow embedding

    The C++ classes [Impix], [Icon], [Iconset] and [IconsetFactory] are
    embedded as functions over an explicit program state: a heap of
    [Icon::Private] and [Iconset::Private] objects with their [Q3Shared]
    reference counts, the [Icon] and [Iconset] objects that point to them,
    and the static members of [IconsetFactoryPrivate] and
    [Iconset::Private].  A computation is a state transformer that can
    fail; failure stands for undefined behaviour of the C++ program (a
    dangling or null pointer dereferenced, a signed counter overflowing).

    Qt classes used by the file (QPixmap, QImage, QRegExp, QFileInfo,
    QFile, UnZip, QCA, QDomDocument's parser) and psi's own [Anim] are not
    part of the translated sources; they are parameters, gathered in the
    class [Toolkit].  Signal emission and signal connections have no
    receiver inside the file and are left out, as is the thread affinity
    of the QObjects. *)

From stdpp Require Import gmap strings list fin_maps.
From Stdlib Require Import ZArith Strings.Byte.

Local Open Scope Z_scope.
#[local] Set Warnings "-register-all".

(** ** Qt value types *)

(** A [QString] is null or holds characters; Qt compares a null string
    equal to an empty one, and hashes them alike. *)
Inductive QString :=
  | QNull
  | QStr (s : string).

#[global] Instance QString_eq_dec : EqDecision QString.
Proof. solve_decision. Defined.

Definition qs_str (q : QString) : string :=
  match q with QNull => "" | QStr s => s end.

Definition qs_isNull (q : QString) : bool :=
  match q with QNull => true | QStr _ => false end.

Definition qs_isEmpty (q : QString) : bool :=
  bool_decide (qs_str q = "").

(** [operator==] on QString. *)
Definition qs_eqb (a b : QString) : bool :=
  bool_decide (qs_str a = qs_str b).

(** [operator+] and [operator+=] on QString: appending a null string
    changes nothing, appending to a null string gives the argument. *)
Definition qs_app (a b : QString) : QString :=
  match a, b with
  | a, QNull => a
  | QNull, b => b
  | QStr x, QStr y => QStr (x +:+ y)
  end.

Abbreviation QByteArray := (list Byte.byte).

Definition ba_isEmpty (ba : QByteArray) : bool :=
  match ba with [] => true | _ => false end.

(** The range of a C++ [int]; arithmetic that leaves it is undefined. *)
Definition INT_MAX : Z := 2147483647.
Definition INT_MIN : Z := -2147483648.

Definition int_incr (c : Z) : option Z :=
  if decide (c < INT_MAX) then Some (c + 1) else None.

Definition int_decr (c : Z) : option Z :=
  if decide (INT_MIN < c) then Some (c - 1) else None.

(** ** The DOM tree handed out by QDomDocument *)

Inductive QDomNode :=
  | DomElement (tag : string) (attrs : list (string * string))
               (children : list QDomNode)
  | DomText (data : string)
  | DomOther.

(** [QDomNode::toElement().isNull()] *)
Definition dom_isElement (n : QDomNode) : bool :=
  match n with DomElement _ _ _ => true | _ => false end.

(** [QDomElement::tagName()]; a null element has a null tag name. *)
Definition dom_tagName (n : QDomNode) : QString :=
  match n with DomElement t _ _ => QStr t | _ => QNull end.

Definition dom_children (n : QDomNode) : list QDomNode :=
  match n with DomElement _ _ c => c | _ => [] end.

(** [QDomElement::attribute(name)], null when the attribute is absent. *)
Definition dom_attribute (n : QDomNode) (a : string) : QString :=
  match n with
  | DomElement _ attrs _ =>
      match list_find (λ kv, kv.1 = a) attrs with
      | Some (_, (_, v)) => QStr v
      | None => QNull
      end
  | _ => QNull
  end.

(** [QDomElement::text()]: the text of all text and CDATA descendants. *)
Fixpoint dom_text_str (n : QDomNode) : string :=
  match n with
  | DomElement _ _ c =>
      (fix go (l : list QDomNode) : string :=
         match l with
         | [] => ""
         | x :: r => dom_text_str x +:+ go r
         end) c
  | DomText d => d
  | DomOther => ""
  end.

Definition dom_text (n : QDomNode) : QString := QStr (dom_text_str n).

Record QDomDocument := { documentElement : QDomNode }.

(** ** What the file takes from Qt and from the rest of psi *)

(** Pixmaps, images, icon sets and regular expressions. *)
Class QtGui := {
  QPixmap : Type;
  QImage : Type;
  QIconSet : Type;
  QRegExp : Type;
  pixmap_null : QPixmap;
  image_null : QImage;
  pixmap_isNull : QPixmap → bool;
  image_isNull : QImage → bool;
  (** [QPixmap::convertToImage()] and [QPixmap::convertFromImage(img)] *)
  pixmap_convertToImage : QPixmap → QImage;
  pixmap_convertFromImage : QImage → QPixmap;
  (** [QImage::loadFromData(ba)]: the decoded image, if decoding works *)
  image_loadFromData : QByteArray → option QImage;
  iconSet_fromPixmap : QPixmap → QIconSet;
  regExp_null : QRegExp;
  regExp_fromPattern : QString → QRegExp;
  regExp_escape : QString → QString;
}.

(** *** Impix: a QPixmap and a QImage side by side *)

Record Impix `{QtGui} := {
  impix_pixmap : QPixmap;
  impix_image : QImage;
}.

Section ImpixOps.
Context `{QtGui}.

(** [Impix::Impix()] *)
Definition Impix_new : Impix :=
  {| impix_pixmap := pixmap_null; impix_image := image_null |}.

(** [Impix::isNull()] *)
Definition Impix_isNull (i : Impix) : bool :=
  if negb (image_isNull (impix_image i)) || negb (pixmap_isNull (impix_pixmap i))
  then false else true.

(** [Impix::Private::unload()] (declared in iconset.h) drops both pictures. *)
Definition ImpixPrivate_unload (i : Impix) : Impix := Impix_new.

(** [Impix::unload()] *)
Definition Impix_unload (i : Impix) : Impix :=
  if Impix_isNull i then i else ImpixPrivate_unload i.

(** [Impix::setPixmap(x)] *)
Definition Impix_setPixmap (i : Impix) (x : QPixmap) : Impix :=
  let i := ImpixPrivate_unload i in
  {| impix_pixmap := x; impix_image := pixmap_convertToImage x |}.

(** [Impix::setImage(x)] *)
Definition Impix_setImage (i : Impix) (x : QImage) : Impix :=
  let i := ImpixPrivate_unload i in
  {| impix_pixmap := pixmap_convertFromImage x; impix_image := x |}.

(** [Impix::loadFromData(ba)]: the result and the Impix afterwards. *)
Definition Impix_loadFromData (i : Impix) (ba : QByteArray) : bool * Impix :=
  match image_loadFromData ba with
  | Some img => (true, Impix_setImage i img)
  | None => (false, i)
  end.

End ImpixOps.

(** psi's [Anim] (anim.h), used as a value: copy construction keeps the
    frames. *)
Class AnimLib `{QtGui} := {
  Anim : Type;
  (** [Anim::Anim(const QByteArray &)] *)
  anim_fromData : QByteArray → Anim;
  anim_numFrames : Anim → Z;
  anim_frame : Anim → Z → Impix;
  anim_framePixmap : Anim → QPixmap;
  anim_frameImage : Anim → QImage;
  anim_frameImpix : Anim → Impix;
  anim_frameNumber : Anim → Z;
  anim_pause : Anim → Anim;
  anim_unpause : Anim → Anim;
  anim_restart : Anim → Anim;
  anim_stripFirstFrame : Anim → Anim;
}.

(** Files, archives, the XML parser, QCA, and what iconset.h declares. *)
Class Platform := {
  FileSystem : Type;
  (** [QFileInfo(path)]: isDir(), extension(false), extension(),
      baseName(true), absFilePath() *)
  fi_isDir : FileSystem → QString → bool;
  fi_extension : QString → QString;
  fi_extension_complete : QString → QString;
  fi_baseName : QString → QString;
  fi_absFilePath : FileSystem → QString → QString;
  (** [QFile(path).open(IO_ReadOnly); readAll()] *)
  file_readAll : FileSystem → QString → QByteArray;
  (** [QFile(path).open(IO_WriteOnly)] followed by writing the bytes *)
  file_write : FileSystem → QString → QByteArray → FileSystem;
  (** [UnZip(archive).open()] and [readFile(name, &ba)], which returns
      its verdict and the content of [ba] afterwards *)
  zip_open : FileSystem → QString → bool;
  zip_readFile : FileSystem → QString → QString → QByteArray → bool * QByteArray;
  (** [QDomDocument::setContent(ba, false)] *)
  dom_setContent : QByteArray → option QDomDocument;
  (** [QCA::isSupported("sha1")], [QCA::SHA1().hashToString(s.utf8())] *)
  qca_sha1_supported : bool;
  qca_sha1_hashToString : QString → QString;
  (** [fmt.arg(a)] *)
  qs_arg : QString → QString → QString;
  (** [name.sprintf("icon_%04d", n)] *)
  sprintf_icon : Z → QString;
  (** the value of [*s] for a QString [s], as written in loadIcon *)
  qs_deref : QString → QString;
  (** the order in which a QHashIterator visits the entries *)
  qhash_order : list (string * QString) → list (string * QString);
  (** the value read from an [int] member that no constructor set, for the
      object at the given address *)
  indeterminate_int : nat → Z;
  (** default arguments declared in iconset.h *)
  setImpix_doDetach_default : bool;
  setAnim_doDetach_default : bool;
}.

(** ** The program state *)

Section Model.
Context `{AL : AnimLib} `{PF : Platform}.

(** [Icon::Private].  Modelled from the spec: the base class [Q3Shared]
    comes from Qt3Support and is not in the sources; the spec calls the
    data reference-counted, so [ip_count] is the counter that starts at
    one, that [ref()] increments and that [deref()] decrements, reporting
    whether it reached zero. *)
Record IconPrivate := {
  ip_count : Z;
  ip_signalsBlocked : bool;
  ip_name : QString;
  ip_regExp : QRegExp;
  ip_text : list (string * QString);
  ip_sound : QString;
  ip_impix : Impix;
  ip_anim : option Anim;
  ip_iconSet : option QIconSet;
  ip_activatedCount : Z;
}.

Definition ip_set_count (c : Z) (p : IconPrivate) : IconPrivate :=
  {| ip_count := c; ip_signalsBlocked := ip_signalsBlocked p;
     ip_name := ip_name p; ip_regExp := ip_regExp p; ip_text := ip_text p;
     ip_sound := ip_sound p; ip_impix := ip_impix p; ip_anim := ip_anim p;
     ip_iconSet := ip_iconSet p; ip_activatedCount := ip_activatedCount p |}.

Definition ip_set_signalsBlocked (b : bool) (p : IconPrivate) : IconPrivate :=
  {| ip_count := ip_count p; ip_signalsBlocked := b;
     ip_name := ip_name p; ip_regExp := ip_regExp p; ip_text := ip_text p;
     ip_sound := ip_sound p; ip_impix := ip_impix p; ip_anim := ip_anim p;
     ip_iconSet := ip_iconSet p; ip_activatedCount := ip_activatedCount p |}.

Definition ip_set_name (n : QString) (p : IconPrivate) : IconPrivate :=
  {| ip_count := ip_count p; ip_signalsBlocked := ip_signalsBlocked p;
     ip_name := n; ip_regExp := ip_regExp p; ip_text := ip_text p;
     ip_sound := ip_sound p; ip_impix := ip_impix p; ip_anim := ip_anim p;
     ip_iconSet := ip_iconSet p; ip_activatedCount := ip_activatedCount p |}.

Definition ip_set_regExp (r : QRegExp) (p : IconPrivate) : IconPrivate :=
  {| ip_count := ip_count p; ip_signalsBlocked := ip_signalsBlocked p;
     ip_name := ip_name p; ip_regExp := r; ip_text := ip_text p;
     ip_sound := ip_sound p; ip_impix := ip_impix p; ip_anim := ip_anim p;
     ip_iconSet := ip_iconSet p; ip_activatedCount := ip_activatedCount p |}.

Definition ip_set_text (t : list (string * QString)) (p : IconPrivate) : IconPrivate :=
  {| ip_count := ip_count p; ip_signalsBlocked := ip_signalsBlocked p;
     ip_name := ip_name p; ip_regExp := ip_regExp p; ip_text := t;
     ip_sound := ip_sound p; ip_impix := ip_impix p; ip_anim := ip_anim p;
     ip_iconSet := ip_iconSet p; ip_activatedCount := ip_activatedCount p |}.

Definition ip_set_sound (x : QString) (p : IconPrivate) : IconPrivate :=
  {| ip_count := ip_count p; ip_signalsBlocked := ip_signalsBlocked p;
     ip_name := ip_name p; ip_regExp := ip_regExp p; ip_text := ip_text p;
     ip_sound := x; ip_impix := ip_impix p; ip_anim := ip_anim p;
     ip_iconSet := ip_iconSet p; ip_activatedCount := ip_activatedCount p |}.

Definition ip_set_impix (x : Impix) (p : IconPrivate) : IconPrivate :=
  {| ip_count := ip_count p; ip_signalsBlocked := ip_signalsBlocked p;
     ip_name := ip_name p; ip_regExp := ip_regExp p; ip_text := ip_text p;
     ip_sound := ip_sound p; ip_impix := x; ip_anim := ip_anim p;
     ip_iconSet := ip_iconSet p; ip_activatedCount := ip_activatedCount p |}.

Definition ip_set_anim (a : option Anim) (p : IconPrivate) : IconPrivate :=
  {| ip_count := ip_count p; ip_signalsBlocked := ip_signalsBlocked p;
     ip_name := ip_name p; ip_regExp := ip_regExp p; ip_text := ip_text p;
     ip_sound := ip_sound p; ip_impix := ip_impix p; ip_anim := a;
     ip_iconSet := ip_iconSet p; ip_activatedCount := ip_activatedCount p |}.

Definition ip_set_iconSet (x : option QIconSet) (p : IconPrivate) : IconPrivate :=
  {| ip_count := ip_count p; ip_signalsBlocked := ip_signalsBlocked p;
     ip_name := ip_name p; ip_regExp := ip_regExp p; ip_text := ip_text p;
     ip_sound := ip_sound p; ip_impix := ip_impix p; ip_anim := ip_anim p;
     ip_iconSet := x; ip_activatedCount := ip_activatedCount p |}.

Definition ip_set_activatedCount (c : Z) (p : IconPrivate) : IconPrivate :=
  {| ip_count := ip_count p; ip_signalsBlocked := ip_signalsBlocked p;
     ip_name := ip_name p; ip_regExp := ip_regExp p; ip_text := ip_text p;
     ip_sound := ip_sound p; ip_impix := ip_impix p; ip_anim := ip_anim p;
     ip_iconSet := ip_iconSet p; ip_activatedCount := c |}.

(** [Iconset::Private], again a [Q3Shared].  [sp_dict] is the
    [QHash<QString, Icon *>], keyed by the characters of the name, where
    [None] is a null pointer; [sp_list] is the [QList<Icon *>]. *)
Record IconsetPrivate := {
  sp_count : Z;
  sp_name : QString;
  sp_version : QString;
  sp_description : QString;
  sp_creation : QString;
  sp_homeUrl : QString;
  sp_filename : QString;
  sp_authors : list QString;
  sp_dict : gmap string (option nat);
  sp_list : list nat;
  sp_info : gmap string QString;
}.

(** The meta-data of an iconset, the part [setInformation] copies. *)
Record IconsetInformation := {
  si_name : QString;
  si_version : QString;
  si_description : QString;
  si_creation : QString;
  si_homeUrl : QString;
  si_filename : QString;
  si_authors : list QString;
  si_info : gmap string QString;
}.

Definition sp_information (p : IconsetPrivate) : IconsetInformation :=
  {| si_name := sp_name p; si_version := sp_version p;
     si_description := sp_description p; si_creation := sp_creation p;
     si_homeUrl := sp_homeUrl p; si_filename := sp_filename p;
     si_authors := sp_authors p; si_info := sp_info p |}.

Definition sp_make (c : Z) (i : IconsetInformation)
    (dict : gmap string (option nat)) (l : list nat) : IconsetPrivate :=
  {| sp_count := c; sp_name := si_name i; sp_version := si_version i;
     sp_description := si_description i; sp_creation := si_creation i;
     sp_homeUrl := si_homeUrl i; sp_filename := si_filename i;
     sp_authors := si_authors i; sp_dict := dict; sp_list := l;
     sp_info := si_info i |}.

Definition sp_set_count (c : Z) (p : IconsetPrivate) : IconsetPrivate :=
  sp_make c (sp_information p) (sp_dict p) (sp_list p).

Definition sp_set_information (i : IconsetInformation) (p : IconsetPrivate)
    : IconsetPrivate :=
  sp_make (sp_count p) i (sp_dict p) (sp_list p).

Definition sp_set_dict (d : gmap string (option nat)) (p : IconsetPrivate)
    : IconsetPrivate :=
  sp_make (sp_count p) (sp_information p) d (sp_list p).

Definition sp_set_list (l : list nat) (p : IconsetPrivate) : IconsetPrivate :=
  sp_make (sp_count p) (sp_information p) (sp_dict p) l.

Definition si_set_name (x : QString) (i : IconsetInformation) :=
  {| si_name := x; si_version := si_version i;
     si_description := si_description i; si_creation := si_creation i;
     si_homeUrl := si_homeUrl i; si_filename := si_filename i;
     si_authors := si_authors i; si_info := si_info i |}.

Definition si_set_version (x : QString) (i : IconsetInformation) :=
  {| si_name := si_name i; si_version := x;
     si_description := si_description i; si_creation := si_creation i;
     si_homeUrl := si_homeUrl i; si_filename := si_filename i;
     si_authors := si_authors i; si_info := si_info i |}.

Definition si_set_description (x : QString) (i : IconsetInformation) :=
  {| si_name := si_name i; si_version := si_version i;
     si_description := x; si_creation := si_creation i;
     si_homeUrl := si_homeUrl i; si_filename := si_filename i;
     si_authors := si_authors i; si_info := si_info i |}.

Definition si_set_creation (x : QString) (i : IconsetInformation) :=
  {| si_name := si_name i; si_version := si_version i;
     si_description := si_description i; si_creation := x;
     si_homeUrl := si_homeUrl i; si_filename := si_filename i;
     si_authors := si_authors i; si_info := si_info i |}.

Definition si_set_homeUrl (x : QString) (i : IconsetInformation) :=
  {| si_name := si_name i; si_version := si_version i;
     si_description := si_description i; si_creation := si_creation i;
     si_homeUrl := x; si_filename := si_filename i;
     si_authors := si_authors i; si_info := si_info i |}.

Definition si_set_filename (x : QString) (i : IconsetInformation) :=
  {| si_name := si_name i; si_version := si_version i;
     si_description := si_description i; si_creation := si_creation i;
     si_homeUrl := si_homeUrl i; si_filename := x;
     si_authors := si_authors i; si_info := si_info i |}.

Definition si_set_authors (x : list QString) (i : IconsetInformation) :=
  {| si_name := si_name i; si_version := si_version i;
     si_description := si_description i; si_creation := si_creation i;
     si_homeUrl := si_homeUrl i; si_filename := si_filename i;
     si_authors := x; si_info := si_info i |}.

Definition si_set_info (x : gmap string QString) (i : IconsetInformation) :=
  {| si_name := si_name i; si_version := si_version i;
     si_description := si_description i; si_creation := si_creation i;
     si_homeUrl := si_homeUrl i; si_filename := si_filename i;
     si_authors := si_authors i; si_info := x |}.

(** The whole state: both heaps, the objects pointing into them, the
    static members [IconsetFactoryPrivate::iconsets] (a pointer to a list
    of Iconset pointers, [None] when null), [emptyPixmap],
    [Iconset::Private::icon_counter], the global [iconSharedObject] (with
    its [unpackPath]), the file system, and the next free address. *)
Record State := {
  icon_d : gmap nat IconPrivate;
  icon_o : gmap nat nat;
  iset_d : gmap nat IconsetPrivate;
  iset_o : gmap nat nat;
  iconsets : option (list nat);
  emptyPixmap : option QPixmap;
  icon_counter : Z;
  iconSharedObject : option QString;
  fs : FileSystem;
  next : nat;
}.

Definition set_icon_d (f : gmap nat IconPrivate → gmap nat IconPrivate) (s : State) :=
  {| icon_d := f (icon_d s); icon_o := icon_o s; iset_d := iset_d s;
     iset_o := iset_o s; iconsets := iconsets s; emptyPixmap := emptyPixmap s;
     icon_counter := icon_counter s; iconSharedObject := iconSharedObject s;
     fs := fs s; next := next s |}.

Definition set_icon_o (f : gmap nat nat → gmap nat nat) (s : State) :=
  {| icon_d := icon_d s; icon_o := f (icon_o s); iset_d := iset_d s;
     iset_o := iset_o s; iconsets := iconsets s; emptyPixmap := emptyPixmap s;
     icon_counter := icon_counter s; iconSharedObject := iconSharedObject s;
     fs := fs s; next := next s |}.

Definition set_iset_d (f : gmap nat IconsetPrivate → gmap nat IconsetPrivate) (s : State) :=
  {| icon_d := icon_d s; icon_o := icon_o s; iset_d := f (iset_d s);
     iset_o := iset_o s; iconsets := iconsets s; emptyPixmap := emptyPixmap s;
     icon_counter := icon_counter s; iconSharedObject := iconSharedObject s;
     fs := fs s; next := next s |}.

Definition set_iset_o (f : gmap nat nat → gmap nat nat) (s : State) :=
  {| icon_d := icon_d s; icon_o := icon_o s; iset_d := iset_d s;
     iset_o := f (iset_o s); iconsets := iconsets s; emptyPixmap := emptyPixmap s;
     icon_counter := icon_counter s; iconSharedObject := iconSharedObject s;
     fs := fs s; next := next s |}.

Definition set_iconsets (r : option (list nat)) (s : State) :=
  {| icon_d := icon_d s; icon_o := icon_o s; iset_d := iset_d s;
     iset_o := iset_o s; iconsets := r; emptyPixmap := emptyPixmap s;
     icon_counter := icon_counter s; iconSharedObject := iconSharedObject s;
     fs := fs s; next := next s |}.

Definition set_emptyPixmap (p : option QPixmap) (s : State) :=
  {| icon_d := icon_d s; icon_o := icon_o s; iset_d := iset_d s;
     iset_o := iset_o s; iconsets := iconsets s; emptyPixmap := p;
     icon_counter := icon_counter s; iconSharedObject := iconSharedObject s;
     fs := fs s; next := next s |}.

Definition set_icon_counter (c : Z) (s : State) :=
  {| icon_d := icon_d s; icon_o := icon_o s; iset_d := iset_d s;
     iset_o := iset_o s; iconsets := iconsets s; emptyPixmap := emptyPixmap s;
     icon_counter := c; iconSharedObject := iconSharedObject s;
     fs := fs s; next := next s |}.

Definition set_iconSharedObject (o : option QString) (s : State) :=
  {| icon_d := icon_d s; icon_o := icon_o s; iset_d := iset_d s;
     iset_o := iset_o s; iconsets := iconsets s; emptyPixmap := emptyPixmap s;
     icon_counter := icon_counter s; iconSharedObject := o;
     fs := fs s; next := next s |}.

Definition set_fs (x : FileSystem) (s : State) :=
  {| icon_d := icon_d s; icon_o := icon_o s; iset_d := iset_d s;
     iset_o := iset_o s; iconsets := iconsets s; emptyPixmap := emptyPixmap s;
     icon_counter := icon_counter s; iconSharedObject := iconSharedObject s;
     fs := x; next := next s |}.

Definition set_next (n : nat) (s : State) :=
  {| icon_d := icon_d s; icon_o := icon_o s; iset_d := iset_d s;
     iset_o := iset_o s; iconsets := iconsets s; emptyPixmap := emptyPixmap s;
     icon_counter := icon_counter s; iconSharedObject := iconSharedObject s;
     fs := fs s; next := n |}.

(** ** Computations: state passing with failure *)

Definition M (A : Type) : Type := State → option (A * State).

#[global] Instance M_ret : MRet M := λ A a s, Some (a, s).
#[global] Instance M_bind : MBind M := λ A B f m s,
  match m s with
  | Some (a, s') => f a s'
  | None => None
  end.

(** undefined behaviour *)
Definition undefined {A} : M A := λ _, None.

Definition gets {A} (f : State → A) : M A := λ s, Some (f s, s).
Definition modify (f : State → State) : M unit := λ s, Some (tt, f s).

Definition some_or_undefined {A} (o : option A) : M A :=
  match o with Some a => mret a | None => undefined end.

Definition when (b : bool) (m : M unit) : M unit :=
  if b then m else mret tt.

(** a loop over a list, as [foreach] or an iterator loop without break *)
Fixpoint for_each {A} (l : list A) (body : A → M unit) : M unit :=
  match l with
  | [] => mret tt
  | x :: r => body x;; for_each r body
  end.

(** [new]: the next free address *)
Definition alloc : M nat :=
  λ s, Some (next s, set_next (S (next s)) s).

(** ** Icon *)

(** [this->d] for an Icon object; undefined when the object is dead. *)
Definition icon_dptr (this : nat) : M nat :=
  o ← gets (λ s, icon_o s !! this); some_or_undefined o.

Definition IconPrivate_get (d : nat) : M IconPrivate :=
  o ← gets (λ s, icon_d s !! d); some_or_undefined o.

Definition IconPrivate_put (d : nat) (p : IconPrivate) : M unit :=
  modify (set_icon_d <[d := p]>).

Definition IconPrivate_update (d : nat) (f : IconPrivate → IconPrivate) : M unit :=
  p ← IconPrivate_get d; IconPrivate_put d (f p).

(** [Q3Shared::ref()] *)
Definition IconPrivate_ref (d : nat) : M unit :=
  IconPrivate_update d (λ p, ip_set_count (ip_count p + 1) p).

(** [Q3Shared::deref()]: true when the counter reached zero *)
Definition IconPrivate_deref (d : nat) : M bool :=
  p ← IconPrivate_get d;
  let c := ip_count p - 1 in
  IconPrivate_put d (ip_set_count c p);;
  mret (bool_decide (c = 0)).

(** [Icon::Private::Private()] *)
Definition IconPrivate_init : IconPrivate :=
  {| ip_count := 1; ip_signalsBlocked := false;
     ip_name := QNull; ip_regExp := regExp_null; ip_text := [];
     ip_sound := QNull; ip_impix := Impix_new; ip_anim := None;
     ip_iconSet := None; ip_activatedCount := 0 |}.

(** [Icon::Private::Private(const Private &from)], built at address [d];
    it leaves [activatedCount] unset. *)
Definition IconPrivate_copy (d : nat) (from : IconPrivate) : IconPrivate :=
  {| ip_count := 1; ip_signalsBlocked := false;
     ip_name := ip_name from; ip_regExp := ip_regExp from;
     ip_text := ip_text from; ip_sound := ip_sound from;
     ip_impix := ip_impix from; ip_anim := ip_anim from;
     ip_iconSet := None; ip_activatedCount := indeterminate_int d |}.

(** [Icon::Private::unloadAnim()] *)
Definition IconPrivate_unloadAnim (d : nat) : M unit :=
  IconPrivate_update d (ip_set_anim None).

(** [delete d]: [~Private()] unloads the animation and frees the icon
    set, then the object is gone. *)
Definition IconPrivate_delete (d : nat) : M unit :=
  IconPrivate_unloadAnim d;;
  IconPrivate_update d (ip_set_iconSet None);;
  modify (set_icon_d (delete d)).

(** Reading and writing through [this->d]. *)
Definition Icon_d (this : nat) : M IconPrivate :=
  d ← icon_dptr this; IconPrivate_get d.

Definition Icon_d_update (this : nat) (f : IconPrivate → IconPrivate) : M unit :=
  d ← icon_dptr this; IconPrivate_update d f.

(** [Icon::Icon()]; the result is the address of the new object. *)
Definition Icon_new : M nat :=
  this ← alloc;
  d ← alloc;
  IconPrivate_put d IconPrivate_init;;
  modify (set_icon_o <[this := d]>);;
  mret this.

(** [Icon::~Icon()], after which the object no longer exists. *)
Definition Icon_delete (this : nat) : M unit :=
  d ← icon_dptr this;
  z ← IconPrivate_deref d;
  when z (IconPrivate_delete d);;
  modify (set_icon_o (delete this)).

(** [Icon::Icon(const Icon &from)] *)
Definition Icon_new_copy (from : nat) : M nat :=
  this ← alloc;
  d ← icon_dptr from;
  modify (set_icon_o <[this := d]>);;
  IconPrivate_ref d;;
  mret this.

(** [Icon::operator=(const Icon &from)] *)
Definition Icon_assign (this from : nat) : M unit :=
  d ← icon_dptr this;
  z ← IconPrivate_deref d;
  when z (IconPrivate_delete d);;
  d' ← icon_dptr from;
  modify (set_icon_o <[this := d']>);;
  IconPrivate_ref d'.

(** [Icon::copy()] *)
Definition Icon_copy (this : nat) : M nat :=
  icon ← Icon_new;
  d0 ← icon_dptr icon;
  IconPrivate_delete d0;;
  p ← Icon_d this;
  d1 ← alloc;
  IconPrivate_put d1 (IconPrivate_copy d1 p);;
  modify (set_icon_o <[icon := d1]>);;
  mret icon.

(** [Icon::detach()] *)
Definition Icon_detach (this : nat) : M unit :=
  p ← Icon_d this;
  if decide (ip_count p ≠ 1) then
    i ← Icon_copy this;
    Icon_assign this i;;
    Icon_delete i
  else mret tt.


(** [Icon::Private::pixmap()] and [Icon::pixmap()] *)
Definition IconPrivate_pixmap (p : IconPrivate) : QPixmap :=
  match ip_anim p with
  | Some a => anim_framePixmap a
  | None => impix_pixmap (ip_impix p)
  end.

Definition Icon_pixmap (this : nat) : M QPixmap :=
  p ← Icon_d this; mret (IconPrivate_pixmap p).

(** [Icon::image()] *)
Definition Icon_image (this : nat) : M QImage :=
  p ← Icon_d this;
  mret (match ip_anim p with
        | Some a => anim_frameImage a
        | None => impix_image (ip_impix p)
        end).

(** [Icon::impix()] *)
Definition Icon_impix (this : nat) : M Impix :=
  p ← Icon_d this; mret (ip_impix p).

(** [Icon::frameImpix()] *)
Definition Icon_frameImpix (this : nat) : M Impix :=
  p ← Icon_d this;
  mret (match ip_anim p with
        | Some a => anim_frameImpix a
        | None => ip_impix p
        end).

(** [Icon::iconSet()] *)
Definition Icon_iconSet (this : nat) : M QIconSet :=
  p ← Icon_d this;
  match ip_iconSet p with
  | Some i => mret i
  | None =>
      let i := iconSet_fromPixmap (impix_pixmap (ip_impix p)) in
      Icon_d_update this (ip_set_iconSet (Some i));;
      mret i
  end.

(** [Icon::setImpix(impix, doDetach)] *)
Definition Icon_setImpix (this : nat) (impix : Impix) (doDetach : bool) : M unit :=
  when doDetach (Icon_detach this);;
  Icon_d_update this (ip_set_impix impix).

(** [Icon::anim()] *)
Definition Icon_anim (this : nat) : M (option Anim) :=
  p ← Icon_d this; mret (ip_anim p).

(** [Icon::activated(playSound)].  The signal [playSound] itself is not
    modelled, the creation of the global [iconSharedObject] is. *)
Definition Icon_activated (this : nat) (playSound : bool) : M unit :=
  p ← Icon_d this;
  c ← some_or_undefined (int_incr (ip_activatedCount p));
  Icon_d_update this (ip_set_activatedCount c);;
  p ← Icon_d this;
  when (playSound && negb (qs_isNull (ip_sound p)))
    (o ← gets iconSharedObject;
     when (bool_decide (o = None)) (modify (set_iconSharedObject (Some QNull))));;
  p ← Icon_d this;
  match ip_anim p with
  | Some a => Icon_d_update this (ip_set_anim (Some (anim_unpause a)))
  | None => mret tt
  end.

(** [Icon::stop()] *)
Definition Icon_stop (this : nat) : M unit :=
  p ← Icon_d this;
  c ← some_or_undefined (int_decr (ip_activatedCount p));
  Icon_d_update this (ip_set_activatedCount c);;
  p ← Icon_d this;
  if decide (ip_activatedCount p ≤ 0) then
    Icon_d_update this (ip_set_activatedCount 0);;
    p ← Icon_d this;
    match ip_anim p with
    | Some a =>
        Icon_d_update this (ip_set_anim (Some (anim_restart (anim_pause a))))
    | None => mret tt
    end
  else mret tt.

(** [Icon::setAnim(anim, doDetach)] *)
Definition Icon_setAnim (this : nat) (anim : Anim) (doDetach : bool) : M unit :=
  when doDetach (Icon_detach this);;
  d ← icon_dptr this;
  IconPrivate_unloadAnim d;;
  Icon_d_update this (ip_set_anim (Some anim));;
  p ← Icon_d this;
  a ← some_or_undefined (ip_anim p);
  when (bool_decide (anim_numFrames a > 0))
    (Icon_setImpix this (anim_frame a 0) setImpix_doDetach_default);;
  p ← Icon_d this;
  a ← some_or_undefined (ip_anim p);
  when (bool_decide (anim_numFrames a < 2))
    (Icon_d_update this (ip_set_anim None));;
  p ← Icon_d this;
  when (bool_decide (is_Some (ip_anim p)) && bool_decide (ip_activatedCount p > 0))
    (Icon_d_update this (ip_set_activatedCount 0);;
     Icon_activated this false).


(** [Icon::frameNumber()] *)
Definition Icon_frameNumber (this : nat) : M Z :=
  p ← Icon_d this;
  mret (match ip_anim p with Some a => anim_frameNumber a | None => 0 end).

(** [Icon::name()], [setName], [regExp], [setRegExp], [text], [setText],
    [sound], [setSound] *)
Definition Icon_name (this : nat) : M QString :=
  p ← Icon_d this; mret (ip_name p).

Definition Icon_setName (this : nat) (name : QString) : M unit :=
  Icon_detach this;;
  Icon_d_update this (ip_set_name name).

Definition Icon_regExp (this : nat) : M QRegExp :=
  p ← Icon_d this; mret (ip_regExp p).

Definition Icon_setRegExp (this : nat) (regExp : QRegExp) : M unit :=
  Icon_detach this;;
  Icon_d_update this (ip_set_regExp regExp).

Definition Icon_text (this : nat) : M (list (string * QString)) :=
  p ← Icon_d this; mret (ip_text p).

Definition Icon_setText (this : nat) (t : list (string * QString)) : M unit :=
  Icon_detach this;;
  Icon_d_update this (ip_set_text t).

Definition Icon_sound (this : nat) : M QString :=
  p ← Icon_d this; mret (ip_sound p).

Definition Icon_setSound (this : nat) (sound : QString) : M unit :=
  Icon_detach this;;
  Icon_d_update this (ip_set_sound sound).

(** [Icon::blockSignals(b)]: [QObject::blockSignals] on the shared
    object, which returns the previous setting. *)
Definition Icon_blockSignals (this : nat) (b : bool) : M bool :=
  p ← Icon_d this;
  Icon_d_update this (ip_set_signalsBlocked b);;
  mret (ip_signalsBlocked p).

(** [Icon::loadFromData(ba, isAnim)] *)
Definition Icon_loadFromData (this : nat) (ba : QByteArray) (isAnim : bool) : M bool :=
  Icon_detach this;;
  ret ← (if isAnim return M bool then
           let anim := anim_fromData ba in
           Icon_setAnim this anim setAnim_doDetach_default;;
           mret (bool_decide (anim_numFrames anim > 0))
         else mret false);
  if ret : bool then mret true
  else
    p ← Icon_d this;
    let r := Impix_loadFromData (ip_impix p) ba in
    Icon_d_update this (ip_set_impix r.2);;
    mret r.1.


(** ** IconsetFactoryPrivate: the registry of iconsets *)

(** [IconsetFactoryPrivate::registerIconset(i)] *)
Definition IconsetFactoryPrivate_registerIconset (i : nat) : M unit :=
  r ← gets iconsets;
  when (bool_decide (r = None)) (modify (set_iconsets (Some [])));;
  r ← gets iconsets;
  l ← some_or_undefined r;
  when (negb (bool_decide (i ∈ l))) (modify (set_iconsets (Some (l ++ [i])))).

(** [IconsetFactoryPrivate::unregisterIconset(i)]; [QList::remove(t)] is
    Qt's compatibility name for [removeAll(t)]. *)
Definition IconsetFactoryPrivate_unregisterIconset (i : nat) : M unit :=
  r ← gets iconsets;
  match r with
  | Some l =>
      when (bool_decide (i ∈ l))
        (modify (set_iconsets (Some (filter (λ x, x ≠ i) l))))
  | None => mret tt
  end;;
  r ← gets iconsets;
  if bool_decide (r = None) || bool_decide (length (default [] r) = 0%nat) then
    when (negb (bool_decide (r = None))) (modify (set_iconsets None));;
    e ← gets emptyPixmap;
    when (bool_decide (is_Some e)) (modify (set_emptyPixmap None))
  else mret tt.

(** ** Iconset::Private *)

Definition IconsetPrivate_get (d : nat) : M IconsetPrivate :=
  o ← gets (λ s, iset_d s !! d); some_or_undefined o.

Definition IconsetPrivate_put (d : nat) (p : IconsetPrivate) : M unit :=
  modify (set_iset_d <[d := p]>).

Definition IconsetPrivate_update (d : nat) (f : IconsetPrivate → IconsetPrivate) : M unit :=
  p ← IconsetPrivate_get d; IconsetPrivate_put d (f p).

Definition IconsetPrivate_ref (d : nat) : M unit :=
  IconsetPrivate_update d (λ p, sp_set_count (sp_count p + 1) p).

Definition IconsetPrivate_deref (d : nat) : M bool :=
  p ← IconsetPrivate_get d;
  let c := sp_count p - 1 in
  IconsetPrivate_put d (sp_set_count c p);;
  mret (bool_decide (c = 0)).

(** [Iconset::Private::Private()], that is [init()] on empty members *)
Definition IconsetPrivate_init : IconsetPrivate :=
  {| sp_count := 1; sp_name := QStr "Unnamed"; sp_version := QNull;
     sp_description := QNull; sp_creation := QNull; sp_homeUrl := QNull;
     sp_filename := QNull; sp_authors := []; sp_dict := ∅; sp_list := [];
     sp_info := ∅ |}.

(** [Iconset::Private::remove(name)] *)
Definition IconsetPrivate_remove (d : nat) (name : QString) : M unit :=
  p ← IconsetPrivate_get d;
  match sp_dict p !! qs_str name with
  | Some i =>
      IconsetPrivate_update d (λ p, sp_set_dict (delete (qs_str name) (sp_dict p)) p);;
      IconsetPrivate_update d
        (λ p, sp_set_list (filter (λ x, Some x ≠ i) (sp_list p)) p);;
      match i with
      | Some a => Icon_delete a
      | None => mret tt
      end
  | None => mret tt
  end.

(** [Iconset::Private::append(n, icon)] *)
Definition IconsetPrivate_append (d : nat) (n : QString) (icon : nat) : M unit :=
  p ← IconsetPrivate_get d;
  when (bool_decide (is_Some (sp_dict p !! qs_str n))) (IconsetPrivate_remove d n);;
  IconsetPrivate_update d (λ p, sp_set_dict (<[qs_str n := Some icon]> (sp_dict p)) p);;
  IconsetPrivate_update d (λ p, sp_set_list (sp_list p ++ [icon]) p).

(** [Iconset::Private::clear()] *)
Definition IconsetPrivate_clear (d : nat) : M unit :=
  IconsetPrivate_update d (sp_set_dict ∅);;
  p ← IconsetPrivate_get d;
  for_each (sp_list p) (λ x,
    IconsetPrivate_update d (λ p, sp_set_list (tail (sp_list p)) p);;
    Icon_delete x).

(** [Iconset::Private::setInformation(from)] *)
Definition IconsetPrivate_setInformation (d : nat) (from : IconsetPrivate) : M unit :=
  IconsetPrivate_update d (sp_set_information (sp_information from)).

(** [Iconset::Private::Private(const Private &from)]: the address of the
    new object.  The loop runs over the iterator's own copy of
    [from.list]. *)
Definition IconsetPrivate_new_copy (from : nat) : M nat :=
  d ← alloc;
  IconsetPrivate_put d IconsetPrivate_init;;
  p ← IconsetPrivate_get from;
  IconsetPrivate_setInformation d p;;
  for_each (sp_list p) (λ x,
    icon ← Icon_new_copy x;
    n ← Icon_name icon;
    IconsetPrivate_append d n icon);;
  mret d.

(** [delete d] for an [Iconset::Private]: [~Private()] clears it. *)
Definition IconsetPrivate_delete (d : nat) : M unit :=
  IconsetPrivate_clear d;;
  modify (set_iset_d (delete d)).

(** [Iconset::Private::loadData(fileName, dir)] *)
Definition IconsetPrivate_loadData (fileName dir : QString) : M QByteArray :=
  f ← gets fs;
  let ba : QByteArray := [] in
  if fi_isDir f dir then
    mret (file_readAll f (qs_app (qs_app dir (QStr "/")) fileName))
  else if qs_eqb (fi_extension dir) (QStr "jisp") || qs_eqb (fi_extension dir) (QStr "zip") then
    if negb (zip_open f dir) then mret ba
    else
      let n := qs_app (qs_app (fi_baseName dir) (QStr "/")) fileName in
      let r := zip_readFile f dir n ba in
      if r.1 then mret r.2
      else
        let n := qs_app (QStr "/") fileName in
        mret (zip_readFile f dir n r.2).2
  else mret ba.

(** The text stored for one [author] element in [loadMeta]. *)
Definition loadMeta_author (e : QDomNode) : QString :=
  let n := dom_text e in
  let tmp := QStr "<br>&nbsp;&nbsp;" in
  let n :=
    if negb (qs_isEmpty (dom_attribute e "email")) then
      let s := dom_attribute e "email" in
      qs_app n (qs_app tmp (qs_arg (qs_arg (QStr "Email: <a href='mailto:%1'>%2</a>") s) s))
    else n in
  let n :=
    if negb (qs_isEmpty (dom_attribute e "jid")) then
      let s := dom_attribute e "jid" in
      qs_app n (qs_app tmp (qs_arg (qs_arg (QStr "JID: <a href='jabber:%1'>%2</a>") s) s))
    else n in
  let n :=
    if negb (qs_isEmpty (dom_attribute e "www")) then
      let s := dom_attribute e "www" in
      qs_app n (qs_app tmp (qs_arg (qs_arg (QStr "WWW: <a href='%1'>%2</a>") s) s))
    else n in
  n.

(** One turn of the loop of [loadMeta], on the meta-data members. *)
Definition loadMeta_node (i : IconsetInformation) (node : QDomNode) : IconsetInformation :=
  if negb (dom_isElement node) then i
  else
    let tag := dom_tagName node in
    if qs_eqb tag (QStr "name") then si_set_name (dom_text node) i
    else if qs_eqb tag (QStr "version") then si_set_version (dom_text node) i
    else if qs_eqb tag (QStr "description") then si_set_description (dom_text node) i
    else if qs_eqb tag (QStr "author") then
      si_set_authors (si_authors i ++ [loadMeta_author node]) i
    else if qs_eqb tag (QStr "creation") then si_set_creation (dom_text node) i
    else if qs_eqb tag (QStr "home") then si_set_homeUrl (dom_text node) i
    else i.

(** [Iconset::Private::loadMeta(i, dir)] *)
Definition IconsetPrivate_loadMeta (d : nat) (i : QDomNode) (dir : QString) : M unit :=
  for_each (dom_children i) (λ node,
    IconsetPrivate_update d
      (λ p, sp_set_information (loadMeta_node (sp_information p) node) p)).

(** *** loadIcon *)

(** The local variables of [loadIcon] that its first loop fills. *)
Record IconDef := {
  id_text : list (string * QString);
  id_graphic : gmap string QString;
  id_sound : gmap string QString;
  id_object : gmap string QString;
  id_name : QString;
  id_isAnimated : bool;
  id_isImage : bool;
}.

Definition graphicMime : list string :=
  ["image/png"; "image/gif"; "image/x-xpm"; "image/bmp"; "image/jpeg";
   "image/svg+xml"]%string.

Definition soundMime : list string :=
  ["audio/x-wav"; "audio/x-ogg"; "audio/x-mp3"; "audio/x-midi"]%string.

Definition animationMime : list string := ["image/gif"]%string.

(** One turn of the first loop of [loadIcon].  [text.insertMulti] keeps
    earlier entries; the newest comes first. *)
Definition loadIcon_node (a : IconDef) (n : QDomNode) : IconDef :=
  if negb (dom_isElement n) then a
  else
    let tag := dom_tagName n in
    if qs_eqb tag (QStr "text") then
      let lang := dom_attribute n "xml:lang" in
      let lang := if qs_isEmpty lang then QStr "" else lang in
      {| id_text := (qs_str lang, dom_text n) :: id_text a;
         id_graphic := id_graphic a; id_sound := id_sound a;
         id_object := id_object a; id_name := id_name a;
         id_isAnimated := id_isAnimated a; id_isImage := id_isImage a |}
    else if qs_eqb tag (QStr "object") then
      {| id_text := id_text a; id_graphic := id_graphic a;
         id_sound := id_sound a;
         id_object := <[qs_str (dom_attribute n "mime") := dom_text n]> (id_object a);
         id_name := id_name a;
         id_isAnimated := id_isAnimated a; id_isImage := id_isImage a |}
    else if qs_eqb tag (QStr "x") then
      let attr := dom_attribute n "xmlns" in
      if qs_eqb attr (QStr "name") then
        {| id_text := id_text a; id_graphic := id_graphic a;
           id_sound := id_sound a; id_object := id_object a;
           id_name := dom_text n;
           id_isAnimated := id_isAnimated a; id_isImage := id_isImage a |}
      else if qs_eqb attr (QStr "type") then
        if qs_eqb (dom_text n) (QStr "animation") then
          {| id_text := id_text a; id_graphic := id_graphic a;
             id_sound := id_sound a; id_object := id_object a;
             id_name := id_name a;
             id_isAnimated := true; id_isImage := id_isImage a |}
        else if qs_eqb (dom_text n) (QStr "image") then
          {| id_text := id_text a; id_graphic := id_graphic a;
             id_sound := id_sound a; id_object := id_object a;
             id_name := id_name a;
             id_isAnimated := id_isAnimated a; id_isImage := true |}
        else a
      else a
    else if qs_eqb tag (QStr "graphic") then
      {| id_text := id_text a;
         id_graphic := <[qs_str (dom_attribute n "mime") := dom_text n]> (id_graphic a);
         id_sound := id_sound a; id_object := id_object a; id_name := id_name a;
         id_isAnimated := id_isAnimated a; id_isImage := id_isImage a |}
    else if qs_eqb tag (QStr "sound") then
      {| id_text := id_text a; id_graphic := id_graphic a;
         id_sound := <[qs_str (dom_attribute n "mime") := dom_text n]> (id_sound a);
         id_object := id_object a; id_name := id_name a;
         id_isAnimated := id_isAnimated a; id_isImage := id_isImage a |}
    else a.

(** Copying the supported [object] entries into a table. *)
Definition loadIcon_fill (object : gmap string QString) (mimes : list string)
    (table : gmap string QString) : gmap string QString :=
  fold_left (λ t m,
    match object !! m with
    | Some v => if negb (qs_isNull v) then <[m := v]> t else t
    | None => t
    end) mimes table.

(** The loop over [graphicMime]: the value of [loadSuccess] at its end.
    [isAnimated] is carried from one turn to the next. *)
Fixpoint loadIcon_graphics (icon : nat) (dir : QString)
    (graphic : gmap string QString) (isImage : bool) (mimes : list string)
    (isAnimated loadSuccess : bool) : M bool :=
  match mimes with
  | [] => mret loadSuccess
  | m :: rest =>
      match graphic !! m with
      | Some file =>
          if negb (qs_isNull file) then
            let isAnimated :=
              if negb isAnimated && negb isImage
              then (if bool_decide (m ∈ animationMime) then true else isAnimated)
              else isAnimated in
            ba ← IconsetPrivate_loadData file dir;
            ok ← Icon_loadFromData icon ba isAnimated;
            if ok : bool then mret true
            else loadIcon_graphics icon dir graphic isImage rest isAnimated false
          else loadIcon_graphics icon dir graphic isImage rest isAnimated loadSuccess
      | None => loadIcon_graphics icon dir graphic isImage rest isAnimated loadSuccess
      end
  end.

(** The loop over [soundMime], in a build with ICONSET_SOUND. *)
Fixpoint loadIcon_sounds (icon : nat) (dir : QString)
    (sound : gmap string QString) (isDir : bool) (absFilePath : QString)
    (mimes : list string) : M unit :=
  match mimes with
  | [] => mret tt
  | m :: rest =>
      match sound !! m with
      | Some file =>
          if negb (qs_isNull file) then
            if negb isDir then
              o ← gets iconSharedObject;
              when (bool_decide (o = None)) (modify (set_iconSharedObject (Some QNull)));;
              o ← gets iconSharedObject;
              path ← some_or_undefined o;
              if qs_isEmpty path then mret tt
              else if negb qca_sha1_supported then
                loadIcon_sounds icon dir sound isDir absFilePath rest
              else
                let h := qca_sha1_hashToString
                           (qs_app (qs_app absFilePath (QStr "/")) (qs_deref file)) in
                let path := qs_app path
                              (qs_app (qs_app (qs_app (QStr "/") h) (QStr "."))
                                      (fi_extension_complete file)) in
                modify (λ s, set_fs (file_write (fs s) path []) s);;
                data ← IconsetPrivate_loadData file dir;
                modify (λ s, set_fs (file_write (fs s) path data) s);;
                Icon_setSound icon path
            else
              Icon_setSound icon (qs_app (qs_app absFilePath (QStr "/")) (qs_deref file))
          else loadIcon_sounds icon dir sound isDir absFilePath rest
      | None => loadIcon_sounds icon dir sound isDir absFilePath rest
      end
  end.

(** The pattern built from the texts of the icon. *)
Definition loadIcon_regexp (text : list (string * QString)) : QString :=
  fold_left (λ regexp kv,
    let regexp := if negb (qs_isEmpty regexp) then qs_app regexp (QStr "|") else regexp in
    qs_app regexp (regExp_escape kv.2)) (qhash_order text) QNull.

(** [Iconset::Private::loadIcon(i, dir)] *)
Definition IconsetPrivate_loadIcon (d : nat) (i : QDomNode) (dir : QString) : M bool :=
  icon ← Icon_new;
  Icon_blockSignals icon true;;
  c ← gets icon_counter;
  c' ← some_or_undefined (int_incr c);
  modify (set_icon_counter c');;
  let a := fold_left loadIcon_node (dom_children i)
             {| id_text := []; id_graphic := ∅; id_sound := ∅; id_object := ∅;
                id_name := sprintf_icon c; id_isAnimated := false;
                id_isImage := false |} in
  Icon_setText icon (id_text a);;
  Icon_setName icon (id_name a);;
  let graphic :=
    if negb (bool_decide (id_object a = ∅))
    then loadIcon_fill (id_object a) graphicMime (id_graphic a)
    else id_graphic a in
  let sound :=
    if negb (bool_decide (id_object a = ∅))
    then loadIcon_fill (id_object a) soundMime (id_sound a)
    else id_sound a in
  loadSuccess ← loadIcon_graphics icon dir graphic (id_isImage a) graphicMime
                  (id_isAnimated a) false;
  f ← gets fs;
  loadIcon_sounds icon dir sound (fi_isDir f dir) (fi_absFilePath f dir) soundMime;;
  when (negb (bool_decide (length (id_text a) = 0%nat)))
    (Icon_setRegExp icon (regExp_fromPattern (loadIcon_regexp (id_text a))));;
  Icon_blockSignals icon false;;
  when loadSuccess
    (n ← Icon_new_copy icon; IconsetPrivate_append d (id_name a) n);;
  Icon_delete icon;;
  mret loadSuccess.

(** One turn of the loop of [Iconset::Private::load]. *)
Definition IconsetPrivate_load_node (d : nat) (dir : QString) (success : bool)
    (node : QDomNode) : M bool :=
  if negb (dom_isElement node) then mret success
  else
    let tag := dom_tagName node in
    if qs_eqb tag (QStr "meta") then
      IconsetPrivate_loadMeta d node dir;; mret success
    else if qs_eqb tag (QStr "icon") then
      ret ← IconsetPrivate_loadIcon d node dir;
      mret (if negb ret then false else success)
    else if qs_eqb tag (QStr "x") then
      IconsetPrivate_update d (λ p,
        sp_set_information
          (si_set_info (<[qs_str (dom_attribute node "xmlns") := dom_text node]> (sp_info p))
                       (sp_information p)) p);;
      mret success
    else mret success.

Fixpoint IconsetPrivate_load_loop (d : nat) (dir : QString) (nodes : list QDomNode)
    (success : bool) : M bool :=
  match nodes with
  | [] => mret success
  | node :: rest =>
      success ← IconsetPrivate_load_node d dir success node;
      IconsetPrivate_load_loop d dir rest success
  end.

(** [Iconset::Private::load(doc, dir)] *)
Definition IconsetPrivate_load (d : nat) (doc : QDomDocument) (dir : QString) : M bool :=
  let base := documentElement doc in
  if negb (qs_eqb (dom_tagName base) (QStr "icondef")) then mret false
  else IconsetPrivate_load_loop d dir (dom_children base) true.

(** ** Iconset *)

Definition iconset_dptr (this : nat) : M nat :=
  o ← gets (λ s, iset_o s !! this); some_or_undefined o.

Definition Iconset_d (this : nat) : M IconsetPrivate :=
  d ← iconset_dptr this; IconsetPrivate_get d.

Definition Iconset_d_update (this : nat) (f : IconsetPrivate → IconsetPrivate) : M unit :=
  d ← iconset_dptr this; IconsetPrivate_update d f.

(** [Iconset::Iconset()] *)
Definition Iconset_new : M nat :=
  this ← alloc;
  d ← alloc;
  IconsetPrivate_put d IconsetPrivate_init;;
  modify (set_iset_o <[this := d]>);;
  mret this.

(** [Iconset::Iconset(const Iconset &from)] *)
Definition Iconset_new_copy (from : nat) : M nat :=
  this ← alloc;
  d ← iconset_dptr from;
  modify (set_iset_o <[this := d]>);;
  IconsetPrivate_ref d;;
  mret this.

(** [Iconset::~Iconset()], after which the object no longer exists. *)
Definition Iconset_delete (this : nat) : M unit :=
  d ← iconset_dptr this;
  z ← IconsetPrivate_deref d;
  when z (IconsetPrivate_delete d);;
  IconsetFactoryPrivate_unregisterIconset this;;
  modify (set_iset_o (delete this)).

(** [Iconset::operator=(const Iconset &from)] *)
Definition Iconset_assign (this from : nat) : M unit :=
  d ← iconset_dptr this;
  z ← IconsetPrivate_deref d;
  when z (IconsetPrivate_delete d);;
  d' ← iconset_dptr from;
  modify (set_iset_o <[this := d']>);;
  IconsetPrivate_ref d'.

(** [Iconset::copy()]; the local [is] is the object handed back. *)
Definition Iconset_copy (this : nat) : M nat :=
  iset ← Iconset_new;
  d0 ← iconset_dptr iset;
  IconsetPrivate_delete d0;;
  d ← iconset_dptr this;
  d1 ← IconsetPrivate_new_copy d;
  modify (set_iset_o <[iset := d1]>);;
  mret iset.

(** [Iconset::detach()]: the temporary made by [copy()] dies at the end
    of the assignment. *)
Definition Iconset_detach (this : nat) : M unit :=
  p ← Iconset_d this;
  if decide (sp_count p > 1) then
    tmp ← Iconset_copy this;
    Iconset_assign this tmp;;
    Iconset_delete tmp
  else mret tt.


(** [Iconset::clear()] *)
Definition Iconset_clear (this : nat) : M unit :=
  Iconset_detach this;;
  d ← iconset_dptr this;
  IconsetPrivate_clear d.

(** [Iconset::count()] *)
Definition Iconset_count (this : nat) : M Z :=
  p ← Iconset_d this; mret (Z.of_nat (length (sp_list p))).

(** [Iconset::load(dir)] *)
Definition Iconset_load (this : nat) (dir : QString) : M bool :=
  Iconset_detach this;;
  d ← iconset_dptr this;
  ba ← IconsetPrivate_loadData (QStr "icondef.xml") dir;
  if negb (ba_isEmpty ba) then
    match dom_setContent ba with
    | Some doc =>
        ok ← IconsetPrivate_load d doc dir;
        if ok : bool then
          Iconset_d_update this (λ p,
            sp_set_information (si_set_filename dir (sp_information p)) p);;
          mret true
        else mret false
    | None => mret false
    end
  else mret false.

(** [Iconset::icon(name)]: a null pointer is [None].  [d->dict[name]] on
    the hash adds a null entry for a name that is not there. *)
Definition Iconset_icon (this : nat) (name : QString) : M (option nat) :=
  p ← Iconset_d this;
  if bool_decide (sp_dict p = ∅) then mret None
  else
    match sp_dict p !! qs_str name with
    | Some i => mret i
    | None =>
        Iconset_d_update this (λ p, sp_set_dict (<[qs_str name := None]> (sp_dict p)) p);;
        mret None
    end.


(** [Iconset::removeIcon(name)] *)
Definition Iconset_removeIcon (this : nat) (name : QString) : M unit :=
  Iconset_detach this;;
  d ← iconset_dptr this;
  IconsetPrivate_remove d name.

(** [Iconset::name()], [version()], [description()], [authors()],
    [creation()], [homeUrl()], [iterator()], [fileName()], [info()] *)
Definition Iconset_name (this : nat) : M QString :=
  p ← Iconset_d this; mret (sp_name p).
Definition Iconset_version (this : nat) : M QString :=
  p ← Iconset_d this; mret (sp_version p).
Definition Iconset_description (this : nat) : M QString :=
  p ← Iconset_d this; mret (sp_description p).
Definition Iconset_authors (this : nat) : M (list QString) :=
  p ← Iconset_d this; mret (sp_authors p).
Definition Iconset_creation (this : nat) : M QString :=
  p ← Iconset_d this; mret (sp_creation p).
Definition Iconset_homeUrl (this : nat) : M QString :=
  p ← Iconset_d this; mret (sp_homeUrl p).
Definition Iconset_iterator (this : nat) : M (list nat) :=
  p ← Iconset_d this; mret (sp_list p).
Definition Iconset_fileName (this : nat) : M QString :=
  p ← Iconset_d this; mret (sp_filename p).

(** [Iconset::setFileName(f)] *)
Definition Iconset_setFileName (this : nat) (f : QString) : M unit :=
  Iconset_d_update this (λ p, sp_set_information (si_set_filename f (sp_information p)) p).



(** [Iconset::createMimeSourceFactory()]: the images set in the factory,
    in order. *)
Definition Iconset_createMimeSourceFactory (this : nat) : M (list (QString * QImage)) :=
  p ← Iconset_d this;
  (fix go (l : list nat) : M (list (QString * QImage)) :=
     match l with
     | [] => mret []
     | icon :: r =>
         n ← Icon_name icon;
         img ← Icon_image icon;
         rest ← go r;
         mret ((n, img) :: rest)
     end) (sp_list p).

(** [Iconset::addToFactory()], [removeFromFactory()] *)
Definition Iconset_addToFactory (this : nat) : M unit :=
  IconsetFactoryPrivate_registerIconset this.

Definition Iconset_removeFromFactory (this : nat) : M unit :=
  IconsetFactoryPrivate_unregisterIconset this.

(** [Iconset::setSoundPrefs(unpackPath, receiver, slot)], in a build with
    ICONSET_SOUND; the connection is not modelled. *)
Definition Iconset_setSoundPrefs (unpackPath : QString) : M unit :=
  o ← gets iconSharedObject;
  when (bool_decide (o = None)) (modify (set_iconSharedObject (Some QNull)));;
  modify (set_iconSharedObject (Some unpackPath)).

(** ** IconsetFactory *)

(** The [foreach] loop of [IconsetFactoryPrivate::icon], which stops at
    the first iconset that gives a non-null pointer. *)
Fixpoint IconsetFactoryPrivate_icon_loop (l : list nat) (name : QString)
    : M (option nat) :=
  match l with
  | [] => mret None
  | iconset :: rest =>
      i ← Iconset_icon iconset name;
      match i with
      | Some a => mret (Some a)
      | None => IconsetFactoryPrivate_icon_loop rest name
      end
  end.

(** [IconsetFactoryPrivate::icon(name)] *)
Definition IconsetFactoryPrivate_icon (name : QString) : M (option nat) :=
  r ← gets iconsets;
  match r with
  | None => mret None
  | Some l => IconsetFactoryPrivate_icon_loop l name
  end.

(** [IconsetFactory::iconPtr(name)] *)
Definition IconsetFactory_iconPtr (name : QString) : M (option nat) :=
  IconsetFactoryPrivate_icon name.

(** [IconsetFactory::icon(name)]: the address of the Icon handed back. *)
Definition IconsetFactory_icon (name : QString) : M nat :=
  i ← IconsetFactory_iconPtr name;
  match i with
  | Some a => Icon_new_copy a
  | None => Icon_new
  end.

(** [IconsetFactory::iconPixmap(name)] *)
Definition IconsetFactory_iconPixmap (name : QString) : M QPixmap :=
  i ← IconsetFactory_iconPtr name;
  match i with
  | Some a => x ← Icon_impix a; mret (impix_pixmap x)
  | None =>
      e ← gets emptyPixmap;
      when (negb (bool_decide (is_Some e))) (modify (set_emptyPixmap (Some pixmap_null)));;
      e ← gets emptyPixmap;
      some_or_undefined e
  end.

(** [IconsetFactory::icons()] *)
Definition IconsetFactory_icons : M (list QString) :=
  r ← gets iconsets;
  l ← some_or_undefined r;
  (fix sets (l : list nat) : M (list QString) :=
     match l with
     | [] => mret []
     | iconset :: rest =>
         icons ← Iconset_iterator iconset;
         names ← (fix go (l : list nat) : M (list QString) :=
                    match l with
                    | [] => mret []
                    | icon :: r => n ← Icon_name icon; ns ← go r; mret (n :: ns)
                    end) icons;
         more ← sets rest;
         mret (names ++ more)
     end) l.

End Model.

(** ** A small concrete toolkit

    Pictures are byte strings (the empty one is null), an animation is the
    list of its frames with a position and a pause flag, every non-empty
    byte string decodes to a picture and to an animation with one frame
    per byte; the file system maps a path to [None] for a directory and to
    the content for a file, and there are no archives.  It is used to run
    the embedding on concrete states. *)

Definition sample_gui : QtGui := {|
  QPixmap := QByteArray;
  QImage := QByteArray;
  QIconSet := QByteArray;
  QRegExp := QString;
  pixmap_null := [];
  image_null := [];
  pixmap_isNull := ba_isEmpty;
  image_isNull := ba_isEmpty;
  pixmap_convertToImage := id;
  pixmap_convertFromImage := id;
  image_loadFromData := λ ba, if ba_isEmpty ba then None else Some ba;
  iconSet_fromPixmap := id;
  regExp_null := QNull;
  regExp_fromPattern := id;
  regExp_escape := id;
|}.

Record SampleAnim := {
  sa_frames : list (@Impix sample_gui);
  sa_frameNumber : Z;
  sa_paused : bool;
}.

Definition sample_frame (a : SampleAnim) (n : Z) : @Impix sample_gui :=
  default (@Impix_new sample_gui) (sa_frames a !! Z.to_nat n).

Definition sample_anim : @AnimLib sample_gui := {|
  Anim := SampleAnim;
  anim_fromData := λ ba,
    {| sa_frames := (λ b, @Build_Impix sample_gui [b] [b]) <$> ba;
       sa_frameNumber := 0; sa_paused := false |};
  anim_numFrames := λ a, Z.of_nat (length (sa_frames a));
  anim_frame := sample_frame;
  anim_framePixmap := λ a, impix_pixmap (sample_frame a (sa_frameNumber a));
  anim_frameImage := λ a, impix_image (sample_frame a (sa_frameNumber a));
  anim_frameImpix := λ a, sample_frame a (sa_frameNumber a);
  anim_frameNumber := sa_frameNumber;
  anim_pause := λ a,
    {| sa_frames := sa_frames a; sa_frameNumber := sa_frameNumber a; sa_paused := true |};
  anim_unpause := λ a,
    {| sa_frames := sa_frames a; sa_frameNumber := sa_frameNumber a; sa_paused := false |};
  anim_restart := λ a,
    {| sa_frames := sa_frames a; sa_frameNumber := 0; sa_paused := sa_paused a |};
  anim_stripFirstFrame := λ a,
    {| sa_frames := tail (sa_frames a); sa_frameNumber := sa_frameNumber a;
       sa_paused := sa_paused a |};
|}.

(** The one document the sample parser knows: an iconset "Sample" by one
    author with a single icon "smile" drawn from smile.png. *)
Definition sample_doc : QDomDocument :=
  {| documentElement :=
       DomElement "icondef" []
         [ DomElement "meta" []
             [ DomElement "name" [] [DomText "Sample"];
               DomElement "version" [] [DomText "1.0"];
               DomElement "author" [("jid", "a@b")%string] [DomText "A. Author"] ];
           DomOther;
           DomElement "icon" []
             [ DomElement "x" [("xmlns", "name")%string] [DomText "smile"];
               DomElement "text" [] [DomText ":-)"];
               DomElement "object" [("mime", "image/png")%string] [DomText "smile.png"] ] ] |}.

Definition sample_platform : Platform := {|
  FileSystem := gmap string (option QByteArray);
  fi_isDir := λ f p, match f !! qs_str p with Some None => true | _ => false end;
  fi_extension := λ _, QNull;
  fi_extension_complete := λ _, QNull;
  fi_baseName := id;
  fi_absFilePath := λ _ p, p;
  file_readAll := λ f p, default [] (mjoin (f !! qs_str p));
  file_write := λ f p ba, <[qs_str p := Some ba]> f;
  zip_open := λ _ _, false;
  zip_readFile := λ _ _ _ ba, (false, ba);
  dom_setContent := λ ba,
    match ba with
    | "<"%byte :: _ => Some sample_doc
    | _ => None
    end;
  qca_sha1_supported := false;
  qca_sha1_hashToString := id;
  qs_arg := λ fmt a, qs_app fmt a;
  sprintf_icon := λ _, QStr "icon_0000";
  qs_deref := id;
  qhash_order := id;
  indeterminate_int := λ _, 0;
  setImpix_doDetach_default := true;
  setAnim_doDetach_default := true;
|}.

(** A directory "set" holding icondef.xml and smile.png. *)
Definition sample_fs : @FileSystem sample_platform :=
  ({[ "set"%string := None;
     "set/icondef.xml"%string := Some ["<"%byte; ">"%byte];
     "set/smile.png"%string := Some ["P"%byte; "N"%byte; "G"%byte] ]}
   : gmap string (option QByteArray)).

(** The state of a program that has created no object yet. *)
Definition sample_state : @State sample_gui sample_anim sample_platform :=
  {| icon_d := ∅; icon_o := ∅; iset_d := ∅; iset_o := ∅; iconsets := None;
     emptyPixmap := None; icon_counter := 0; iconSharedObject := None;
     fs := sample_fs; next := 1 |}.

(** ** Notions used to state the properties *)

Section Properties.
Context `{AL : AnimLib} `{PF : Platform}.

(** The entries of the factory's registry, in the order of the list; a
    null [iconsets] pointer has none. *)
Definition registry (s : State) : list nat := default [] (iconsets s).

(** A call of [activated()] or [stop()] on an Icon, and a run of such
    calls one after the other. *)
Inductive IconCall :=
  | CallActivated (playSound : bool)
  | CallStop.

Definition Icon_call (this : nat) (c : IconCall) : M unit :=
  match c with
  | CallActivated playSound => Icon_activated this playSound
  | CallStop => Icon_stop this
  end.

Definition Icon_calls (this : nat) (l : list IconCall) : M unit :=
  for_each l (Icon_call this).

(** *** Well-formed heaps of Icons *)

(** The number of objects in [m] that point to [d]. *)
Definition refs (m : gmap nat nat) (d : nat) : nat :=
  size (filter (λ kv, kv.2 = d) m).

(** The Icon objects [O] and the [Icon::Private] objects [D], with the
    next free address [n], are well formed when every Icon points to an
    existing Private, the reference count of every Private is the number
    of Icons pointing to it, and every address in use is below [n]. *)
Record icon_wf_maps (D : gmap nat IconPrivate) (O : gmap nat nat) (n : nat) : Prop := {
  iwf_ptr : ∀ o d, O !! o = Some d → is_Some (D !! d);
  iwf_count : ∀ d p, D !! d = Some p → ip_count p = Z.of_nat (refs O d);
  iwf_fresh_o : ∀ o, is_Some (O !! o) → (o < n)%nat;
  iwf_fresh_d : ∀ d, is_Some (D !! d) → (d < n)%nat;
}.

Definition icon_wf (s : State) : Prop :=
  icon_wf_maps (icon_d s) (icon_o s) (next s).

(** What can be seen through an Icon: the shared data it points to,
    without the reference count. *)
Definition view_maps (D : gmap nat IconPrivate) (O : gmap nat nat) (o : nat)
    : option IconPrivate :=
  d ← O !! o; p ← D !! d; Some (ip_set_count 0 p).

Definition icon_view (s : State) (o : nat) : option IconPrivate :=
  view_maps (icon_d s) (icon_o s) o.

(** Everything but the Icon heap, the allocator and the global sound
    object is the same in [s'] as in [s]. *)
Definition rest_same (s s' : State) : Prop :=
  iset_d s' = iset_d s ∧ iset_o s' = iset_o s ∧ iconsets s' = iconsets s
  ∧ emptyPixmap s' = emptyPixmap s ∧ icon_counter s' = icon_counter s
  ∧ fs s' = fs s.

(** [s'] differs from [s] only in Icons of [X], in reference counts and in
    the global sound object: every other Icon shows what it showed. *)
Record icon_frame (X : nat → Prop) (s s' : State) : Prop := {
  ifr_view : ∀ o, ¬ X o → icon_view s' o = icon_view s o;
  ifr_rest : rest_same s s';
  ifr_next : (next s ≤ next s')%nat;
}.

(** Icon [this] is the only one pointing to its Private [p] at [d]. *)
Definition icon_unique (s : State) (this d : nat) (p : IconPrivate) : Prop :=
  icon_o s !! this = Some d ∧ icon_d s !! d = Some p ∧ ip_count p = 1.

(** [s'] is [s] with the Private at [d] replaced by [p']. *)
Definition inplace (s s' : State) (d : nat) (p' : IconPrivate) : Prop :=
  icon_o s' = icon_o s ∧ icon_d s' = <[d := p']> (icon_d s)
  ∧ rest_same s s' ∧ next s' = next s.

(** Where an operation on Icon [this], started in [s0], stands in [s]:
    the heap is well formed and [this] points to [p] at [d]; when [K]
    holds (the operation has detached, or [this] was alone from the
    start), [this] is alone and no other Icon has seen a change. *)
Record icon_at (K : Prop) (this : nat) (s0 s : State) (d : nat) (p : IconPrivate)
    : Prop := {
  iat_wf : icon_wf s;
  iat_o : icon_o s !! this = Some d;
  iat_d : icon_d s !! d = Some p;
  iat_kept : K → ip_count p = 1 ∧ icon_frame (eq this) s0 s;
  iat_rest : rest_same s0 s;
  iat_next : (next s0 ≤ next s)%nat;
}.

(** *** Well-formed heaps of Iconsets *)

(** What holds of the hash and the list of an [Iconset::Private]: the
    list has no duplicates, its elements are existing Icons, every Icon of
    the hash is in the list, every Icon of the list is in the hash, and no
    Icon is stored under two names. *)
Record private_ok (s : State) (p : IconsetPrivate) : Prop := {
  pok_nodup : NoDup (sp_list p);
  pok_live : ∀ x, x ∈ sp_list p → is_Some (icon_o s !! x);
  pok_dict_list : ∀ n a, sp_dict p !! n = Some (Some a) → a ∈ sp_list p;
  pok_list_dict : ∀ a, a ∈ sp_list p → ∃ n, sp_dict p !! n = Some (Some a);
  pok_inj : ∀ n m a,
    sp_dict p !! n = Some (Some a) → sp_dict p !! m = Some (Some a) → n = m;
}.

(** Icon [x] is in the list of the Private at [d]; an Icon in no list is
    external to the iconsets. *)
Definition owned_by (s : State) (d x : nat) : Prop :=
  ∃ p, iset_d s !! d = Some p ∧ x ∈ sp_list p.

Definition external (s : State) (x : nat) : Prop := ∀ d, ¬ owned_by s d x.

(** The heaps are well formed: the Icon heap is, every
    [Iconset::Private] is in order, no Icon is in the lists of two of
    them, and their addresses are below the next free one. *)
Record heap_ok (s : State) : Prop := {
  hok_icons : icon_wf s;
  hok_private : ∀ d p, iset_d s !! d = Some p → private_ok s p;
  hok_disjoint : ∀ d1 d2 x, owned_by s d1 x → owned_by s d2 x → d1 = d2;
  hok_fresh : ∀ d, is_Some (iset_d s !! d) → (d < next s)%nat;
}.

(** The Iconset objects [O] and the [Iconset::Private] objects [D] are
    well formed when every Iconset points to an existing Private, the
    reference count of every Private is the number of Iconsets pointing
    to it, and every Iconset is below the address [n]. *)
Record iset_wf_maps (D : gmap nat IconsetPrivate) (O : gmap nat nat) (n : nat)
    : Prop := {
  swf_ptr : ∀ o d, O !! o = Some d → is_Some (D !! d);
  swf_count : ∀ d p, D !! d = Some p → sp_count p = Z.of_nat (refs O d);
  swf_fresh : ∀ o, is_Some (O !! o) → (o < n)%nat;
}.

(** The Iconset objects are well formed: each points to an existing
    Private, the reference count of every Private is the number of
    Iconsets pointing to it, and the registry lists existing Iconsets,
    each once. *)
Record objs_ok (s : State) : Prop := {
  ook_ptr : ∀ o d, iset_o s !! o = Some d → is_Some (iset_d s !! d);
  ook_count : ∀ d p, iset_d s !! d = Some p → sp_count p = Z.of_nat (refs (iset_o s) d);
  ook_fresh : ∀ o, is_Some (iset_o s !! o) → (o < next s)%nat;
  ook_registry_nodup : NoDup (registry s);
  ook_registry_live : ∀ o, o ∈ registry s → is_Some (iset_o s !! o);
}.

Definition WF (s : State) : Prop := heap_ok s ∧ objs_ok s.

(** What a member function of the Private at [d] may do: the Iconset
    objects, the registry and all other Privates stay as they are, Icons
    below the address [N] that are not in the list of [d] show what they
    showed, and the list of [d] holds only Icons it held or Icons from
    [N] on. *)
Record priv_frame (N d : nat) (s s' : State) : Prop := {
  pfr_o : iset_o s' = iset_o s;
  pfr_iconsets : iconsets s' = iconsets s;
  pfr_emptyPixmap : emptyPixmap s' = emptyPixmap s;
  pfr_d : ∀ d', d' ≠ d → iset_d s' !! d' = iset_d s !! d';
  pfr_icons : ∀ x, (x < N)%nat → ¬ owned_by s d x →
              icon_view s' x = icon_view s x;
  pfr_list : ∀ x, owned_by s' d x → owned_by s d x ∨ (N ≤ x)%nat;
  pfr_next : (next s ≤ next s')%nat;
}.

(** Where a member function of the Private at [d], started in [s0] with
    the Private [p0], stands in [s]: the heaps are well formed, the
    Private is [p] with the reference count of [p0], and [s] differs from
    [s0] as [priv_frame] allows. *)
Record priv_at (N d : nat) (s0 : State) (p0 : IconsetPrivate) (s : State)
    (p : IconsetPrivate) : Prop := {
  pat_ok : heap_ok s;
  pat_d : iset_d s !! d = Some p;
  pat_count : sp_count p = sp_count p0;
  pat_frame : priv_frame N d s0 s;
}.

(** Where [loadIcon] on the Private at [d], started in [s0] with the
    Private [p], stands in [s] while it fills its local Icon [icon]: the
    Private is still [p], the heaps are well formed and differ from
    those of [s0] as [priv_frame] allows, and [icon], which is not below
    [N], exists, is in no iconset and is alone on its data. *)
Record temp_at (N d icon : nat) (s0 : State) (p : IconsetPrivate) (s : State)
    : Prop := {
  tat_priv : priv_at N d s0 p s p;
  tat_live : is_Some (icon_o s !! icon);
  tat_ext : external s icon;
  tat_N : (N ≤ icon)%nat;
  tat_alone : ∀ dx px, icon_o s !! icon = Some dx → icon_d s !! dx = Some px →
              ip_count px = 1;
}.

(** What can be seen through an Iconset: the shared data without the
    reference count, and what its Icons show. *)
Definition iset_view (s : State) (o : nat)
    : option (IconsetPrivate * list (option IconPrivate)) :=
  d ← iset_o s !! o;
  p ← iset_d s !! d;
  Some (sp_set_count 0 p, icon_view s <$> sp_list p).

(** What an operation on Iconset [this] leaves alone: every other
    Iconset shows what it showed, every external Icon too and stays
    external, and the registry lists the same Iconsets. *)
Record iset_frame (this : nat) (s s' : State) : Prop := {
  sfr_view : ∀ o, o ≠ this → iset_view s' o = iset_view s o;
  sfr_icons : ∀ x, is_Some (icon_o s !! x) → external s x →
              icon_view s' x = icon_view s x ∧ external s' x;
  sfr_registry : registry s' = registry s;
  sfr_next : (next s ≤ next s')%nat;
}.

(** *** Runs of the mutators that change the icons of an Iconset *)






(** *** The mutators that detach *)






(** *** Looking an icon up in the factory *)

(** The Icon that the Iconset [o] holds under [name], if any. *)
Definition iconset_lookup (s : State) (o : nat) (name : string) : option nat :=
  d ← iset_o s !! o; p ← iset_d s !! d; mjoin (sp_dict p !! name).

(** The first Icon held under [name] by the Iconsets of [l], in the order
    of the list. *)
Fixpoint first_icon (s : State) (l : list nat) (name : string) : option nat :=
  match l with
  | [] => None
  | o :: r =>
      match iconset_lookup s o name with
      | Some a => Some a
      | None => first_icon s r name
      end
  end.

(** The first Icon held under [name] by the registered Iconsets, in the
    order of registration. *)
Definition factory_lookup (s : State) (name : string) : option nat :=
  first_icon s (registry s) name.

(** [s'] is [s] but for null entries added to the hashes of Privates. *)
Definition null_entries_added (s s' : State) : Prop :=
  icon_d s' = icon_d s ∧ icon_o s' = icon_o s ∧ iset_o s' = iset_o s
  ∧ iconsets s' = iconsets s ∧ emptyPixmap s' = emptyPixmap s
  ∧ icon_counter s' = icon_counter s ∧ iconSharedObject s' = iconSharedObject s
  ∧ fs s' = fs s ∧ next s' = next s
  ∧ ∀ d, option_Forall2
           (λ p p', sp_set_dict ∅ p' = sp_set_dict ∅ p
                    ∧ ∀ n, mjoin (sp_dict p' !! n) = mjoin (sp_dict p !! n))
           (iset_d s !! d) (iset_d s' !! d).

(** *** The children of a [meta] element *)

(** [n] is an element with tag name [tag]. *)
Definition is_tagged (tag : string) (n : QDomNode) : Prop :=
  dom_isElement n = true ∧ qs_str (dom_tagName n) = tag.

#[global] Instance is_tagged_dec tag n : Decision (is_tagged tag n).
Proof. unfold is_tagged. apply _. Defined.

(** The child elements of [e] with tag name [tag], in document order. *)
Definition children_tagged (tag : string) (e : QDomNode) : list QDomNode :=
  filter (is_tagged tag) (dom_children e).

(** The text of the last child element of [e] tagged [tag], or [old]
    when there is none. *)
Definition last_child_text (tag : string) (e : QDomNode) (old : QString) : QString :=
  default old (last (dom_text <$> children_tagged tag e)).

(** *** What load does with the children tagged "icon" *)

(** The results of [loadIcon] for the child elements tagged "icon", in
    document order; the other children are handled as [load] handles
    them. *)
Fixpoint IconsetPrivate_load_icons (d : nat) (dir : QString)
    (nodes : list QDomNode) : M (list bool) :=
  match nodes with
  | [] => mret []
  | node :: rest =>
      if bool_decide (is_tagged "icon" node) then
        b ← IconsetPrivate_loadIcon d node dir;
        bs ← IconsetPrivate_load_icons d dir rest;
        mret (b :: bs)
      else
        IconsetPrivate_load_node d dir true node;;
        IconsetPrivate_load_icons d dir rest
  end.

(** All of the state but the heap of Iconset::Private objects is the
    same. *)
Definition same_but_iset_d (s s' : State) : Prop :=
  icon_d s' = icon_d s ∧ icon_o s' = icon_o s ∧ iset_o s' = iset_o s
  ∧ iconsets s' = iconsets s ∧ emptyPixmap s' = emptyPixmap s
  ∧ icon_counter s' = icon_counter s ∧ iconSharedObject s' = iconSharedObject s
  ∧ fs s' = fs s ∧ next s' = next s.

End Properties.

(** ** Concrete states *)

(** An Icon made by [Icon::Icon()] in the empty state. *)
Definition sample_icon_state : @State sample_gui sample_anim sample_platform :=
  {| icon_d := {[ 2%nat := @IconPrivate_init sample_gui sample_anim ]};
     icon_o := {[ 1%nat := 2%nat ]};
     iset_d := ∅; iset_o := ∅; iconsets := None;
     emptyPixmap := None; icon_counter := 0; iconSharedObject := None;
     fs := sample_fs; next := 3 |}.

(** An Iconset made by [Iconset::Iconset()] in the empty state. *)
Definition sample_iconset_state : @State sample_gui sample_anim sample_platform :=
  {| icon_d := ∅; icon_o := ∅;
     iset_d := {[ 2%nat := IconsetPrivate_init ]};
     iset_o := {[ 1%nat := 2%nat ]}; iconsets := None;
     emptyPixmap := None; icon_counter := 0; iconSharedObject := None;
     fs := sample_fs; next := 3 |}.

(** The [meta] element of the sample document. *)
Definition sample_meta : QDomNode :=
  DomElement "meta" []
    [ DomElement "name" [] [DomText "Sample"];
      DomElement "version" [] [DomText "1.0"];
      DomElement "author" [("jid", "a@b")%string] [DomText "A. Author"] ].

(** Two Iconsets, each made by [Iconset::Iconset()]. *)
Definition sample_two_iconsets : @State sample_gui sample_anim sample_platform :=
  {| icon_d := ∅; icon_o := ∅;
     iset_d := {[ 2%nat := IconsetPrivate_init; 4%nat := IconsetPrivate_init ]};
     iset_o := {[ 1%nat := 2%nat; 3%nat := 4%nat ]}; iconsets := None;
     emptyPixmap := None; icon_counter := 0; iconSharedObject := None;
     fs := sample_fs; next := 5 |}.

(** The Private of an iconset that holds the Icon 7 under "smile". *)
Definition sample_private : IconsetPrivate :=
  sp_set_list [7%nat]
    (sp_set_dict {[ "smile"%string := Some 7%nat ]} IconsetPrivate_init).

(** An Icon 5 in no iconset, an Iconset 1 that holds the Icon 7 under
    the name "smile", and an empty Iconset 3; both Iconsets are
    registered in the factory. *)
Definition sample_heap : @State sample_gui sample_anim sample_platform :=
  {| icon_d := {[ 6%nat := @IconPrivate_init sample_gui sample_anim;
                  8%nat := ip_set_name (QStr "smile")
                             (@IconPrivate_init sample_gui sample_anim) ]};
     icon_o := {[ 5%nat := 6%nat; 7%nat := 8%nat ]};
     iset_d := {[ 2%nat := sample_private; 4%nat := IconsetPrivate_init ]};
     iset_o := {[ 1%nat := 2%nat; 3%nat := 4%nat ]};
     iconsets := Some [1%nat; 3%nat];
     emptyPixmap := None; icon_counter := 0; iconSharedObject := None;
     fs := sample_fs; next := 9 |}.

(** Two Icons 1 and 3 that share the Private 2, and two Iconsets 4 and 6
    that share the Private 5, as copy construction leaves them. *)
Definition sample_shared : @State sample_gui sample_anim sample_platform :=
  {| icon_d := {[ 2%nat := ip_set_count 2 (@IconPrivate_init sample_gui sample_anim) ]};
     icon_o := {[ 1%nat := 2%nat; 3%nat := 2%nat ]};
     iset_d := {[ 5%nat := sp_set_count 2 IconsetPrivate_init ]};
     iset_o := {[ 4%nat := 5%nat; 6%nat := 5%nat ]};
     iconsets := None;
     emptyPixmap := None; icon_counter := 0; iconSharedObject := None;
     fs := sample_fs; next := 7 |}.


Section SampleRuns.
#[local] Existing Instances sample_gui sample_anim sample_platform.


End SampleRuns.

(** * Properties of the embedding *)

(** Decides the equality of two maps built by inserting and deleting. *)
Ltac map_norm :=
  apply map_eq; intros ?k;
  repeat first [rewrite lookup_insert | rewrite lookup_delete];
  repeat case_decide; simplify_eq; try done; try congruence.

(** Runs the accessors of the heap on a symbolic state. *)
Ltac mexec := repeat first
  [ progress (unfold mbind, M_bind, mret, M_ret, gets, modify, some_or_undefined,
      undefined, when, alloc, Icon_d, Icon_d_update, icon_dptr, IconPrivate_get,
      IconPrivate_update, IconPrivate_put)
  | progress simpl
  | rewrite lookup_insert_eq
  | rewrite lookup_delete_eq
  | rewrite lookup_insert_ne by done
  | rewrite lookup_delete_ne by done
  | match goal with H : ?m !! ?k = _ |- context [?m !! ?k] => rewrite H end ].

(** Unfolds the plumbing of a computation so that it runs on a state. *)
Ltac mrun :=
  unfold mbind, M_bind, mret, M_ret, gets, modify, some_or_undefined,
    undefined, when, alloc; simpl.

Section Proofs.
Context `{AL : AnimLib} `{PF : Platform}.

(** ** Running computations *)

Lemma bind_run {A B} (m : M A) (k : A → M B) s a s1 :
  m s = Some (a, s1) → (m ≫= k) s = k a s1.
Proof. intros E. unfold mbind, M_bind. by rewrite E. Qed.

Lemma bind_undefined {A B} (m : M A) (k : A → M B) s :
  m s = None → (m ≫= k) s = None.
Proof. intros E. unfold mbind, M_bind. by rewrite E. Qed.

Lemma bind_inv {A B} (m : M A) (k : A → M B) s b s2 :
  (m ≫= k) s = Some (b, s2) →
  ∃ a s1, m s = Some (a, s1) ∧ k a s1 = Some (b, s2).
Proof.
  unfold mbind, M_bind. destruct (m s) as [[a s1]|] eqn:E; [|done].
  intros Hk. by exists a, s1.
Qed.

Lemma for_each_app {A} (l1 l2 : list A) (body : A → M unit) s :
  for_each (l1 ++ l2) body s = (for_each l1 body;; for_each l2 body) s.
Proof.
  revert s. induction l1 as [|x l1 IH]; intros s; simpl.
  - done.
  - unfold mbind, M_bind in *. destruct (body x s) as [[[] s1]|]; [|done].
    apply IH.
Qed.

(** ** The registry of the factory *)

Lemma registerIconset_run s i :
  IconsetFactoryPrivate_registerIconset i s =
    Some (tt, if decide (i ∈ registry s)
              then (if iconsets s is None then set_iconsets (Some []) s else s)
              else set_iconsets (Some (registry s ++ [i]))
                     (if iconsets s is None then set_iconsets (Some []) s else s)).
Proof.
  unfold IconsetFactoryPrivate_registerIconset, registry.
  destruct s as [a b c d r e f g h n]; mrun.
  destruct r as [l|]; simpl.
  - destruct (decide (i ∈ l)) as [Hi|Hi].
    + by rewrite bool_decide_eq_true_2.
    + by rewrite bool_decide_eq_false_2.
  - repeat (case_bool_decide; simpl); repeat (case_decide; simpl);
      try done; set_solver.
Qed.

Lemma registry_registerIconset s i s1 :
  IconsetFactoryPrivate_registerIconset i s = Some (tt, s1) →
  registry s1 = if decide (i ∈ registry s) then registry s else registry s ++ [i].
Proof.
  rewrite registerIconset_run. intros [= <-].
  unfold registry. destruct (iconsets s) as [l|] eqn:E; simpl;
    try case_decide; simpl; by rewrite ?E.
Qed.

Lemma unregisterIconset_run s i :
  ∃ s2, IconsetFactoryPrivate_unregisterIconset i s = Some (tt, s2)
    ∧ registry s2 = filter (λ x, x ≠ i) (registry s)
    ∧ icon_d s2 = icon_d s ∧ icon_o s2 = icon_o s
    ∧ iset_d s2 = iset_d s ∧ iset_o s2 = iset_o s
    ∧ icon_counter s2 = icon_counter s
    ∧ iconSharedObject s2 = iconSharedObject s
    ∧ fs s2 = fs s ∧ next s2 = next s.
Proof.
  unfold IconsetFactoryPrivate_unregisterIconset, registry.
  destruct s as [a b c d r e f g h n]; mrun.
  assert (Hf : ∀ l : list nat, i ∉ l → filter (λ x, x ≠ i) l = l).
  { intros l Hl. induction l as [|x l IH]; [done|].
    rewrite filter_cons_True by set_solver. f_equal. apply IH. set_solver. }
  destruct r as [l|]; simpl.
  - destruct (decide (i ∈ l)) as [Hi|Hi].
    + rewrite bool_decide_eq_true_2 by done. simpl.
      destruct (filter (λ x, x ≠ i) l) as [|y l'] eqn:El; simpl.
      * destruct e; simpl; eauto 12.
      * eauto 12.
    + rewrite bool_decide_eq_false_2 by done. simpl.
      rewrite Hf by done.
      destruct l as [|y l']; simpl.
      * destruct e; simpl; eauto 12.
      * eauto 12.
  - destruct e; simpl; eauto 12.
Qed.

(** C10: registering is idempotent and keeps the registry free of
    duplicates.  From a registry without duplicates, [addToFactory()] on
    an Iconset [i] succeeds, calling it twice ends in the very state
    reached by calling it once, the entry is appended at the end only when
    it was not yet listed, and the registry still has no duplicates;
    [unregisterIconset(i)] leaves exactly the other entries, so it removes
    at most one, and again no duplicates. *)
Theorem registerIconset_idempotent s i :
  NoDup (registry s) →
  ∃ s1 s2,
    Iconset_addToFactory i s = Some (tt, s1)
    ∧ (Iconset_addToFactory i;; Iconset_addToFactory i) s = Some (tt, s1)
    ∧ registry s1 = (if decide (i ∈ registry s) then registry s else registry s ++ [i])
    ∧ NoDup (registry s1)
    ∧ IconsetFactoryPrivate_unregisterIconset i s = Some (tt, s2)
    ∧ registry s2 = filter (λ x, x ≠ i) (registry s)
    ∧ NoDup (registry s2)
    ∧ (length (registry s) ≤ length (registry s2) + 1)%nat.
Proof.
  intros Hnd.
  destruct (unregisterIconset_run s i) as (s2 & Hun & Hr2 & _).
  pose proof (registerIconset_run s i) as H1.
  set (s1 := if decide (i ∈ registry s)
             then (if iconsets s is None then set_iconsets (Some []) s else s)
             else set_iconsets (Some (registry s ++ [i]))
                    (if iconsets s is None then set_iconsets (Some []) s else s)) in *.
  pose proof (registry_registerIconset _ _ _ H1) as Hr1.
  assert (Hin : i ∈ registry s1).
  { rewrite Hr1. destruct (decide _); set_solver. }
  exists s1, s2. unfold Iconset_addToFactory. split_and!; try done.
  - rewrite (bind_run _ _ _ _ _ H1). rewrite registerIconset_run.
    rewrite decide_True by done.
    destruct (iconsets s1) eqn:E; [done|].
    unfold registry in Hin. rewrite E in Hin. simpl in Hin. set_solver.
  - rewrite Hr1. destruct (decide _) as [Hi|Hi]; [done|].
    apply NoDup_app. split_and!; [done| |apply NoDup_singleton].
    intros x Hx. set_solver.
  - rewrite Hr2. by apply NoDup_filter.
  - rewrite Hr2. clear -Hnd.
    induction Hnd as [|x l Hx Hnd IH]; simpl; [lia|].
    destruct (decide (x = i)) as [->|Hne].
    + rewrite filter_cons_False by naive_solver.
      assert (filter (λ x, x ≠ i) l = l) as ->; [|lia].
      clear -Hx. induction l as [|y l IH]; [done|].
      rewrite filter_cons_True by set_solver. f_equal. apply IH. set_solver.
    + rewrite filter_cons_True by done. simpl. lia.
Qed.

(** ** Reading and writing through an Icon *)

Lemma icon_dptr_run s this d :
  icon_o s !! this = Some d → icon_dptr this s = Some (d, s).
Proof. intros E. unfold icon_dptr. mrun. by rewrite E. Qed.

Lemma IconPrivate_get_run s d p :
  icon_d s !! d = Some p → IconPrivate_get d s = Some (p, s).
Proof. intros E. unfold IconPrivate_get. mrun. by rewrite E. Qed.

Lemma IconPrivate_update_run s d p f :
  icon_d s !! d = Some p →
  IconPrivate_update d f s = Some (tt, set_icon_d <[d := f p]> s).
Proof.
  intros E. unfold IconPrivate_update.
  by rewrite (bind_run _ _ _ _ _ (IconPrivate_get_run _ _ _ E)).
Qed.

Lemma Icon_d_run s this d p :
  icon_o s !! this = Some d → icon_d s !! d = Some p →
  Icon_d this s = Some (p, s).
Proof.
  intros E1 E2. unfold Icon_d.
  rewrite (bind_run _ _ _ _ _ (icon_dptr_run _ _ _ E1)).
  by apply IconPrivate_get_run.
Qed.

Lemma Icon_d_update_run s this d p f :
  icon_o s !! this = Some d → icon_d s !! d = Some p →
  Icon_d_update this f s = Some (tt, set_icon_d <[d := f p]> s).
Proof.
  intros E1 E2. unfold Icon_d_update.
  rewrite (bind_run _ _ _ _ _ (icon_dptr_run _ _ _ E1)).
  by apply IconPrivate_update_run.
Qed.

(** ** The activation counter *)

Lemma Icon_activated_run s this d p playSound :
  icon_o s !! this = Some d → icon_d s !! d = Some p →
  ip_activatedCount p < INT_MAX →
  ∃ s', Icon_activated this playSound s = Some (tt, s')
    ∧ rest_same s s' ∧ next s' = next s
    ∧ icon_o s' = icon_o s
    ∧ icon_d s' = <[d := ip_set_anim (anim_unpause <$> ip_anim p)
                           (ip_set_activatedCount (ip_activatedCount p + 1) p)]>
                    (icon_d s).
Proof.
  intros Ho Hd Hc. unfold Icon_activated, int_incr.
  mexec. rewrite decide_True by done. mexec.
  destruct (playSound && negb (qs_isNull (ip_sound p))); mexec;
    try case_bool_decide; mexec; destruct (ip_anim p) eqn:Ea; mexec;
    (eexists; split; [done|]; mexec; rewrite ?insert_insert_eq;
     split; [by unfold rest_same|]; split; [done|]; split; [done|]);
    try done.
  all: f_equal; destruct p; simpl in *; by subst.
Qed.

Lemma Icon_stop_run s this d p :
  icon_o s !! this = Some d → icon_d s !! d = Some p →
  INT_MIN < ip_activatedCount p →
  ∃ s', Icon_stop this s = Some (tt, s')
    ∧ rest_same s s' ∧ next s' = next s
    ∧ icon_o s' = icon_o s
    ∧ icon_d s' =
        <[d := if decide (ip_activatedCount p - 1 ≤ 0)
               then ip_set_anim ((λ a, anim_restart (anim_pause a)) <$> ip_anim p)
                      (ip_set_activatedCount 0 p)
               else ip_set_activatedCount (ip_activatedCount p - 1) p]>
          (icon_d s).
Proof.
  intros Ho Hd Hc. unfold Icon_stop, int_decr.
  mexec. rewrite decide_True by done. mexec.
  destruct (decide (ip_activatedCount p - 1 ≤ 0)) as [Hle|Hle]; mexec.
  - destruct (ip_anim p) eqn:Ea; mexec;
      (eexists; split; [done|]; mexec; rewrite ?insert_insert_eq;
       split; [by unfold rest_same|]; split; [done|]; split; [done|]);
      try done.
    f_equal; destruct p; simpl in *; by subst.
  - eexists; split; [done|]; mexec. by unfold rest_same.
Qed.

Lemma Icon_calls_run calls : ∀ s this d p,
  icon_o s !! this = Some d → icon_d s !! d = Some p →
  0 ≤ ip_activatedCount p →
  ip_activatedCount p + Z.of_nat (length calls) ≤ INT_MAX →
  ∃ s' p', Icon_calls this calls s = Some (tt, s')
    ∧ icon_o s' !! this = Some d ∧ icon_d s' !! d = Some p'
    ∧ 0 ≤ ip_activatedCount p'
    ∧ ip_activatedCount p' ≤ ip_activatedCount p + Z.of_nat (length calls).
Proof.
  induction calls as [|c calls IH]; intros s this d p Ho Hd H0 Hmax.
  - exists s, p. simpl. split_and!; try done. lia.
  - simpl in Hmax. unfold Icon_calls. simpl.
    assert (∃ s1 p1, Icon_call this c s = Some (tt, s1)
              ∧ icon_o s1 !! this = Some d ∧ icon_d s1 !! d = Some p1
              ∧ 0 ≤ ip_activatedCount p1
              ∧ ip_activatedCount p1 ≤ ip_activatedCount p + 1)
      as (s1 & p1 & Hrun & Ho1 & Hd1 & H01 & Hle1).
    { destruct c as [playSound|]; simpl.
      - destruct (Icon_activated_run s this d p playSound Ho Hd) as (s1 & Hrun & _ & _ & Eo & Ed);
          [unfold INT_MAX in *; lia|].
        eexists s1, _. split; [done|]. rewrite Eo, Ed, lookup_insert_eq.
        split_and!; try done; simpl; lia.
      - destruct (Icon_stop_run s this d p Ho Hd) as (s1 & Hrun & _ & _ & Eo & Ed);
          [unfold INT_MIN; lia|].
        eexists s1, _. split; [done|]. rewrite Eo, Ed, lookup_insert_eq.
        split_and!; try done; case_decide; simpl; lia. }
    rewrite (bind_run _ _ _ _ _ Hrun).
    destruct (IH s1 this d p1 Ho1 Hd1 H01) as (s' & p' & Hrun' & ? & ? & ? & ?); [lia|].
    exists s', p'. split_and!; try done. lia.
Qed.

(** C9: the activation counter never goes negative.  For an Icon whose
    counter is zero, every run of [activated()] and [stop()] calls (short
    enough for the [int] counter not to overflow) is defined and leaves a
    counter that is not negative; a further [stop()] then yields the
    counter minus one, or exactly zero when that would be zero or less,
    and in that case the animation, if there is one, is paused and
    restarted. *)
Theorem activatedCount_never_negative s this d p calls :
  icon_o s !! this = Some d → icon_d s !! d = Some p →
  ip_activatedCount p = 0 →
  Z.of_nat (length calls) ≤ INT_MAX →
  ∃ s' p' s'' p'',
    Icon_calls this calls s = Some (tt, s')
    ∧ icon_o s' !! this = Some d ∧ icon_d s' !! d = Some p'
    ∧ 0 ≤ ip_activatedCount p'
    ∧ Icon_stop this s' = Some (tt, s'')
    ∧ icon_o s'' !! this = Some d ∧ icon_d s'' !! d = Some p''
    ∧ ip_activatedCount p'' = Z.max 0 (ip_activatedCount p' - 1)
    ∧ ip_anim p'' =
        (if decide (ip_activatedCount p' - 1 ≤ 0)
         then (λ a, anim_restart (anim_pause a)) <$> ip_anim p'
         else ip_anim p').
Proof.
  intros Ho Hd Hz Hlen.
  destruct (Icon_calls_run calls s this d p Ho Hd) as (s' & p' & Hrun & Ho' & Hd' & H0 & _);
    [lia..|].
  destruct (Icon_stop_run s' this d p' Ho' Hd') as (s'' & Hstop & _ & _ & Eo & Ed);
    [unfold INT_MIN; lia|].
  eexists s', p', s'', _. rewrite Eo, Ed, lookup_insert_eq.
  split_and!; try done; case_decide; simpl; try done; lia.
Qed.

End Proofs.

(** ** Counting the Icons that point to a Private *)

Lemma refs_insert (m : gmap nat nat) o d p :
  refs (<[o := d]> m) p = ((if decide (d = p) then 1 else 0) + refs (delete o m) p)%nat.
Proof.
  unfold refs. rewrite <- (insert_delete_eq m).
  rewrite map_filter_insert. simpl. destruct (decide (d = p)) as [->|Hne].
  - rewrite map_size_insert_None; [done|].
    rewrite map_lookup_filter_None. left. apply lookup_delete_eq.
  - by rewrite delete_delete_eq.
Qed.

Lemma refs_delete (m : gmap nat nat) o d p :
  m !! o = Some d →
  refs m p = ((if decide (d = p) then 1 else 0) + refs (delete o m) p)%nat.
Proof.
  intros Ho. rewrite <- (insert_id m o d) at 1 by done. apply refs_insert.
Qed.

Lemma refs_delete_None (m : gmap nat nat) o p :
  m !! o = None → refs (delete o m) p = refs m p.
Proof. intros Ho. by rewrite delete_id. Qed.

Lemma refs_pos (m : gmap nat nat) o d : m !! o = Some d → (0 < refs m d)%nat.
Proof. intros Ho. rewrite (refs_delete m o d d Ho), decide_True by done. lia. Qed.

Lemma refs_unique (m : gmap nat nat) o o' d :
  refs m d = 1%nat → m !! o = Some d → m !! o' = Some d → o = o'.
Proof.
  intros H1 Ho Ho'. destruct (decide (o = o')) as [|Hne]; [done|].
  rewrite (refs_delete m o d d Ho), decide_True in H1 by done.
  assert (delete o m !! o' = Some d) as Hd by by rewrite lookup_delete_ne.
  apply refs_pos in Hd. lia.
Qed.

Section IconHeap.
Context `{AL : AnimLib} `{PF : Platform}.

(** ** Well-formed Icon heaps under the elementary changes *)

Lemma icon_wf_maps_ext D O n D' O' :
  D = D' → O = O' → icon_wf_maps D' O' n → icon_wf_maps D O n.
Proof. by intros -> ->. Qed.

Lemma icon_wf_maps_next D O n n' :
  icon_wf_maps D O n → (n ≤ n')%nat → icon_wf_maps D O n'.
Proof.
  intros [H1 H2 H3 H4] Hn. split; try done.
  - intros o Ho. specialize (H3 o Ho). lia.
  - intros d Hd. specialize (H4 d Hd). lia.
Qed.

(** a new Icon with a new Private *)
Lemma icon_wf_maps_new D O n o d p n' :
  icon_wf_maps D O n → O !! o = None → D !! d = None → ip_count p = 1 →
  (o < n')%nat → (d < n')%nat → (n ≤ n')%nat →
  icon_wf_maps (<[d := p]> D) (<[o := d]> O) n'.
Proof.
  intros [H1 H2 H3 H4] HOo HDd Hp Ho Hd Hn.
  split.
  - intros o' d'. rewrite lookup_insert_Some. intros [[<- <-]|[Hne Ho']].
    + rewrite lookup_insert_eq. eauto.
    + rewrite lookup_insert_ne; [by eapply H1|].
      intros <-. destruct (H1 _ _ Ho') as [? E]. congruence.
  - intros d' p'. rewrite lookup_insert_Some. intros [[<- <-]|[Hne Hd']].
    + rewrite refs_insert, decide_True, refs_delete_None by done.
      assert (refs O d = 0%nat) as ->; [|lia].
      destruct (refs O d) eqn:E; [done|].
      assert (refs O d ≠ 0%nat) as Hnz by lia.
      unfold refs in Hnz. apply map_size_non_empty_iff, map_choose in Hnz.
      destruct Hnz as (o' & d' & Hl). apply map_lookup_filter_Some in Hl.
      destruct Hl as [Hl Heq]. simpl in Heq. subst d'.
      destruct (H1 _ _ Hl) as [? E']. congruence.
    + rewrite refs_insert, decide_False, refs_delete_None by done.
      by apply H2.
  - intros o'. rewrite lookup_insert_is_Some. intros [<-|[_ Ho']]; [lia|].
    specialize (H3 o' Ho'). lia.
  - intros d'. rewrite lookup_insert_is_Some. intros [<-|[_ Hd']]; [lia|].
    specialize (H4 d' Hd'). lia.
Qed.

(** one more Icon pointing to an existing Private *)
Lemma icon_wf_maps_ref D O n o d p n' :
  icon_wf_maps D O n → D !! d = Some p → O !! o = None → (o < n')%nat →
  (n ≤ n')%nat →
  icon_wf_maps (<[d := ip_set_count (ip_count p + 1) p]> D) (<[o := d]> O) n'.
Proof.
  intros [H1 H2 H3 H4] Hd Ho Hlt Hn. split.
  - intros o' d'. rewrite lookup_insert_Some. intros [[<- <-]|[Hne Ho']].
    + rewrite lookup_insert_eq. eauto.
    + rewrite lookup_insert_is_Some. destruct (decide (d = d')); [by left|right].
      split; [done|]. by eapply H1.
  - intros d' p'. rewrite lookup_insert_Some. intros [[<- <-]|[Hne Hd']].
    + rewrite refs_insert, decide_True, refs_delete_None by done. simpl.
      rewrite (H2 _ _ Hd). lia.
    + rewrite refs_insert, decide_False, refs_delete_None by done.
      by apply H2.
  - intros o'. rewrite lookup_insert_is_Some. intros [<-|[_ Ho']]; [lia|].
    specialize (H3 o' Ho'). lia.
  - intros d'. rewrite lookup_insert_is_Some. intros [<-|[_ Hd']].
    + specialize (H4 d (mk_is_Some _ _ Hd)). lia.
    + specialize (H4 d' Hd'). lia.
Qed.

(** an Icon goes away and others still point to its Private *)
Lemma icon_wf_maps_deref D O n o d p :
  icon_wf_maps D O n → O !! o = Some d → D !! d = Some p → ip_count p - 1 ≠ 0 →
  icon_wf_maps (<[d := ip_set_count (ip_count p - 1) p]> D) (delete o O) n.
Proof.
  intros [H1 H2 H3 H4] Ho Hd Hc. split.
  - intros o' d'. rewrite lookup_delete_Some. intros [Hne Ho'].
    rewrite lookup_insert_is_Some. destruct (decide (d = d')); [by left|right].
    split; [done|]. by eapply H1.
  - intros d' p'. rewrite lookup_insert_Some. intros [[<- <-]|[Hne Hd']].
    + simpl. rewrite (H2 _ _ Hd), (refs_delete O o d d Ho), decide_True by done. lia.
    + rewrite (H2 _ _ Hd'), (refs_delete O o d d' Ho), decide_False by done. done.
  - intros o'. rewrite lookup_delete_is_Some. intros [_ Ho']. by apply H3.
  - intros d'. rewrite lookup_insert_is_Some. intros [<-|[_ Hd']].
    + apply H4. eauto.
    + by apply H4.
Qed.

(** the last Icon pointing to a Private goes away, and the Private too *)
Lemma icon_wf_maps_free D O n o d p :
  icon_wf_maps D O n → O !! o = Some d → D !! d = Some p → ip_count p - 1 = 0 →
  icon_wf_maps (delete d D) (delete o O) n.
Proof.
  intros [H1 H2 H3 H4] Ho Hd Hc.
  assert (refs O d = 1%nat) as Hr by (specialize (H2 _ _ Hd); lia).
  split.
  - intros o' d'. rewrite lookup_delete_Some. intros [Hne Ho'].
    rewrite lookup_delete_is_Some. split; [|by eapply H1].
    intros <-. apply Hne. by eapply refs_unique.
  - intros d' p'. rewrite lookup_delete_Some. intros [Hne Hd'].
    rewrite (H2 _ _ Hd'), (refs_delete O o d d' Ho), decide_False by done. done.
  - intros o'. rewrite lookup_delete_is_Some. intros [_ Ho']. by apply H3.
  - intros d'. rewrite lookup_delete_is_Some. intros [_ Hd']. by apply H4.
Qed.

(** the data of a Private changes, its reference count does not *)
Lemma icon_wf_maps_update D O n d p p' :
  icon_wf_maps D O n → D !! d = Some p → ip_count p' = ip_count p →
  icon_wf_maps (<[d := p']> D) O n.
Proof.
  intros [H1 H2 H3 H4] Hd Hc. split; try done.
  - intros o' d' Ho'. rewrite lookup_insert_is_Some.
    destruct (decide (d = d')); [by left|right]. split; [done|]. by eapply H1.
  - intros d' q. rewrite lookup_insert_Some. intros [[<- <-]|[Hne Hd']].
    + rewrite Hc. by apply H2.
    + by apply H2.
  - intros d'. rewrite lookup_insert_is_Some. intros [<-|[_ Hd']].
    + apply H4. eauto.
    + by apply H4.
Qed.

End IconHeap.

Section IconOps.
Context `{AL : AnimLib} `{PF : Platform}.

(** ** What other Icons see *)

Lemma view_maps_insert_o D (O : gmap nat nat) o d o' :
  o' ≠ o → view_maps D (<[o := d]> O) o' = view_maps D O o'.
Proof. intros Hne. unfold view_maps. by rewrite lookup_insert_ne. Qed.

Lemma view_maps_delete_o D (O : gmap nat nat) o o' :
  o' ≠ o → view_maps D (delete o O) o' = view_maps D O o'.
Proof. intros Hne. unfold view_maps. by rewrite lookup_delete_ne. Qed.

Lemma view_maps_insert_d (D : gmap nat IconPrivate) O d p' o :
  (O !! o = Some d → ∃ p, D !! d = Some p ∧ ip_set_count 0 p' = ip_set_count 0 p) →
  view_maps (<[d := p']> D) O o = view_maps D O o.
Proof.
  intros Hd. unfold view_maps. destruct (O !! o) as [d'|] eqn:E; simpl; [|done].
  destruct (decide (d' = d)) as [->|Hne].
  - destruct Hd as (p & Hp & Heq); [done|]. rewrite lookup_insert_eq, Hp. simpl.
    by rewrite Heq.
  - by rewrite lookup_insert_ne.
Qed.

Lemma view_maps_delete_d (D : gmap nat IconPrivate) O d o :
  O !! o ≠ Some d → view_maps (delete d D) O o = view_maps D O o.
Proof.
  intros Hd. unfold view_maps. destruct (O !! o) as [d'|] eqn:E; simpl; [|done].
  rewrite lookup_delete_ne; [done|]. congruence.
Qed.

Lemma view_maps_Some D O o d p :
  O !! o = Some d → D !! d = Some p → view_maps D O o = Some (ip_set_count 0 p).
Proof. intros Ho Hd. unfold view_maps. rewrite Ho. simpl. by rewrite Hd. Qed.

Lemma icon_view_Some s o d p :
  icon_o s !! o = Some d → icon_d s !! d = Some p →
  icon_view s o = Some (ip_set_count 0 p).
Proof. apply view_maps_Some. Qed.

Lemma icon_view_None s o : icon_o s !! o = None → icon_view s o = None.
Proof. intros Ho. unfold icon_view, view_maps. by rewrite Ho. Qed.

Lemma icon_view_live s o :
  icon_wf s → (is_Some (icon_view s o) ↔ is_Some (icon_o s !! o)).
Proof.
  intros Hwf. unfold icon_view, view_maps. split.
  - destruct (icon_o s !! o); [eauto|]. by intros [? [=]].
  - intros [d Ho]. rewrite Ho. simpl.
    destruct (iwf_ptr _ _ _ Hwf _ _ Ho) as [p Hp]. rewrite Hp. simpl. eauto.
Qed.

Lemma icon_wf_ptr s o d :
  icon_wf s → icon_o s !! o = Some d → is_Some (icon_d s !! d).
Proof. intros Hwf. apply (iwf_ptr (icon_d s) (icon_o s) (next s) Hwf). Qed.

Lemma icon_wf_count s d p :
  icon_wf s → icon_d s !! d = Some p → ip_count p = Z.of_nat (refs (icon_o s) d).
Proof. intros Hwf. apply (iwf_count (icon_d s) (icon_o s) (next s) Hwf). Qed.

Lemma icon_wf_fresh_o s o : icon_wf s → (next s ≤ o)%nat → icon_o s !! o = None.
Proof.
  intros Hwf Hn. destruct (icon_o s !! o) eqn:E; [|done].
  pose proof (iwf_fresh_o _ _ _ Hwf o (mk_is_Some _ _ E)). lia.
Qed.

Lemma icon_wf_fresh_d s d : icon_wf s → (next s ≤ d)%nat → icon_d s !! d = None.
Proof.
  intros Hwf Hn. destruct (icon_d s !! d) eqn:E; [|done].
  pose proof (iwf_fresh_d _ _ _ Hwf d (mk_is_Some _ _ E)). lia.
Qed.

Lemma rest_same_refl s : rest_same s s.
Proof. by repeat split. Qed.

Lemma rest_same_trans s1 s2 s3 : rest_same s1 s2 → rest_same s2 s3 → rest_same s1 s3.
Proof. unfold rest_same. intros (?&?&?&?&?&?) (?&?&?&?&?&?). split_and!; congruence. Qed.

Lemma icon_frame_refl X s : icon_frame X s s.
Proof. split; [done|apply rest_same_refl|done]. Qed.

Lemma icon_frame_trans X s1 s2 s3 :
  icon_frame X s1 s2 → icon_frame X s2 s3 → icon_frame X s1 s3.
Proof.
  intros [V1 R1 N1] [V2 R2 N2]. split.
  - intros o Ho. rewrite V2, V1; done.
  - by eapply rest_same_trans.
  - lia.
Qed.

Lemma icon_frame_weaken (X Y : nat → Prop) s s' :
  (∀ o, X o → Y o) → icon_frame X s s' → icon_frame Y s s'.
Proof. intros HXY [V R N]. split; [|done..]. intros o Ho. apply V. naive_solver. Qed.

Lemma icon_wf_not_fresh s o d :
  icon_wf s → (next s ≤ d)%nat → icon_o s !! o ≠ Some d.
Proof.
  intros Hwf Hn Ho. destruct (icon_wf_ptr _ _ _ Hwf Ho) as [p Hp].
  by rewrite (icon_wf_fresh_d _ _ Hwf Hn) in Hp.
Qed.

Lemma icon_wf_unique s this d p o :
  icon_wf s → icon_unique s this d p → icon_o s !! o = Some d → o = this.
Proof.
  intros Hwf (Ho & Hd & Hc) Ho'.
  pose proof (icon_wf_count _ _ _ Hwf Hd) as Hr.
  eapply refs_unique; [|done..]. lia.
Qed.

(** ** Construction, destruction and assignment of Icons *)

Lemma Icon_new_spec s :
  icon_wf s →
  ∃ s', Icon_new s = Some (next s, s')
    ∧ icon_wf s' ∧ icon_frame (eq (next s)) s s'
    ∧ icon_unique s' (next s) (S (next s)) IconPrivate_init
    ∧ next s' = S (S (next s))
    ∧ iconSharedObject s' = iconSharedObject s.
Proof.
  intros Hwf. unfold Icon_new. mexec. eexists. split; [done|].
  split_and!; simpl; try done.
  - unfold icon_wf. simpl.
    apply (icon_wf_maps_new _ _ (next s)); try done; try lia.
    + apply icon_wf_fresh_o; [done|lia].
    + apply icon_wf_fresh_d; [done|lia].
  - split; simpl; [|by unfold rest_same|lia].
    intros o Ho. unfold icon_view. simpl.
    rewrite view_maps_insert_o by done. apply view_maps_insert_d.
    intros Hp. exfalso. eapply (icon_wf_not_fresh s o (S (next s))); [done|lia|done].
  - split_and!; simpl; by rewrite ?lookup_insert_eq.
Qed.

Lemma Icon_new_copy_spec s from d p :
  icon_wf s → icon_o s !! from = Some d → icon_d s !! d = Some p →
  ∃ s', Icon_new_copy from s = Some (next s, s')
    ∧ icon_wf s' ∧ icon_frame (eq (next s)) s s'
    ∧ icon_o s' !! next s = Some d
    ∧ icon_d s' !! d = Some (ip_set_count (ip_count p + 1) p)
    ∧ next s' = S (next s)
    ∧ iconSharedObject s' = iconSharedObject s.
Proof.
  intros Hwf Ho Hd. unfold Icon_new_copy, IconPrivate_ref. mexec.
  eexists. split; [done|].
  pose proof (icon_wf_fresh_o s (next s) Hwf (Nat.le_refl _)) as Hfresh.
  split_and!; simpl; try done; rewrite ?lookup_insert_eq; try done.
  - unfold icon_wf. simpl. eapply icon_wf_maps_ref; try done; lia.
  - split; simpl; [|by unfold rest_same|lia].
    intros o Hne. unfold icon_view. simpl.
    rewrite view_maps_insert_o by done. apply view_maps_insert_d.
    intros _. eauto.
Qed.

Lemma Icon_delete_spec s this d p :
  icon_wf s → icon_o s !! this = Some d → icon_d s !! d = Some p →
  ∃ s', Icon_delete this s = Some (tt, s')
    ∧ icon_wf s' ∧ icon_frame (eq this) s s'
    ∧ icon_o s' !! this = None
    ∧ next s' = next s
    ∧ iconSharedObject s' = iconSharedObject s.
Proof.
  intros Hwf Ho Hd.
  unfold Icon_delete, IconPrivate_deref, IconPrivate_delete, IconPrivate_unloadAnim.
  mexec. destruct (decide (ip_count p - 1 = 0)) as [Hc|Hc].
  - rewrite bool_decide_eq_true_2 by done. mexec.
    eexists. split; [done|].
    split_and!; simpl; try done; rewrite ?lookup_delete_eq; try done.
    + unfold icon_wf. simpl. rewrite !delete_insert_eq.
      by eapply icon_wf_maps_free.
    + split; simpl; [|by unfold rest_same|lia].
      intros o Hne. unfold icon_view. simpl. rewrite !delete_insert_eq.
      rewrite view_maps_delete_o by done. apply view_maps_delete_d.
      intros Ho'. apply Hne. symmetry.
      eapply icon_wf_unique; [done| |done].
      split_and!; [done..|lia].
  - rewrite bool_decide_eq_false_2 by done. mexec.
    eexists. split; [done|].
    split_and!; simpl; try done; rewrite ?lookup_delete_eq; try done.
    + unfold icon_wf. simpl. by eapply icon_wf_maps_deref.
    + split; simpl; [|by unfold rest_same|lia].
      intros o Hne. unfold icon_view. simpl.
      rewrite view_maps_delete_o by done. apply view_maps_insert_d.
      intros _. eauto.
Qed.

Lemma Icon_detach_spec s this d p :
  icon_wf s → icon_o s !! this = Some d → icon_d s !! d = Some p →
  ∃ s' d' p', Icon_detach this s = Some (tt, s')
    ∧ icon_wf s' ∧ icon_frame (eq this) s s'
    ∧ icon_unique s' this d' p'
    ∧ p' = (if decide (ip_count p = 1) then p else IconPrivate_copy d' p)
    ∧ iconSharedObject s' = iconSharedObject s.
Proof.
  intros Hwf Ho Hd. unfold Icon_detach. mexec.
  destruct (decide (ip_count p ≠ 1)) as [Hc|Hc].
  - assert (Hn0 : icon_o s !! next s = None) by (apply icon_wf_fresh_o; [done|lia]).
    assert (Hn1 : icon_d s !! S (next s) = None) by (apply icon_wf_fresh_d; [done|lia]).
    assert (Hn2 : icon_d s !! S (S (next s)) = None) by (apply icon_wf_fresh_d; [done|lia]).
    assert (this ≠ next s) by congruence.
    assert (d ≠ S (next s)) by congruence.
    assert (d ≠ S (S (next s))) by congruence.
    unfold Icon_copy, Icon_new, Icon_assign, Icon_delete, IconPrivate_delete,
      IconPrivate_unloadAnim, IconPrivate_deref, IconPrivate_ref.
    mexec. rewrite bool_decide_eq_false_2 by lia. mexec.
    set (d1 := S (S (next s))).
    eexists _, d1, _. split; [done|].
    assert (Hcopy : ip_set_count (1 + 1 - 1) (ip_set_count (1 + 1) (IconPrivate_copy d1 p))
                    = IconPrivate_copy d1 p) by done.
    rewrite Hcopy.
    split_and!; simpl.
    + unfold icon_wf. simpl.
      eapply (icon_wf_maps_ext _ _ _
                (<[d1 := IconPrivate_copy d1 p]>
                   (<[d := ip_set_count (ip_count p - 1) p]> (icon_d s)))
                (<[this := d1]> (delete this (icon_o s)))); [map_norm..|].
      eapply (icon_wf_maps_new _ _ (next s)); try done.
      * eapply icon_wf_maps_deref; try done. lia.
      * apply lookup_delete_eq.
      * by rewrite lookup_insert_ne.
      * pose proof (iwf_fresh_o _ _ _ Hwf this (mk_is_Some _ _ Ho)). lia.
      * unfold d1. lia.
      * lia.
    + split; simpl; [|by unfold rest_same|lia].
      intros o Hne. unfold icon_view. simpl.
      trans (view_maps (<[d1 := IconPrivate_copy d1 p]>
                   (<[d := ip_set_count (ip_count p - 1) p]> (icon_d s)))
                  (<[this := d1]> (icon_o s)) o).
      { f_equal; map_norm. }
      rewrite view_maps_insert_o by done.
      rewrite view_maps_insert_d.
      * rewrite view_maps_insert_d; [done|]. intros _. eauto.
      * intros Ho'. exfalso.
        eapply (icon_wf_not_fresh s o d1); [done|unfold d1; lia|done].
    + unfold icon_unique. simpl. split_and!.
      * rewrite lookup_delete_ne, lookup_insert_eq by done. done.
      * by rewrite lookup_insert_eq.
      * done.
    + by rewrite decide_False.
    + done.
  - assert (ip_count p = 1) as Hc1 by (destruct (decide (ip_count p = 1)); [done|contradiction]).
    exists s, d, p. split; [done|].
    split_and!; [done|apply icon_frame_refl|by unfold icon_unique
                |by rewrite decide_True|done].
Qed.

End IconOps.

Section IconMutators.
Context `{AL : AnimLib} `{PF : Platform}.

(** ** Changes of a Private in place *)

Lemma inplace_wf s s' d p p' :
  icon_wf s → icon_d s !! d = Some p → ip_count p' = ip_count p →
  inplace s s' d p' → icon_wf s'.
Proof.
  intros Hwf Hd Hc (Eo & Ed & _ & En). unfold icon_wf. rewrite Eo, Ed, En.
  by eapply icon_wf_maps_update.
Qed.

Lemma inplace_lookup s s' d p' : inplace s s' d p' → icon_d s' !! d = Some p'.
Proof. intros (_ & -> & _). apply lookup_insert_eq. Qed.

Lemma inplace_frame s s' this d p p' :
  icon_wf s → icon_unique s this d p → inplace s s' d p' →
  icon_frame (eq this) s s'.
Proof.
  intros Hwf Hu (Eo & Ed & Hr & En). split; [|done|lia].
  intros o Hne. unfold icon_view. rewrite Eo, Ed.
  apply view_maps_insert_d. intros Ho. exfalso. apply Hne. symmetry.
  by eapply icon_wf_unique.
Qed.

Lemma inplace_trans s s1 s2 d p1 p2 :
  inplace s s1 d p1 → inplace s1 s2 d p2 → inplace s s2 d p2.
Proof.
  intros (Eo & Ed & Hr & En) (Eo' & Ed' & Hr' & En'). split_and!.
  - congruence.
  - rewrite Ed', Ed. apply insert_insert_eq.
  - by eapply rest_same_trans.
  - congruence.
Qed.

Lemma inplace_refl s d p : icon_d s !! d = Some p → inplace s s d p.
Proof.
  intros Hd. split_and!; try done; try apply rest_same_refl.
  by rewrite insert_id.
Qed.

Lemma Icon_d_update_inplace s this d p f :
  icon_o s !! this = Some d → icon_d s !! d = Some p →
  ∃ s', Icon_d_update this f s = Some (tt, s') ∧ inplace s s' d (f p).
Proof.
  intros Ho Hd. rewrite (Icon_d_update_run _ _ _ _ _ Ho Hd).
  eexists. split; [done|]. split_and!; try done; by unfold rest_same.
Qed.

Lemma IconPrivate_unloadAnim_inplace s d p :
  icon_d s !! d = Some p →
  ∃ s', IconPrivate_unloadAnim d s = Some (tt, s') ∧ inplace s s' d (ip_set_anim None p).
Proof.
  intros Hd. unfold IconPrivate_unloadAnim. rewrite (IconPrivate_update_run _ _ _ _ Hd).
  eexists. split; [done|]. split_and!; try done; by unfold rest_same.
Qed.

Lemma Icon_activated_inplace s this d p playSound :
  icon_o s !! this = Some d → icon_d s !! d = Some p →
  ip_activatedCount p < INT_MAX →
  ∃ s', Icon_activated this playSound s = Some (tt, s')
    ∧ inplace s s' d (ip_set_anim (anim_unpause <$> ip_anim p)
                        (ip_set_activatedCount (ip_activatedCount p + 1) p)).
Proof.
  intros Ho Hd Hc.
  destruct (Icon_activated_run s this d p playSound Ho Hd Hc) as (s' & Hrun & ? & ? & ? & ?).
  exists s'. by split.
Qed.


(** ** Following an operation on an Icon *)

Lemma icon_at_start (K : Prop) s this d p :
  icon_wf s → icon_o s !! this = Some d → icon_d s !! d = Some p →
  (K → ip_count p = 1) → icon_at K this s s d p.
Proof.
  intros Hwf Ho Hd HK. split; [done|done|done| |apply rest_same_refl|done].
  intros HK'. split; [by apply HK|apply icon_frame_refl].
Qed.

Lemma icon_at_weaken (K K' : Prop) this s0 s d p :
  (K' → K) → icon_at K this s0 s d p → icon_at K' this s0 s d p.
Proof.
  intros HK [H1 H2 H3 H4 H5 H6]. split; [done|done|done| |done|done].
  naive_solver.
Qed.

Lemma icon_at_inplace K this s0 s s' d p p' :
  icon_at K this s0 s d p → inplace s s' d p' → ip_count p' = ip_count p →
  icon_at K this s0 s' d p'.
Proof.
  intros [Hwf Ho Hd Hk Hr Hn] Hin Hc. split.
  - by eapply inplace_wf.
  - destruct Hin as (-> & _). done.
  - by eapply inplace_lookup.
  - intros HK. destruct (Hk HK) as [Hc1 Hf]. split; [congruence|].
    eapply icon_frame_trans; [done|].
    eapply inplace_frame; [done| |done]. by split_and!.
  - destruct Hin as (_ & _ & Hr' & _). by eapply rest_same_trans.
  - destruct Hin as (_ & _ & _ & ->). done.
Qed.

Lemma icon_at_detach K this s0 s d p :
  icon_at K this s0 s d p →
  ∃ s' d' p', Icon_detach this s = Some (tt, s')
    ∧ icon_at True this s s' d' p'
    ∧ icon_at K this s0 s' d' p'
    ∧ p' = (if decide (ip_count p = 1) then p else IconPrivate_copy d' p).
Proof.
  intros [Hwf Ho Hd Hk Hr Hn].
  destruct (Icon_detach_spec s this d p Hwf Ho Hd)
    as (s' & d' & p' & Hrun & Hwf' & Hf & (Ho' & Hd' & Hc') & Hp' & Hs).
  exists s', d', p'. split; [done|]. split_and!; [| |done].
  - split; [done|done|done|done|apply Hf|apply Hf].
  - split; [done|done|done| | |].
    + intros HK. destruct (Hk HK) as [Hc1 Hf0]. split; [done|].
      by eapply icon_frame_trans.
    + eapply rest_same_trans; [done|apply Hf].
    + pose proof (ifr_next _ _ _ Hf). lia.
Qed.

Lemma icon_at_compose (K K' : Prop) this s0 s s' d p d' p' :
  icon_at K this s0 s d p → icon_at K' this s s' d' p' →
  (ip_count p = 1 → K') → icon_at K this s0 s' d' p'.
Proof.
  intros [Hwf Ho Hd Hk Hr Hn] [Hwf' Ho' Hd' Hk' Hr' Hn'] HK.
  split; [done|done|done| | |lia].
  - intros HK0. destruct (Hk HK0) as [Hc Hf].
    destruct (Hk' (HK Hc)) as [Hc' Hf']. split; [done|].
    by eapply icon_frame_trans.
  - by eapply rest_same_trans.
Qed.

Lemma icon_at_detach' this s d p :
  icon_wf s → icon_o s !! this = Some d → icon_d s !! d = Some p →
  ∃ s' d' p', Icon_detach this s = Some (tt, s')
    ∧ icon_at True this s s' d' p'
    ∧ p' = (if decide (ip_count p = 1) then p else IconPrivate_copy d' p).
Proof.
  intros Hwf Ho Hd.
  destruct (icon_at_detach (ip_count p = 1) this s s d p)
    as (s' & d' & p' & Hrun & Hat & _ & Hp); [by apply icon_at_start|].
  by exists s', d', p'.
Qed.

(** ** setImpix and setAnim *)

Lemma Icon_setImpix_at this s d p impix doDetach :
  icon_wf s → icon_o s !! this = Some d → icon_d s !! d = Some p →
  ∃ s' d' p0, Icon_setImpix this impix doDetach s = Some (tt, s')
    ∧ icon_at (doDetach = true ∨ ip_count p = 1) this s s' d' (ip_set_impix impix p0)
    ∧ (p0 = p ∨ p0 = IconPrivate_copy d' p).
Proof.
  intros Hwf Ho Hd. unfold Icon_setImpix. destruct doDetach; simpl.
  - destruct (icon_at_detach' this s d p Hwf Ho Hd) as (s1 & d1 & p1 & Hrun & Hat1 & Hp1).
    rewrite (bind_run _ _ _ _ _ Hrun).
    destruct (Icon_d_update_inplace s1 this d1 p1 (ip_set_impix impix)
                (iat_o _ _ _ _ _ _ Hat1) (iat_d _ _ _ _ _ _ Hat1)) as (s2 & Hrun2 & Hin).
    exists s2, d1, p1. split; [done|]. split.
    + eapply icon_at_weaken; [|by eapply icon_at_inplace]. done.
    + rewrite Hp1. case_decide; eauto.
  - mrun.
    destruct (Icon_d_update_inplace s this d p (ip_set_impix impix) Ho Hd)
      as (s2 & Hrun2 & Hin).
    exists s2, d, p. split; [done|]. split; [|by left].
    eapply (icon_at_inplace _ _ _ s s2 d p); [|done..].
    apply icon_at_start; [done..|]. by intros [|].
Qed.

Lemma Icon_setAnim_at this s d p anim doDetach :
  icon_wf s → icon_o s !! this = Some d → icon_d s !! d = Some p →
  ∃ s' d' p', Icon_setAnim this anim doDetach s = Some (tt, s')
    ∧ icon_at (doDetach = true ∨ ip_count p = 1) this s s' d' p'
    ∧ (is_Some (ip_anim p') ↔ 2 ≤ anim_numFrames anim)
    ∧ ip_impix p' = (if decide (0 < anim_numFrames anim)
                     then anim_frame anim 0 else ip_impix p).
Proof.
  intros Hwf Ho Hd. unfold Icon_setAnim.
  set (K := doDetach = true ∨ ip_count p = 1).
  (* the optional detach *)
  assert (∃ s1 d1 p1, when doDetach (Icon_detach this) s = Some (tt, s1)
            ∧ icon_at K this s s1 d1 p1
            ∧ (p1 = p ∨ p1 = IconPrivate_copy d1 p))
    as (s1 & d1 & p1 & Hrun1 & Hat1 & Hp1).
  { destruct doDetach; simpl.
    - destruct (icon_at_detach' this s d p Hwf Ho Hd) as (s1 & d1 & p1 & Hrun & Hat1 & Hp1).
      exists s1, d1, p1. split; [done|]. split.
      + eapply icon_at_weaken; [|done]. done.
      + rewrite Hp1. case_decide; eauto.
    - exists s, d, p. split; [done|]. split; [|by left].
      apply icon_at_start; [done..|]. by intros [|]. }
  rewrite (bind_run _ _ _ _ _ Hrun1).
  rewrite (bind_run _ _ _ _ _ (icon_dptr_run _ _ _ (iat_o _ _ _ _ _ _ Hat1))).
  (* unloadAnim and the new animation *)
  destruct (IconPrivate_unloadAnim_inplace s1 d1 p1 (iat_d _ _ _ _ _ _ Hat1))
    as (s2 & Hrun2 & Hin2).
  rewrite (bind_run _ _ _ _ _ Hrun2).
  pose proof (icon_at_inplace _ _ _ _ _ _ _ _ Hat1 Hin2 eq_refl) as Hat2.
  destruct (Icon_d_update_inplace s2 this d1 _ (ip_set_anim (Some anim))
              (iat_o _ _ _ _ _ _ Hat2) (iat_d _ _ _ _ _ _ Hat2)) as (s3 & Hrun3 & Hin3).
  rewrite (bind_run _ _ _ _ _ Hrun3).
  pose proof (icon_at_inplace _ _ _ _ _ _ _ _ Hat2 Hin3 eq_refl) as Hat3.
  set (p3 := ip_set_anim (Some anim) (ip_set_anim None p1)) in *.
  rewrite (bind_run _ _ _ _ _ (Icon_d_run _ _ _ _ (iat_o _ _ _ _ _ _ Hat3) (iat_d _ _ _ _ _ _ Hat3))).
  simpl. rewrite (bind_run _ _ s3 anim s3) by done.
  (* the first frame *)
  assert (∃ s4 d4 p4, when (bool_decide (anim_numFrames anim > 0))
              (Icon_setImpix this (anim_frame anim 0) setImpix_doDetach_default) s3
              = Some (tt, s4)
            ∧ icon_at K this s s4 d4 p4
            ∧ ip_anim p4 = Some anim
            ∧ ip_impix p4 = (if decide (0 < anim_numFrames anim)
                             then anim_frame anim 0 else ip_impix p))
    as (s4 & d4 & p4 & Hrun4 & Hat4 & Ha4 & Hi4).
  { destruct (decide (anim_numFrames anim > 0)) as [Hnf|Hnf];
      [rewrite bool_decide_eq_true_2 by done|rewrite bool_decide_eq_false_2 by done];
      simpl.
    - destruct (Icon_setImpix_at this s3 d1 p3 (anim_frame anim 0) setImpix_doDetach_default
                  (iat_wf _ _ _ _ _ _ Hat3) (iat_o _ _ _ _ _ _ Hat3) (iat_d _ _ _ _ _ _ Hat3))
        as (s4 & d4 & p0 & Hrun4 & Hat4 & Hp0).
      exists s4, d4, (ip_set_impix (anim_frame anim 0) p0). split; [done|]. split_and!.
      + eapply icon_at_compose; [done..|]. by right.
      + by destruct Hp0 as [-> | ->].
      + rewrite decide_True by lia. done.
    - exists s3, d1, p3. split; [done|]. split_and!; [done|done|].
      rewrite decide_False by lia. by destruct Hp1 as [-> | ->]. }
  rewrite (bind_run _ _ _ _ _ Hrun4).
  rewrite (bind_run _ _ _ _ _ (Icon_d_run _ _ _ _ (iat_o _ _ _ _ _ _ Hat4) (iat_d _ _ _ _ _ _ Hat4))).
  rewrite Ha4. simpl. rewrite (bind_run _ _ s4 anim s4) by done.
  (* fewer than two frames: no animation *)
  assert (∃ s5 p5, when (bool_decide (anim_numFrames anim < 2))
              (Icon_d_update this (ip_set_anim None)) s4 = Some (tt, s5)
            ∧ icon_at K this s s5 d4 p5
            ∧ ip_anim p5 = (if decide (2 ≤ anim_numFrames anim) then Some anim else None)
            ∧ ip_impix p5 = ip_impix p4)
    as (s5 & p5 & Hrun5 & Hat5 & Ha5 & Hi5).
  { destruct (decide (anim_numFrames anim < 2)) as [Hnf|Hnf];
      [rewrite bool_decide_eq_true_2 by done|rewrite bool_decide_eq_false_2 by done];
      simpl.
    - destruct (Icon_d_update_inplace s4 this d4 p4 (ip_set_anim None)
                  (iat_o _ _ _ _ _ _ Hat4) (iat_d _ _ _ _ _ _ Hat4)) as (s5 & Hrun5 & Hin5).
      exists s5, (ip_set_anim None p4). split; [exact Hrun5|]. split_and!.
      + by eapply icon_at_inplace.
      + rewrite decide_False by lia. done.
      + done.
    - exists s4, p4. split; [done|]. split_and!; [done| |done].
      rewrite decide_True by lia. done. }
  rewrite (bind_run _ _ _ _ _ Hrun5).
  rewrite (bind_run _ _ _ _ _ (Icon_d_run _ _ _ _ (iat_o _ _ _ _ _ _ Hat5) (iat_d _ _ _ _ _ _ Hat5))).
  (* an activated icon restarts its animation *)
  destruct (bool_decide (is_Some (ip_anim p5)) && bool_decide (ip_activatedCount p5 > 0)) eqn:Eact;
    simpl.
  - destruct (Icon_d_update_inplace s5 this d4 p5 (ip_set_activatedCount 0)
                (iat_o _ _ _ _ _ _ Hat5) (iat_d _ _ _ _ _ _ Hat5)) as (s6 & Hrun6 & Hin6).
    rewrite (bind_run _ _ _ _ _ Hrun6).
    pose proof (icon_at_inplace _ _ _ _ _ _ _ _ Hat5 Hin6 eq_refl) as Hat6.
    destruct (Icon_activated_inplace s6 this d4 _ false
                (iat_o _ _ _ _ _ _ Hat6) (iat_d _ _ _ _ _ _ Hat6)) as (s7 & Hrun7 & Hin7);
      [by unfold INT_MAX|].
    pose proof (icon_at_inplace _ _ _ _ _ _ _ _ Hat6 Hin7 eq_refl) as Hat7.
    eexists s7, d4, _. split; [done|]. split; [done|]. simpl. split.
    + rewrite Ha5. case_decide; simpl; split; intros Hx;
        first [done | lia | by eauto | by destruct Hx as [? [=]]].
    + by rewrite Hi5.
  - exists s5, d4, p5. split; [done|]. split; [done|]. split.
    + rewrite Ha5. case_decide; simpl; split; intros Hx;
        first [done | lia | by eauto | by destruct Hx as [? [=]]].
    + by rewrite Hi5.
Qed.


(** ** The other mutators of Icon *)

Lemma Icon_detach_update_at this s d p f :
  icon_wf s → icon_o s !! this = Some d → icon_d s !! d = Some p →
  (∀ q, ip_count (f q) = ip_count q) →
  ∃ s' d' p0, (Icon_detach this;; Icon_d_update this f) s = Some (tt, s')
    ∧ icon_at True this s s' d' (f p0)
    ∧ (p0 = p ∨ p0 = IconPrivate_copy d' p).
Proof.
  intros Hwf Ho Hd Hf.
  destruct (icon_at_detach' this s d p Hwf Ho Hd) as (s1 & d1 & p1 & Hrun & Hat1 & Hp1).
  rewrite (bind_run _ _ _ _ _ Hrun).
  destruct (Icon_d_update_inplace s1 this d1 p1 f
              (iat_o _ _ _ _ _ _ Hat1) (iat_d _ _ _ _ _ _ Hat1)) as (s2 & Hrun2 & Hin).
  exists s2, d1, p1. split; [done|]. split.
  - by eapply icon_at_inplace.
  - rewrite Hp1. case_decide; eauto.
Qed.

Lemma Icon_setName_at this s d p name :
  icon_wf s → icon_o s !! this = Some d → icon_d s !! d = Some p →
  ∃ s' d' p', Icon_setName this name s = Some (tt, s')
    ∧ icon_at True this s s' d' p' ∧ ip_name p' = name.
Proof.
  intros Hwf Ho Hd.
  destruct (Icon_detach_update_at this s d p (ip_set_name name) Hwf Ho Hd)
    as (s' & d' & p0 & Hrun & Hat & _); [done|].
  by exists s', d', (ip_set_name name p0).
Qed.

Lemma Icon_setRegExp_at this s d p r :
  icon_wf s → icon_o s !! this = Some d → icon_d s !! d = Some p →
  ∃ s' d' p', Icon_setRegExp this r s = Some (tt, s') ∧ icon_at True this s s' d' p'.
Proof.
  intros Hwf Ho Hd.
  destruct (Icon_detach_update_at this s d p (ip_set_regExp r) Hwf Ho Hd)
    as (s' & d' & p0 & Hrun & Hat & _); [done|].
  by exists s', d', (ip_set_regExp r p0).
Qed.

Lemma Icon_setText_at this s d p t :
  icon_wf s → icon_o s !! this = Some d → icon_d s !! d = Some p →
  ∃ s' d' p', Icon_setText this t s = Some (tt, s') ∧ icon_at True this s s' d' p'.
Proof.
  intros Hwf Ho Hd.
  destruct (Icon_detach_update_at this s d p (ip_set_text t) Hwf Ho Hd)
    as (s' & d' & p0 & Hrun & Hat & _); [done|].
  by exists s', d', (ip_set_text t p0).
Qed.

Lemma Icon_setSound_at this s d p x :
  icon_wf s → icon_o s !! this = Some d → icon_d s !! d = Some p →
  ∃ s' d' p', Icon_setSound this x s = Some (tt, s') ∧ icon_at True this s s' d' p'.
Proof.
  intros Hwf Ho Hd.
  destruct (Icon_detach_update_at this s d p (ip_set_sound x) Hwf Ho Hd)
    as (s' & d' & p0 & Hrun & Hat & _); [done|].
  by exists s', d', (ip_set_sound x p0).
Qed.

Lemma Icon_blockSignals_at this s d p b :
  icon_wf s → icon_o s !! this = Some d → icon_d s !! d = Some p →
  ∃ r s', Icon_blockSignals this b s = Some (r, s')
    ∧ icon_at (ip_count p = 1) this s s' d (ip_set_signalsBlocked b p).
Proof.
  intros Hwf Ho Hd. unfold Icon_blockSignals.
  rewrite (bind_run _ _ _ _ _ (Icon_d_run _ _ _ _ Ho Hd)).
  destruct (Icon_d_update_inplace s this d p (ip_set_signalsBlocked b) Ho Hd)
    as (s2 & Hrun2 & Hin).
  rewrite (bind_run _ _ _ _ _ Hrun2).
  eexists _, s2. split; [done|].
  eapply (icon_at_inplace _ _ _ s s2 d p); [|done..].
  by apply icon_at_start.
Qed.



Lemma Icon_loadFromData_at this s d p ba isAnim :
  icon_wf s → icon_o s !! this = Some d → icon_d s !! d = Some p →
  ∃ r s' d' p', Icon_loadFromData this ba isAnim s = Some (r, s')
    ∧ icon_at True this s s' d' p'
    ∧ r = (if isAnim && bool_decide (anim_numFrames (anim_fromData ba) > 0) then true
           else bool_decide (is_Some (image_loadFromData ba))).
Proof.
  intros Hwf Ho Hd. unfold Icon_loadFromData.
  destruct (icon_at_detach' this s d p Hwf Ho Hd) as (s1 & d1 & p1 & Hrun & Hat1 & Hp1).
  rewrite (bind_run _ _ _ _ _ Hrun).
  assert (∃ s2 d2 p2,
            (if isAnim return M bool then
               Icon_setAnim this (anim_fromData ba) setAnim_doDetach_default;;
               mret (bool_decide (anim_numFrames (anim_fromData ba) > 0))
             else mret false) s1
            = Some (isAnim && bool_decide (anim_numFrames (anim_fromData ba) > 0), s2)
            ∧ icon_at True this s s2 d2 p2)
    as (s2 & d2 & p2 & Hrun2 & Hat2).
  { destruct isAnim; simpl.
    - destruct (Icon_setAnim_at this s1 d1 p1 (anim_fromData ba) setAnim_doDetach_default
                  (iat_wf _ _ _ _ _ _ Hat1) (iat_o _ _ _ _ _ _ Hat1) (iat_d _ _ _ _ _ _ Hat1))
        as (s2 & d2 & p2 & Hrun2 & Hat2 & _).
      exists s2, d2, p2. rewrite (bind_run _ _ _ _ _ Hrun2). split; [done|].
      eapply icon_at_compose; [done..|]. by right.
    - exists s1, d1, p1. by split. }
  rewrite (bind_run _ _ _ _ _ Hrun2).
  destruct (isAnim && bool_decide (anim_numFrames (anim_fromData ba) > 0)); simpl.
  - exists true, s2, d2, p2. by split.
  - rewrite (bind_run _ _ _ _ _ (Icon_d_run _ _ _ _ (iat_o _ _ _ _ _ _ Hat2) (iat_d _ _ _ _ _ _ Hat2))).
    destruct (Icon_d_update_inplace s2 this d2 p2
                (ip_set_impix (Impix_loadFromData (ip_impix p2) ba).2)
                (iat_o _ _ _ _ _ _ Hat2) (iat_d _ _ _ _ _ _ Hat2)) as (s3 & Hrun3 & Hin3).
    rewrite (bind_run _ _ _ _ _ Hrun3).
    eexists _, s3, d2, _. split; [done|]. split.
    + by eapply icon_at_inplace.
    + unfold Impix_loadFromData. by destruct (image_loadFromData ba).
Qed.

End IconMutators.

Section PrivateOps.
Context `{AL : AnimLib} `{PF : Platform}.

(** ** Reading and writing an Iconset::Private *)

Lemma IconsetPrivate_get_run s d p :
  iset_d s !! d = Some p → IconsetPrivate_get d s = Some (p, s).
Proof. intros E. unfold IconsetPrivate_get. mrun. by rewrite E. Qed.

Lemma IconsetPrivate_update_run s d p f :
  iset_d s !! d = Some p →
  IconsetPrivate_update d f s = Some (tt, set_iset_d <[d := f p]> s).
Proof.
  intros E. unfold IconsetPrivate_update.
  by rewrite (bind_run _ _ _ _ _ (IconsetPrivate_get_run _ _ _ E)).
Qed.

Lemma iconset_dptr_run s this d :
  iset_o s !! this = Some d → iconset_dptr this s = Some (d, s).
Proof. intros E. unfold iconset_dptr. mrun. by rewrite E. Qed.

Lemma Iconset_d_run s this d p :
  iset_o s !! this = Some d → iset_d s !! d = Some p →
  Iconset_d this s = Some (p, s).
Proof.
  intros E1 E2. unfold Iconset_d.
  rewrite (bind_run _ _ _ _ _ (iconset_dptr_run _ _ _ E1)).
  by apply IconsetPrivate_get_run.
Qed.

Lemma Iconset_d_update_run s this d p f :
  iset_o s !! this = Some d → iset_d s !! d = Some p →
  Iconset_d_update this f s = Some (tt, set_iset_d <[d := f p]> s).
Proof.
  intros E1 E2. unfold Iconset_d_update.
  rewrite (bind_run _ _ _ _ _ (iconset_dptr_run _ _ _ E1)).
  by apply IconsetPrivate_update_run.
Qed.

(** ** Frames of member functions *)

Lemma priv_frame_refl N d s : priv_frame N d s s.
Proof. split; try done. intros x Hx. by left. Qed.

Lemma priv_frame_trans N d s1 s2 s3 :
  priv_frame N d s1 s2 → priv_frame N d s2 s3 → priv_frame N d s1 s3.
Proof.
  intros [A1 A2 A3 A4 A5 A6 A7] [B1 B2 B3 B4 B5 B6 B7].
  split; try congruence.
  - intros d' Hd'. rewrite B4, A4; done.
  - intros x Hx Hno. rewrite B5, A5; try done.
    intros Ho. destruct (A6 x Ho) as [|]; [done|lia].
  - intros x Hx. destruct (B6 x Hx) as [Hx'|]; [|by right]. by apply A6.
  - lia.
Qed.

Lemma priv_frame_of_icon_frame N d (X : nat → Prop) s s' :
  icon_frame X s s' →
  (∀ x, X x → (N ≤ x)%nat ∨ owned_by s d x) →
  priv_frame N d s s'.
Proof.
  intros [V (E1 & E2 & E3 & E4 & E5 & E6) Hn] HX. split; try done.
  - intros d' _. by rewrite E1.
  - intros x Hx Hno. apply V. intros HXx. destruct (HX x HXx); [lia|done].
  - intros x (p & Hp & Hin). left. exists p. by rewrite <- E1.
Qed.

Lemma owned_by_same s s' d x :
  iset_d s' !! d = iset_d s !! d → owned_by s' d x ↔ owned_by s d x.
Proof. intros E. unfold owned_by. by rewrite E. Qed.

Lemma external_same s s' x :
  iset_d s' = iset_d s → external s' x ↔ external s x.
Proof. intros E. unfold external, owned_by. by rewrite E. Qed.

Lemma heap_ok_live s d p x :
  heap_ok s → iset_d s !! d = Some p → x ∈ sp_list p →
  ∃ dx px, icon_o s !! x = Some dx ∧ icon_d s !! dx = Some px.
Proof.
  intros Hok Hd Hx.
  destruct (pok_live _ _ (hok_private _ Hok _ _ Hd) x Hx) as [dx Hdx].
  destruct (icon_wf_ptr _ _ _ (hok_icons _ Hok) Hdx) as [px Hpx]. eauto.
Qed.

Lemma heap_ok_owned_lt s d x : heap_ok s → owned_by s d x → (x < next s)%nat.
Proof.
  intros Hok (p & Hp & Hx).
  destruct (heap_ok_live _ _ _ _ Hok Hp Hx) as (dx & px & Hdx & _).
  apply (iwf_fresh_o _ _ _ (hok_icons _ Hok)). eauto.
Qed.

Lemma heap_ok_fresh_external s x : heap_ok s → (next s ≤ x)%nat → external s x.
Proof.
  intros Hok Hx d Ho. pose proof (heap_ok_owned_lt _ _ _ Hok Ho). lia.
Qed.

(** An operation on the Icon [i] alone keeps the heaps well formed when
    [i] is still there afterwards or was external. *)
Lemma heap_ok_icon_step i s s' :
  heap_ok s → icon_wf s' → icon_frame (eq i) s s' →
  is_Some (icon_o s' !! i) ∨ external s i →
  heap_ok s'.
Proof.
  intros [Hi Hp Hdis Hfr] Hwf' [V (E1 & E2 & E3 & E4 & E5 & E6) Hn] Hlive.
  split; [done| | |].
  - intros d p. rewrite E1. intros Hd. destruct (Hp d p Hd) as [P1 P2 P3 P4 P5].
    split; try done.
    intros x Hx. destruct (decide (i = x)) as [<-|Hne].
    + destruct Hlive as [|Hext]; [done|]. exfalso. apply (Hext d). by exists p.
    + apply icon_view_live; [done|]. rewrite V by done.
      apply icon_view_live; [done|]. by apply P2.
  - intros d1 d2 x. rewrite !(owned_by_same s s') by by rewrite E1. apply Hdis.
  - intros d. rewrite E1. intros Hd. specialize (Hfr d Hd). lia.
Qed.

(** The state outside the heaps does not matter to them. *)
Lemma heap_ok_same_heaps s s' :
  icon_d s' = icon_d s → icon_o s' = icon_o s → iset_d s' = iset_d s →
  next s' = next s → heap_ok s → heap_ok s'.
Proof.
  intros E1 E2 E3 E4 [Hi Hp Hdis Hfr]. split.
  - unfold icon_wf. by rewrite E1, E2, E4.
  - intros d p. rewrite E3. intros Hd. destruct (Hp d p Hd) as [P1 P2 P3 P4 P5].
    split; try done. intros x Hx. rewrite E2. by apply P2.
  - intros d1 d2 x. rewrite !(owned_by_same s s') by by rewrite E3. apply Hdis.
  - intros d. rewrite E3, E4. apply Hfr.
Qed.

Lemma priv_frame_same_heaps N d s s' :
  icon_d s' = icon_d s → icon_o s' = icon_o s → iset_d s' = iset_d s →
  iset_o s' = iset_o s → iconsets s' = iconsets s →
  emptyPixmap s' = emptyPixmap s → next s' = next s →
  priv_frame N d s s'.
Proof.
  intros E1 E2 E3 E4 E5 E6 E7. split; try done.
  - intros d' _. by rewrite E3.
  - intros x _ _. unfold icon_view. by rewrite E1, E2.
  - intros x Hx. left. by rewrite <- (owned_by_same s s') by by rewrite E3.
  - lia.
Qed.

Lemma private_ok_same_icons s s' p :
  (∀ x, is_Some (icon_o s !! x) → is_Some (icon_o s' !! x)) →
  private_ok s p → private_ok s' p.
Proof. intros E [P1 P2 P3 P4 P5]. split; try done. intros x Hx. by apply E, P2. Qed.

(** Replacing the Private at [d] by one whose list holds only Icons of
    the old list or external Icons. *)
Lemma heap_ok_update_private s d p p' :
  heap_ok s → iset_d s !! d = Some p → private_ok s p' →
  (∀ x, x ∈ sp_list p' → x ∈ sp_list p ∨ external s x) →
  heap_ok (set_iset_d <[d := p']> s).
Proof.
  intros [Hi Hp Hdis Hfr] Hd Hp' Hsub.
  assert (Hown : ∀ d' x, owned_by (set_iset_d <[d := p']> s) d' x →
            (d' = d ∧ x ∈ sp_list p') ∨ (d' ≠ d ∧ owned_by s d' x)).
  { intros d' x (q & Hq & Hx). simpl in Hq.
    apply lookup_insert_Some in Hq as [[<- <-]|[Hne Hq]]; [by left|].
    right. split; [done|]. by exists q. }
  split; simpl.
  - done.
  - intros d' q. rewrite lookup_insert_Some. intros [[<- <-]|[Hne Hq]].
    + by eapply private_ok_same_icons; [|done].
    + eapply private_ok_same_icons; [|by eapply Hp]. done.
  - intros d1 d2 x H1 H2.
    destruct (Hown _ _ H1) as [[-> Hx1]|[Hne1 Ho1]];
      destruct (Hown _ _ H2) as [[-> Hx2]|[Hne2 Ho2]]; try done.
    + destruct (Hsub x Hx1) as [Hx|Hext]; [|by destruct (Hext d2)].
      symmetry. eapply Hdis; [done|]. by exists p.
    + destruct (Hsub x Hx2) as [Hx|Hext]; [|by destruct (Hext d1)].
      eapply Hdis; [done|]. by exists p.
    + by eapply Hdis.
  - intros d'. rewrite lookup_insert_is_Some. intros [<-|[_ Hq]]; [|by apply Hfr].
    apply Hfr. eauto.
Qed.

Lemma priv_frame_update_private N s d p p' :
  iset_d s !! d = Some p →
  (∀ x, x ∈ sp_list p' → x ∈ sp_list p ∨ (N ≤ x)%nat) →
  priv_frame N d s (set_iset_d <[d := p']> s).
Proof.
  intros Hd Hsub. split; simpl; try done.
  - intros d' Hne. by rewrite lookup_insert_ne.
  - intros x (q & Hq & Hx). simpl in Hq. rewrite lookup_insert_eq in Hq.
    injection Hq as <-. destruct (Hsub x Hx) as [|]; [left|by right]. by exists p.
Qed.

Lemma filter_all {A} (P : A → Prop) `{∀ x, Decision (P x)} (l : list A) :
  (∀ x, x ∈ l → P x) → filter P l = l.
Proof.
  induction l as [|x l IH]; intros Hl; [done|].
  rewrite filter_cons_True by (apply Hl; set_solver).
  f_equal. apply IH. intros y Hy. apply Hl. set_solver.
Qed.

Lemma private_ok_remove s p n a :
  private_ok s p → sp_dict p !! n = Some (Some a) →
  private_ok s (sp_set_list (filter (λ x, x ≠ a) (sp_list p))
                  (sp_set_dict (delete n (sp_dict p)) p)).
Proof.
  intros [P1 P2 P3 P4 P5] Hn. split; simpl.
  - by apply NoDup_filter.
  - intros x. rewrite list_elem_of_filter. intros [_ Hx]. by apply P2.
  - intros m b. rewrite lookup_delete_Some. intros [Hne Hm].
    rewrite list_elem_of_filter. split; [|by eapply P3].
    intros ->. apply Hne. by eapply P5.
  - intros b. rewrite list_elem_of_filter. intros [Hne Hb].
    destruct (P4 b Hb) as [m Hm]. exists m. rewrite lookup_delete_Some.
    split; [|done]. intros <-. congruence.
  - intros m1 m2 b. rewrite !lookup_delete_Some. intros [_ H1] [_ H2].
    by eapply P5.
Qed.

Lemma private_ok_remove_null s p n :
  private_ok s p → sp_dict p !! n = Some None →
  private_ok s (sp_set_dict (delete n (sp_dict p)) p).
Proof.
  intros [P1 P2 P3 P4 P5] Hn. split; simpl; try done.
  - intros m b. rewrite lookup_delete_Some. intros [Hne Hm]. by eapply P3.
  - intros b Hb. destruct (P4 b Hb) as [m Hm]. exists m.
    rewrite lookup_delete_Some. split; [|done]. intros <-. congruence.
  - intros m1 m2 b. rewrite !lookup_delete_Some. intros [_ H1] [_ H2].
    by eapply P5.
Qed.

Lemma priv_at_refl N d s p :
  heap_ok s → iset_d s !! d = Some p → priv_at N d s p s p.
Proof. intros Hok Hd. split; [done|done|done|apply priv_frame_refl]. Qed.

Lemma priv_at_trans N d s0 p0 s p s' p' :
  priv_at N d s0 p0 s p → priv_at N d s p s' p' → priv_at N d s0 p0 s' p'.
Proof.
  intros [A1 A2 A3 A4] [B1 B2 B3 B4]. split; [done|done|congruence|].
  by eapply priv_frame_trans.
Qed.

Lemma priv_at_step N d s0 p0 s p s' p' :
  priv_at N d s0 p0 s p → heap_ok s' → iset_d s' !! d = Some p' →
  sp_count p' = sp_count p → priv_frame N d s s' →
  priv_at N d s0 p0 s' p'.
Proof.
  intros [H1 H2 H3 H4] Hok Hd Hc Hf. split; [done|done|congruence|].
  by eapply priv_frame_trans.
Qed.

(** ** remove, append and clear *)

Lemma IconsetPrivate_remove_spec N s d p name :
  heap_ok s → iset_d s !! d = Some p →
  ∃ s' p', IconsetPrivate_remove d name s = Some (tt, s')
    ∧ priv_at N d s p s' p'
    ∧ sp_information p' = sp_information p
    ∧ sp_dict p' = delete (qs_str name) (sp_dict p)
    ∧ sp_list p' = match sp_dict p !! qs_str name with
                   | Some (Some a) => filter (λ x, x ≠ a) (sp_list p)
                   | _ => sp_list p
                   end
    ∧ (∀ a, sp_dict p !! qs_str name = Some (Some a) → icon_o s' !! a = None)
    ∧ (∀ x, sp_dict p !! qs_str name ≠ Some (Some x) → icon_view s' x = icon_view s x)
    ∧ icon_counter s' = icon_counter s ∧ fs s' = fs s ∧ next s' = next s.
Proof.
  intros Hok Hd.
  assert (Hat : priv_at N d s p s p) by (split; [done|done|done|apply priv_frame_refl]).
  pose proof (hok_private _ Hok _ _ Hd) as Hpok.
  unfold IconsetPrivate_remove.
  rewrite (bind_run _ _ _ _ _ (IconsetPrivate_get_run _ _ _ Hd)).
  destruct (sp_dict p !! qs_str name) as [[a|]|] eqn:En.
  - (* an Icon is stored under the name *)
    rewrite (bind_run _ _ _ _ _ (IconsetPrivate_update_run _ _ _ _ Hd)).
    erewrite bind_run; [|apply IconsetPrivate_update_run; simpl; apply lookup_insert_eq].
    set (p' := sp_set_list (filter (λ x, x ≠ a) (sp_list p))
                 (sp_set_dict (delete (qs_str name) (sp_dict p)) p)).
    set (s1 := set_iset_d <[d := p']> s).
    cbv beta.
    match goal with |- context [set_iset_d ?f (set_iset_d ?g s)] =>
      assert (Hs1 : set_iset_d f (set_iset_d g s) = s1) end.
    { unfold s1, set_iset_d. simpl. rewrite insert_insert_eq. do 3 f_equal.
      unfold p'. f_equal. simpl. apply list_filter_iff. intros x. naive_solver. }
    rewrite Hs1. clear Hs1.
    assert (Ha : a ∈ sp_list p) by (by eapply (pok_dict_list _ _ Hpok)).
    assert (Hok1 : heap_ok s1).
    { apply (heap_ok_update_private s d p p'); [done|done| |].
      - unfold p'. by apply private_ok_remove.
      - intros x. unfold p'. simpl. rewrite list_elem_of_filter. naive_solver. }
    destruct (heap_ok_live _ _ _ _ Hok Hd Ha) as (da & pa & Hda & Hpa).
    destruct (Icon_delete_spec s1 a da pa (hok_icons _ Hok1) Hda Hpa)
      as (s2 & Hrun & Hwf2 & Hf2 & Hgone & Hn2 & _).
    assert (Hext1 : external s1 a).
    { intros d' (q & Hq & Hx). simpl in Hq.
      apply lookup_insert_Some in Hq as [[<- <-]|[Hne Hq]].
      - unfold p' in Hx. simpl in Hx. apply list_elem_of_filter in Hx. naive_solver.
      - apply Hne. eapply (hok_disjoint _ Hok _ _ a); [by exists p|by exists q]. }
    exists s2, p'. split; [done|].
    destruct Hf2 as [V2 (E1 & E2 & E3 & E4 & E5 & E6) N2].
    split_and!; [|done|done|done| | |by rewrite E5|by rewrite E6|by rewrite Hn2].
    + eapply (priv_at_step _ _ _ _ s p); [done| | |done|].
      * eapply heap_ok_icon_step; [exact Hok1|done| |by right]. by split.
      * rewrite E1. simpl. apply lookup_insert_eq.
      * split; [by rewrite E2|by rewrite E3|by rewrite E4| | | |by rewrite Hn2].
        -- intros d' Hne. rewrite E1. simpl. by rewrite lookup_insert_ne.
        -- intros x Hx Hno. rewrite V2; [done|]. intros <-. apply Hno. by exists p.
        -- intros x (q & Hq & Hin). rewrite E1 in Hq. simpl in Hq.
           rewrite lookup_insert_eq in Hq. injection Hq as <-.
           left. exists p. split; [done|]. unfold p' in Hin. simpl in Hin.
           apply list_elem_of_filter in Hin. naive_solver.
    + intros a' [= <-]. done.
    + intros x Hx. rewrite V2; [done|]. intros <-. done.
  - (* a null pointer is stored under the name *)
    rewrite (bind_run _ _ _ _ _ (IconsetPrivate_update_run _ _ _ _ Hd)).
    erewrite bind_run; [|apply IconsetPrivate_update_run; simpl; apply lookup_insert_eq].
    cbv beta.
    match goal with |- context [set_iset_d ?f (set_iset_d ?g s)] =>
      assert (Hs1 : set_iset_d f (set_iset_d g s)
                    = set_iset_d <[d := sp_set_dict (delete (qs_str name) (sp_dict p)) p]> s) end.
    { unfold set_iset_d. simpl. rewrite insert_insert_eq. do 3 f_equal.
      simpl. rewrite filter_all by done. by destruct p. }
    set (p' := sp_set_dict (delete (qs_str name) (sp_dict p)) p) in *.
    set (s1 := set_iset_d <[d := p']> s) in *.
    rewrite Hs1. clear Hs1. mrun.
    exists s1, p'. split; [done|]. split_and!; try done.
    eapply (priv_at_step _ _ _ _ s p); [done| | |done|].
    + apply (heap_ok_update_private s d p p'); [done|done| |].
      * unfold p'. by apply private_ok_remove_null.
      * intros x Hx. by left.
    + simpl. apply lookup_insert_eq.
    + apply (priv_frame_update_private N s d p p'); [done|]. intros x Hx. by left.
  - (* nothing is stored under the name *)
    mrun. exists s, p. split; [done|]. split_and!; try done.
    symmetry. by apply delete_id.
Qed.

Lemma private_ok_append s p n icon :
  private_ok s p → sp_dict p !! n = None → icon ∉ sp_list p →
  is_Some (icon_o s !! icon) →
  private_ok s (sp_set_list (sp_list p ++ [icon])
                  (sp_set_dict (<[n := Some icon]> (sp_dict p)) p)).
Proof.
  intros [P1 P2 P3 P4 P5] Hn Hnotin Hlive. split; simpl.
  - apply NoDup_app. split_and!; [done| |apply NoDup_singleton].
    intros x Hx. set_solver.
  - intros x. rewrite elem_of_app, list_elem_of_singleton.
    intros [Hx| ->]; [by apply P2|done].
  - intros m b. rewrite lookup_insert_Some, elem_of_app, list_elem_of_singleton.
    intros [[<- [= <-]]|[Hne Hm]]; [by right|left; by eapply P3].
  - intros b. rewrite elem_of_app, list_elem_of_singleton. intros [Hb| ->].
    + destruct (P4 b Hb) as [m Hm]. exists m. rewrite lookup_insert_ne; [done|].
      intros <-. congruence.
    + exists n. apply lookup_insert_eq.
  - intros m1 m2 b. rewrite !lookup_insert_Some.
    intros [[<- Hb1]|[Hne1 H1]] [[<- Hb2]|[Hne2 H2]]; try done.
    + injection Hb1 as <-. exfalso. apply Hnotin. by eapply P3.
    + injection Hb2 as <-. exfalso. apply Hnotin. by eapply P3.
    + by eapply P5.
Qed.

Lemma IconsetPrivate_append_spec N s d p n icon :
  heap_ok s → iset_d s !! d = Some p →
  is_Some (icon_o s !! icon) → external s icon → (N ≤ icon)%nat →
  ∃ s' p', IconsetPrivate_append d n icon s = Some (tt, s')
    ∧ priv_at N d s p s' p'
    ∧ sp_information p' = sp_information p
    ∧ sp_dict p' = <[qs_str n := Some icon]> (sp_dict p)
    ∧ sp_list p' = match sp_dict p !! qs_str n with
                   | Some (Some a) => filter (λ x, x ≠ a) (sp_list p)
                   | _ => sp_list p
                   end ++ [icon]
    ∧ (∀ a, sp_dict p !! qs_str n = Some (Some a) → icon_o s' !! a = None)
    ∧ (∀ x, sp_dict p !! qs_str n ≠ Some (Some x) → icon_view s' x = icon_view s x)
    ∧ icon_counter s' = icon_counter s ∧ fs s' = fs s ∧ next s' = next s.
Proof.
  intros Hok Hd Hlive Hext HN.
  unfold IconsetPrivate_append.
  rewrite (bind_run _ _ _ _ _ (IconsetPrivate_get_run _ _ _ Hd)).
  (* the removal of an earlier entry *)
  assert (∃ s1 p1, when (bool_decide (is_Some (sp_dict p !! qs_str n)))
              (IconsetPrivate_remove d n) s = Some (tt, s1)
            ∧ priv_at N d s p s1 p1
            ∧ sp_information p1 = sp_information p
            ∧ sp_dict p1 = delete (qs_str n) (sp_dict p)
            ∧ sp_list p1 = match sp_dict p !! qs_str n with
                           | Some (Some a) => filter (λ x, x ≠ a) (sp_list p)
                           | _ => sp_list p
                           end
            ∧ (∀ a, sp_dict p !! qs_str n = Some (Some a) → icon_o s1 !! a = None)
            ∧ (∀ x, sp_dict p !! qs_str n ≠ Some (Some x) → icon_view s1 x = icon_view s x)
            ∧ icon_counter s1 = icon_counter s ∧ fs s1 = fs s ∧ next s1 = next s)
    as (s1 & p1 & Hrun1 & Hat1 & Hi1 & Hdict1 & Hl1 & Hgone1 & Hv1 & Hc1 & Hfs1 & Hn1).
  { destruct (decide (is_Some (sp_dict p !! qs_str n))) as [Hs|Hs].
    - rewrite bool_decide_eq_true_2 by done. simpl.
      by apply IconsetPrivate_remove_spec.
    - rewrite bool_decide_eq_false_2 by done. simpl.
      exists s, p. split; [done|].
      assert (sp_dict p !! qs_str n = None) as Hnone.
      { destruct (sp_dict p !! qs_str n); [|done]. exfalso. eauto. }
      rewrite Hnone. split_and!; try done.
      + by apply priv_at_refl.
      + symmetry. by apply delete_id. }
  rewrite (bind_run _ _ _ _ _ Hrun1).
  pose proof (pat_ok _ _ _ _ _ _ Hat1) as Hok1.
  pose proof (pat_d _ _ _ _ _ _ Hat1) as Hd1.
  pose proof (pat_frame _ _ _ _ _ _ Hat1) as Hf1.
  assert (Hsub : ∀ x, x ∈ sp_list p1 → x ∈ sp_list p).
  { intros x. rewrite Hl1. destruct (sp_dict p !! qs_str n) as [[a|]|]; try done.
    rewrite list_elem_of_filter. naive_solver. }
  assert (Hnotin : icon ∉ sp_list p1).
  { intros Hx. apply (Hext d). exists p. split; [done|]. by apply Hsub. }
  assert (Hlive1 : is_Some (icon_o s1 !! icon)).
  { apply icon_view_live; [apply Hok1|]. rewrite Hv1.
    - apply icon_view_live; [apply Hok|done].
    - intros Hx. apply (Hext d). exists p. split; [done|].
      by eapply (pok_dict_list _ _ (hok_private _ Hok _ _ Hd)). }
  assert (Hext1 : external s1 icon).
  { intros d' (q & Hq & Hx). destruct (decide (d' = d)) as [->|Hne].
    - rewrite Hd1 in Hq. by injection Hq as <-.
    - rewrite (pfr_d _ _ _ _ Hf1) in Hq by done.
      apply (Hext d'). by exists q. }
  rewrite (bind_run _ _ _ _ _ (IconsetPrivate_update_run _ _ _ _ Hd1)).
  erewrite IconsetPrivate_update_run; [|simpl; apply lookup_insert_eq].
  cbv beta.
  set (p' := sp_set_list (sp_list p1 ++ [icon])
               (sp_set_dict (<[qs_str n := Some icon]> (sp_dict p1)) p1)).
  match goal with |- context [set_iset_d ?f (set_iset_d ?g s1)] =>
    assert (Hs2 : set_iset_d f (set_iset_d g s1) = set_iset_d <[d := p']> s1) end.
  { unfold set_iset_d. simpl. by rewrite insert_insert_eq. }
  rewrite Hs2. clear Hs2.
  exists (set_iset_d <[d := p']> s1), p'. split; [done|].
  split_and!; simpl; try done.
  - eapply priv_at_trans; [done|].
    split; [| |done|].
    + apply (heap_ok_update_private s1 d p1 p'); [done|done| |].
      * unfold p'. apply private_ok_append; try done.
        -- by eapply hok_private.
        -- rewrite Hdict1. apply lookup_delete_eq.
      * intros x. unfold p'. simpl. rewrite elem_of_app, list_elem_of_singleton.
        intros [?| ->]; [by left|by right].
    + simpl. apply lookup_insert_eq.
    + apply (priv_frame_update_private N s1 d p1 p'); [done|].
      intros x. unfold p'. simpl. rewrite elem_of_app, list_elem_of_singleton.
      intros [?| ->]; [by left|by right].
  - rewrite Hdict1. apply insert_delete_eq.
  - by rewrite Hl1.
Qed.

End PrivateOps.

Section Meta.
Context `{AL : AnimLib} `{PF : Platform}.

(** ** loadMeta *)

Lemma qs_eqb_tag (n : QDomNode) (tag : string) :
  dom_isElement n = true →
  qs_eqb (dom_tagName n) (QStr tag) = bool_decide (is_tagged tag n).
Proof.
  intros He. unfold qs_eqb, is_tagged. simpl.
  destruct (decide (qs_str (dom_tagName n) = tag)) as [E|E].
  - rewrite !bool_decide_eq_true_2; done.
  - rewrite !bool_decide_eq_false_2; naive_solver.
Qed.

Lemma is_tagged_fun n t1 t2 : is_tagged t1 n → is_tagged t2 n → t1 = t2.
Proof. intros [_ <-] [_ <-]. done. Qed.

(** Which branch of the loop body an element takes. *)
Lemma loadMeta_node_cases i n :
  loadMeta_node i n =
    if decide (is_tagged "name" n) then si_set_name (dom_text n) i
    else if decide (is_tagged "version" n) then si_set_version (dom_text n) i
    else if decide (is_tagged "description" n) then si_set_description (dom_text n) i
    else if decide (is_tagged "author" n) then
      si_set_authors (si_authors i ++ [loadMeta_author n]) i
    else if decide (is_tagged "creation" n) then si_set_creation (dom_text n) i
    else if decide (is_tagged "home" n) then si_set_homeUrl (dom_text n) i
    else i.
Proof.
  unfold loadMeta_node. destruct (dom_isElement n) eqn:He; simpl.
  - rewrite !qs_eqb_tag by done.
    destruct (decide (is_tagged "name" n));
      [rewrite bool_decide_eq_true_2 by done; done
      |rewrite bool_decide_eq_false_2 by done].
    destruct (decide (is_tagged "version" n));
      [rewrite bool_decide_eq_true_2 by done; done
      |rewrite bool_decide_eq_false_2 by done].
    destruct (decide (is_tagged "description" n));
      [rewrite bool_decide_eq_true_2 by done; done
      |rewrite bool_decide_eq_false_2 by done].
    destruct (decide (is_tagged "author" n));
      [rewrite bool_decide_eq_true_2 by done; done
      |rewrite bool_decide_eq_false_2 by done].
    destruct (decide (is_tagged "creation" n));
      [rewrite bool_decide_eq_true_2 by done; done
      |rewrite bool_decide_eq_false_2 by done].
    destruct (decide (is_tagged "home" n));
      [rewrite bool_decide_eq_true_2 by done; done
      |rewrite bool_decide_eq_false_2 by done; done].
  - repeat (rewrite decide_False; [|intros [? ?]; congruence]). done.
Qed.

Lemma default_last_cons {A} (a x : A) (r : list A) :
  default a (last (x :: r)) = default x (last r).
Proof.
  revert a x. induction r as [|y r IH]; intros a x; [done|].
  change (last (x :: y :: r)) with (last (y :: r)).
  by rewrite (IH a y), (IH x y).
Qed.

(** A field that the elements tagged [tag] set to their text and that
    no other element changes ends up as the text of the last of them. *)
Lemma loadMeta_fold_field (get : IconsetInformation → QString) (tag : string) nodes :
  (∀ i n, get (loadMeta_node i n) =
          if decide (is_tagged tag n) then dom_text n else get i) →
  ∀ i, get (fold_left loadMeta_node nodes i)
       = default (get i) (last (dom_text <$> filter (is_tagged tag) nodes)).
Proof.
  intros Hget. induction nodes as [|n nodes IH]; intros i; simpl; [done|].
  rewrite IH, Hget. destruct (decide (is_tagged tag n)) as [Ht|Ht].
  - rewrite filter_cons_True by done. simpl. by rewrite default_last_cons.
  - by rewrite filter_cons_False.
Qed.

Ltac meta_field :=
  intros ?i ?n; rewrite loadMeta_node_cases;
  repeat (case_decide; simpl; try done);
  exfalso;
  repeat match goal with
  | H1 : is_tagged ?a ?n, H2 : is_tagged ?b ?n |- _ =>
      pose proof (is_tagged_fun n a b H1 H2); discriminate
  end.

Lemma loadMeta_fold_name nodes i :
  si_name (fold_left loadMeta_node nodes i)
  = default (si_name i) (last (dom_text <$> filter (is_tagged "name") nodes)).
Proof. apply (loadMeta_fold_field si_name). meta_field. Qed.

Lemma loadMeta_fold_version nodes i :
  si_version (fold_left loadMeta_node nodes i)
  = default (si_version i) (last (dom_text <$> filter (is_tagged "version") nodes)).
Proof. apply (loadMeta_fold_field si_version). meta_field. Qed.

Lemma loadMeta_fold_description nodes i :
  si_description (fold_left loadMeta_node nodes i)
  = default (si_description i)
      (last (dom_text <$> filter (is_tagged "description") nodes)).
Proof. apply (loadMeta_fold_field si_description). meta_field. Qed.

Lemma loadMeta_fold_creation nodes i :
  si_creation (fold_left loadMeta_node nodes i)
  = default (si_creation i) (last (dom_text <$> filter (is_tagged "creation") nodes)).
Proof. apply (loadMeta_fold_field si_creation). meta_field. Qed.

Lemma loadMeta_fold_homeUrl nodes i :
  si_homeUrl (fold_left loadMeta_node nodes i)
  = default (si_homeUrl i) (last (dom_text <$> filter (is_tagged "home") nodes)).
Proof. apply (loadMeta_fold_field si_homeUrl). meta_field. Qed.

Lemma loadMeta_fold_authors nodes : ∀ i,
  si_authors (fold_left loadMeta_node nodes i)
  = si_authors i ++ (loadMeta_author <$> filter (is_tagged "author") nodes).
Proof.
  induction nodes as [|n nodes IH]; intros i; simpl; [by rewrite app_nil_r|].
  rewrite IH. destruct (decide (is_tagged "author" n)) as [Ht|Ht].
  - rewrite filter_cons_True by done. simpl. rewrite loadMeta_node_cases.
    repeat (case_decide; simpl;
            [exfalso;
             match goal with
             | H1 : is_tagged ?a ?n, H2 : is_tagged ?b ?n |- _ =>
                 pose proof (is_tagged_fun n a b H1 H2); discriminate
             end|]).
    rewrite decide_True by done. simpl. by rewrite <- app_assoc.
  - rewrite filter_cons_False by done. f_equal. rewrite loadMeta_node_cases.
    repeat (case_decide; simpl; try done).
Qed.

Lemma loadMeta_fold_filename nodes : ∀ i,
  si_filename (fold_left loadMeta_node nodes i) = si_filename i.
Proof.
  induction nodes as [|n nodes IH]; intros i; simpl; [done|].
  rewrite IH, loadMeta_node_cases. repeat (case_decide; simpl; try done).
Qed.

Lemma loadMeta_fold_info nodes : ∀ i,
  si_info (fold_left loadMeta_node nodes i) = si_info i.
Proof.
  induction nodes as [|n nodes IH]; intros i; simpl; [done|].
  rewrite IH, loadMeta_node_cases. repeat (case_decide; simpl; try done).
Qed.

Lemma sp_set_information_id p : sp_set_information (sp_information p) p = p.
Proof. by destruct p. Qed.

Lemma sp_information_set i p : sp_information (sp_set_information i p) = i.
Proof. by destruct i. Qed.

Lemma same_but_iset_d_refl s : same_but_iset_d s s.
Proof. by repeat split. Qed.

(** The loop of [loadMeta] folds its body over the children. *)
Lemma IconsetPrivate_loadMeta_run nodes : ∀ s d p,
  iset_d s !! d = Some p →
  ∃ s', for_each nodes (λ node,
          IconsetPrivate_update d
            (λ p, sp_set_information (loadMeta_node (sp_information p) node) p)) s
        = Some (tt, s')
    ∧ iset_d s' = <[d := sp_set_information
                          (fold_left loadMeta_node nodes (sp_information p)) p]>
                    (iset_d s)
    ∧ same_but_iset_d s s'.
Proof.
  induction nodes as [|n nodes IH]; intros s d p Hd; simpl.
  - exists s. split; [done|]. split; [|apply same_but_iset_d_refl].
    rewrite sp_set_information_id. by rewrite insert_id.
  - rewrite (bind_run _ _ _ _ _ (IconsetPrivate_update_run _ _ _ _ Hd)).
    set (p1 := sp_set_information (loadMeta_node (sp_information p) n) p).
    destruct (IH (set_iset_d <[d := p1]> s) d p1) as (s' & Hrun & Hd' & Hsame).
    { simpl. apply lookup_insert_eq. }
    exists s'. split; [done|]. split; [|done].
    rewrite Hd'. simpl. rewrite insert_insert_eq. f_equal.
    unfold p1. by rewrite sp_information_set.
Qed.

(** C6: parsing the [meta] element.  [loadMeta] on the Private of a live
    Iconset succeeds; afterwards [name()], [version()], [description()],
    [creation()] and [homeUrl()] return the text of the last child
    element tagged "name", "version", "description", "creation" and
    "home" (the former value when there is no such child), and
    [authors()] returns the former list followed by one entry for each
    child element tagged "author", in document order. *)
Theorem loadMeta_sets_information s this d p meta dir :
  iset_o s !! this = Some d → iset_d s !! d = Some p →
  ∃ s', IconsetPrivate_loadMeta d meta dir s = Some (tt, s')
    ∧ Iconset_name this s' = Some (last_child_text "name" meta (sp_name p), s')
    ∧ Iconset_version this s' = Some (last_child_text "version" meta (sp_version p), s')
    ∧ Iconset_description this s'
        = Some (last_child_text "description" meta (sp_description p), s')
    ∧ Iconset_creation this s' = Some (last_child_text "creation" meta (sp_creation p), s')
    ∧ Iconset_homeUrl this s' = Some (last_child_text "home" meta (sp_homeUrl p), s')
    ∧ Iconset_authors this s'
        = Some (sp_authors p ++ (loadMeta_author <$> children_tagged "author" meta), s').
Proof.
  intros Ho Hd. unfold IconsetPrivate_loadMeta.
  destruct (IconsetPrivate_loadMeta_run (dom_children meta) s d p Hd)
    as (s' & Hrun & Hd' & Hsame).
  exists s'. split; [done|].
  assert (Ho' : iset_o s' !! this = Some d).
  { destruct Hsame as (_ & _ & -> & _). done. }
  assert (Hp' : iset_d s' !! d = Some (sp_set_information
             (fold_left loadMeta_node (dom_children meta) (sp_information p)) p)).
  { rewrite Hd'. apply lookup_insert_eq. }
  unfold Iconset_name, Iconset_version, Iconset_description, Iconset_creation,
    Iconset_homeUrl, Iconset_authors, last_child_text, children_tagged.
  rewrite !(bind_run _ _ _ _ _ (Iconset_d_run _ _ _ _ Ho' Hp')).
  unfold mret, M_ret. simpl.
  rewrite loadMeta_fold_name, loadMeta_fold_version, loadMeta_fold_description,
    loadMeta_fold_creation, loadMeta_fold_homeUrl, loadMeta_fold_authors.
  done.
Qed.

End Meta.

Section PrivateLife.
Context `{AL : AnimLib} `{PF : Platform}.

(** ** clear, the destructor and the copy constructor of Iconset::Private *)

Lemma private_ok_live_list s s' p :
  (∀ x, x ∈ sp_list p → is_Some (icon_o s' !! x)) →
  private_ok s p → private_ok s' p.
Proof. intros E [P1 P2 P3 P4 P5]. by split. Qed.

Lemma private_ok_empty s p : sp_list p = [] → sp_dict p = ∅ → private_ok s p.
Proof.
  intros Hl Hd. split; rewrite ?Hl, ?Hd.
  - constructor.
  - intros x Hx. by apply elem_of_nil in Hx.
  - intros n a. by rewrite lookup_empty.
  - intros a Ha. by apply elem_of_nil in Ha.
  - intros n m a. by rewrite lookup_empty.
Qed.

Lemma drop_tail {A} (l : list A) n : drop n (tail l) = drop (S n) l.
Proof. destruct l; simpl; [by rewrite drop_nil|done]. Qed.

Lemma sp_set_list_id p : sp_set_list (sp_list p) p = p.
Proof. by destruct p. Qed.

Lemma icon_view_live_same s s' x :
  icon_wf s → icon_wf s' → icon_view s' x = icon_view s x →
  is_Some (icon_o s !! x) → is_Some (icon_o s' !! x).
Proof.
  intros Hwf Hwf' Hv Hx. apply (icon_view_live s' x Hwf'). rewrite Hv.
  by apply (icon_view_live s x Hwf).
Qed.

(** The loop of [clear]: each turn takes the first Icon off the list and
    deletes it. *)
Lemma IconsetPrivate_clear_loop d : ∀ l s q,
  icon_wf s → NoDup l → (∀ x, x ∈ l → is_Some (icon_o s !! x)) →
  iset_d s !! d = Some q →
  ∃ s', for_each l (λ x,
          IconsetPrivate_update d (λ p, sp_set_list (tail (sp_list p)) p);;
          Icon_delete x) s = Some (tt, s')
    ∧ icon_wf s'
    ∧ iset_d s' = <[d := sp_set_list (drop (length l) (sp_list q)) q]> (iset_d s)
    ∧ (∀ o, o ∉ l → icon_view s' o = icon_view s o)
    ∧ (∀ x, x ∈ l → icon_o s' !! x = None)
    ∧ iset_o s' = iset_o s ∧ iconsets s' = iconsets s
    ∧ emptyPixmap s' = emptyPixmap s ∧ icon_counter s' = icon_counter s
    ∧ fs s' = fs s ∧ next s' = next s.
Proof.
  induction l as [|x r IH]; intros s q Hwf Hnd Hlive Hd.
  - exists s. simpl. split; [done|].
    split_and!; [done| |done|set_solver|done|done|done|done|done|done].
    rewrite drop_0, sp_set_list_id. by rewrite insert_id.
  - simpl.
    set (q1 := sp_set_list (tail (sp_list q)) q).
    set (s1 := set_iset_d <[d := q1]> s).
    destruct (Hlive x) as [dx Hdx]; [set_solver|].
    destruct (icon_wf_ptr s x dx Hwf Hdx) as [px Hpx].
    destruct (Icon_delete_spec s1 x dx px Hwf Hdx Hpx)
      as (s2 & Hrun & Hwf2 & [V2 (E1 & E2 & E3 & E4 & E5 & E6) _] & Hgone & Hn2 & _).
    match goal with |- context [(?m ≫= _) s] =>
      assert (Hstep : m s = Some (tt, s2)) end.
    { by rewrite (bind_run _ _ _ _ _ (IconsetPrivate_update_run _ _ _ _ Hd)). }
    rewrite (bind_run _ _ _ _ _ Hstep).
    apply NoDup_cons in Hnd as [Hx Hnd].
    destruct (IH s2 q1) as (s' & Hrun' & Hwf' & Hd' & V' & G' & F1 & F2 & F3 & F4 & F5 & F6);
      [done|done| | |].
    { intros y Hy. apply (icon_view_live_same s1 s2); [done|done| |].
      - apply V2. intros <-. done.
      - apply Hlive. set_solver. }
    { rewrite E1. simpl. apply lookup_insert_eq. }
    exists s'. split; [done|].
    unfold s1 in E2, E3, E4, E5, E6, Hn2. simpl in E2, E3, E4, E5, E6, Hn2.
    split_and!; [done| | | |congruence|congruence|congruence|congruence|congruence|congruence].
    + rewrite Hd', E1. simpl. rewrite insert_insert_eq. unfold q1. simpl.
      by rewrite drop_tail.
    + intros o Ho. rewrite V'; [|set_solver]. rewrite V2; [done|]. set_solver.
    + intros y Hy. apply elem_of_cons in Hy as [->|Hy]; [|by apply G'].
      destruct (icon_o s' !! x) eqn:E; [|done].
      assert (is_Some (icon_view s' x)) as Hv.
      { apply (icon_view_live s' x Hwf'). eauto. }
      rewrite V' in Hv by done. rewrite (icon_view_None s2 x Hgone) in Hv.
      by destruct Hv.
Qed.

Lemma IconsetPrivate_clear_spec N s d p :
  heap_ok s → iset_d s !! d = Some p →
  ∃ s', IconsetPrivate_clear d s = Some (tt, s')
    ∧ priv_at N d s p s' (sp_set_list [] (sp_set_dict ∅ p))
    ∧ (∀ x, x ∈ sp_list p → icon_o s' !! x = None)
    ∧ (∀ x, x ∉ sp_list p → icon_view s' x = icon_view s x)
    ∧ icon_counter s' = icon_counter s ∧ fs s' = fs s ∧ next s' = next s.
Proof.
  intros Hok Hd. pose proof (hok_private _ Hok _ _ Hd) as Hpok.
  unfold IconsetPrivate_clear.
  rewrite (bind_run _ _ _ _ _ (IconsetPrivate_update_run _ _ _ _ Hd)).
  set (q := sp_set_dict ∅ p). set (s1 := set_iset_d <[d := q]> s).
  assert (Hq : iset_d s1 !! d = Some q) by (simpl; apply lookup_insert_eq).
  rewrite (bind_run _ _ _ _ _ (IconsetPrivate_get_run _ _ _ Hq)).
  destruct (IconsetPrivate_clear_loop d (sp_list q) s1 q)
    as (s' & Hrun & Hwf' & Hd' & V' & G' & F1 & F2 & F3 & F4 & F5 & F6);
    [apply (hok_icons _ Hok)|apply (pok_nodup _ _ Hpok)
    |apply (pok_live _ _ Hpok)|done|].
  rewrite drop_all in Hd'. simpl in Hd'. rewrite insert_insert_eq in Hd'.
  change (sp_set_list [] q) with (sp_set_list [] (sp_set_dict ∅ p)) in Hd'.
  set (p' := sp_set_list [] (sp_set_dict ∅ p)) in *.
  exists s'. split; [done|].
  assert (Hown : ∀ d' x, owned_by s' d' x → d' ≠ d ∧ owned_by s d' x).
  { intros d' x (r & Hr & Hx). rewrite Hd' in Hr.
    apply lookup_insert_Some in Hr as [[<- <-]|[Hne Hr]]; [by apply elem_of_nil in Hx|].
    split; [done|]. by exists r. }
  assert (Hok' : heap_ok s').
  { split.
    - done.
    - intros d' r. rewrite Hd', lookup_insert_Some. intros [[<- <-]|[Hne Hr]].
      + by apply private_ok_empty.
      + apply (private_ok_live_list s); [|by eapply (hok_private _ Hok)].
        intros x Hx. apply (icon_view_live_same s1 s'); [apply (hok_icons _ Hok)|done| |].
        * apply V'. intros Hin. apply Hne.
          eapply (hok_disjoint _ Hok _ _ x); [by exists p|by exists r].
        * by eapply (pok_live _ _ (hok_private _ Hok _ _ Hr)).
    - intros d1 d2 x H1 H2. apply Hown in H1 as [_ H1]. apply Hown in H2 as [_ H2].
      by eapply (hok_disjoint _ Hok).
    - intros d'. rewrite Hd', lookup_insert_is_Some, F6.
      intros [<-|[_ Hr]]; apply (hok_fresh _ Hok); eauto. }
  split_and!; [|done|done|done|done|done].
  split; [done| |done|].
  - rewrite Hd'. apply lookup_insert_eq.
  - split; [done|done|done| | | |by rewrite F6].
    + intros d' Hne. rewrite Hd'. simpl. by rewrite lookup_insert_ne.
    + intros x _ Hx. apply V'. intros Hin. apply Hx. by exists p.
    + intros x Hx. by apply Hown in Hx as [? _].
Qed.

Lemma heap_ok_delete_private s d :
  heap_ok s → heap_ok (set_iset_d (delete d) s).
Proof.
  intros [Hi Hp Hdis Hfr].
  assert (Hown : ∀ d' x, owned_by (set_iset_d (delete d) s) d' x → owned_by s d' x).
  { intros d' x (r & Hr & Hx). simpl in Hr. apply lookup_delete_Some in Hr as [_ Hr].
    by exists r. }
  split; simpl.
  - done.
  - intros d' r. rewrite lookup_delete_Some. intros [_ Hr].
    eapply private_ok_same_icons; [|by eapply Hp]. done.
  - intros d1 d2 x H1 H2. eapply Hdis; by apply Hown.
  - intros d'. rewrite lookup_delete_is_Some. intros [_ Hr]. by apply Hfr.
Qed.

Lemma IconsetPrivate_delete_spec s d p :
  heap_ok s → iset_d s !! d = Some p →
  ∃ s', IconsetPrivate_delete d s = Some (tt, s')
    ∧ heap_ok s'
    ∧ iset_d s' = delete d (iset_d s)
    ∧ (∀ x, x ∈ sp_list p → icon_o s' !! x = None)
    ∧ (∀ x, x ∉ sp_list p → icon_view s' x = icon_view s x)
    ∧ iset_o s' = iset_o s ∧ iconsets s' = iconsets s
    ∧ emptyPixmap s' = emptyPixmap s ∧ icon_counter s' = icon_counter s
    ∧ fs s' = fs s ∧ next s' = next s.
Proof.
  intros Hok Hd. unfold IconsetPrivate_delete.
  destruct (IconsetPrivate_clear_spec 0 s d p Hok Hd)
    as (s1 & Hrun & [Hok1 Hd1 _ [F1 F2 F3 F4 _ _ _]] & G & V & E1 & E2 & E3).
  rewrite (bind_run _ _ _ _ _ Hrun). mrun.
  eexists. split; [done|]. simpl.
  split_and!; try done.
  - by apply heap_ok_delete_private.
  - apply map_eq. intros k. destruct (decide (k = d)) as [->|Hne].
    + by rewrite !lookup_delete_eq.
    + rewrite !lookup_delete_ne by done. by apply F4.
Qed.

(** A new, empty Private at a fresh address. *)
Lemma heap_ok_new_private s d p0 n :
  heap_ok s → iset_d s !! d = None → (d < n)%nat → (next s ≤ n)%nat →
  sp_list p0 = [] → sp_dict p0 = ∅ →
  heap_ok (set_iset_d <[d := p0]> (set_next n s)).
Proof.
  intros [Hi Hp Hdis Hfr] Hd Hlt Hn Hl Hdict.
  assert (Hown : ∀ d' x, owned_by (set_iset_d <[d := p0]> (set_next n s)) d' x →
            owned_by s d' x).
  { intros d' x (r & Hr & Hx). simpl in Hr.
    apply lookup_insert_Some in Hr as [[<- <-]|[Hne Hr]].
    - rewrite Hl in Hx. by apply elem_of_nil in Hx.
    - by exists r. }
  split; simpl.
  - by eapply icon_wf_maps_next.
  - intros d' r. rewrite lookup_insert_Some. intros [[<- <-]|[Hne Hr]].
    + by apply private_ok_empty.
    + eapply private_ok_same_icons; [|by eapply Hp]. done.
  - intros d1 d2 x H1 H2. eapply Hdis; by apply Hown.
  - intros d'. rewrite lookup_insert_is_Some. intros [<-|[_ Hr]]; [done|].
    specialize (Hfr d' Hr). lia.
Qed.

Lemma Icon_name_run s this d p :
  icon_o s !! this = Some d → icon_d s !! d = Some p →
  Icon_name this s = Some (ip_name p, s).
Proof.
  intros Ho Hd. unfold Icon_name.
  by rewrite (bind_run _ _ _ _ _ (Icon_d_run _ _ _ _ Ho Hd)).
Qed.

(** The loop shared by the copy constructor and [operator+=]: a copy of
    each Icon of [l] is appended to the Private at [d] under the Icon's
    name. *)
Lemma copy_icons_loop N d (getd : M nat) (O : gmap nat nat) :
  (∀ s, iset_o s = O → getd s = Some (d, s)) →
  ∀ l s p,
  heap_ok s → iset_d s !! d = Some p → iset_o s = O → (N ≤ next s)%nat →
  (∀ x, x ∈ l → is_Some (icon_o s !! x) ∧ (x < N)%nat ∧ ¬ owned_by s d x) →
  ∃ s' p', for_each l (λ x,
             icon ← Icon_new_copy x;
             n ← Icon_name icon;
             d' ← getd;
             IconsetPrivate_append d' n icon) s = Some (tt, s')
    ∧ priv_at N d s p s' p'
    ∧ sp_information p' = sp_information p
    ∧ icon_counter s' = icon_counter s ∧ fs s' = fs s.
Proof.
  intros Hget. induction l as [|x r IH]; intros s p Hok Hd HO HN Hl.
  - exists s, p. simpl. split; [done|]. split; [by apply priv_at_refl|done].
  - simpl. pose proof (hok_icons _ Hok) as Hwf.
    destruct (Hl x) as ([dx Hdx] & HxN & Hxd); [set_solver|].
    destruct (icon_wf_ptr s x dx Hwf Hdx) as [px Hpx].
    destruct (Icon_new_copy_spec s x dx px Hwf Hdx Hpx)
      as (s1 & Hrun1 & Hwf1 & Hf1 & Ho1 & Hd1 & Hn1 & _).
    pose proof Hf1 as [V1 (E1 & E2 & E3 & E4 & E5 & E6) _].
    assert (Hok1 : heap_ok s1).
    { eapply (heap_ok_icon_step (next s)); [exact Hok|done|done|]. left. eauto. }
    assert (Hp1 : iset_d s1 !! d = Some p) by (by rewrite E1).
    destruct (IconsetPrivate_append_spec N s1 d p
                (ip_name (ip_set_count (ip_count px + 1) px)) (next s))
      as (s2 & p2 & Hrun2 & Hat2 & Hi2 & _ & _ & _ & _ & C2 & F2 & Hn2);
      [done|done|eauto| |done|].
    { apply (external_same s s1); [done|]. by apply heap_ok_fresh_external. }
    match goal with |- context [(?m ≫= _) s] =>
      assert (Hstep : m s = Some (tt, s2)) end.
    { rewrite (bind_run _ _ _ _ _ Hrun1).
      rewrite (bind_run _ _ _ _ _ (Icon_name_run _ _ _ _ Ho1 Hd1)).
      by rewrite (bind_run _ _ _ _ _ (Hget s1 ltac:(congruence))). }
    rewrite (bind_run _ _ _ _ _ Hstep).
    pose proof Hat2 as [Hok2 Hd2 Hc2 Hfr2].
    destruct (IH s2 p2) as (s' & p' & Hrun' & Hat' & Hi' & C' & F');
      [done|done| | | |].
    { rewrite (pfr_o _ _ _ _ Hfr2). congruence. }
    { lia. }
    { intros y Hy. destruct (Hl y) as (Hy1 & Hy2 & Hy3); [set_solver|].
      assert (Hy4 : ¬ owned_by s1 d y).
      { intros Ho. apply Hy3. by apply (owned_by_same s s1 d y); [congruence|]. }
      split_and!; [|done|].
      - apply (icon_view_live_same s s2); [done|apply (hok_icons _ Hok2)| |done].
        rewrite (pfr_icons _ _ _ _ Hfr2) by done. apply V1. lia.
      - intros Ho. destruct (pfr_list _ _ _ _ Hfr2 _ Ho); [done|lia]. }
    exists s', p'. split; [done|].
    split_and!; [|congruence|congruence|congruence].
    eapply priv_at_trans; [|exact Hat'].
    eapply priv_at_trans; [|exact Hat2].
    eapply (priv_at_step _ _ _ _ s p); [by apply priv_at_refl|done|done|done|].
    apply (priv_frame_of_icon_frame _ _ (eq (next s))); [done|].
    intros ? <-. by left.
Qed.

Lemma IconsetPrivate_new_copy_spec s from p :
  heap_ok s → iset_d s !! from = Some p →
  ∃ s' p', IconsetPrivate_new_copy from s = Some (next s, s')
    ∧ heap_ok s'
    ∧ iset_d s' = <[next s := p']> (iset_d s)
    ∧ sp_count p' = 1 ∧ sp_information p' = sp_information p
    ∧ (∀ x, (x < next s)%nat → icon_view s' x = icon_view s x)
    ∧ (∀ x, x ∈ sp_list p' → (next s < x)%nat)
    ∧ iset_o s' = iset_o s ∧ iconsets s' = iconsets s
    ∧ emptyPixmap s' = emptyPixmap s ∧ icon_counter s' = icon_counter s
    ∧ fs s' = fs s ∧ (next s < next s')%nat.
Proof.
  intros Hok Hfrom. unfold IconsetPrivate_new_copy.
  set (d := next s).
  assert (Hfresh : iset_d s !! d = None).
  { destruct (iset_d s !! d) eqn:E; [|done].
    pose proof (hok_fresh _ Hok d ltac:(eauto)). unfold d in *. lia. }
  assert (Hne : from ≠ d) by congruence.
  set (p0 := sp_set_information (sp_information p) IconsetPrivate_init).
  set (s2 := set_iset_d <[d := p0]> (set_next (S d) s)).
  assert (Hok2 : heap_ok s2).
  { apply heap_ok_new_private; [done|done|lia|unfold d; lia|done|done]. }
  assert (Hd2 : iset_d s2 !! d = Some p0) by (simpl; apply lookup_insert_eq).
  destruct (copy_icons_loop (S d) d (mret d) (iset_o s) ltac:(done)
              (sp_list p) s2 p0)
    as (s' & p' & Hrun & [Hok' Hd' Hc' Hfr'] & Hi' & C' & F');
    [done|done|done|simpl; lia| |].
  { intros x Hx. pose proof (heap_ok_live _ _ _ _ Hok Hfrom Hx) as (dx & px & Hdx & _).
    split_and!; [simpl; eauto| |].
    - assert (x < next s)%nat; [|unfold d; lia].
      apply (heap_ok_owned_lt s from); [done|]. by exists p.
    - intros (q & Hq & Hin). rewrite Hd2 in Hq. injection Hq as <-.
      by apply elem_of_nil in Hin. }
  exists s', p'.
  split.
  { mrun.
    rewrite (IconsetPrivate_get_run _ from p) by (simpl; by rewrite lookup_insert_ne).
    unfold IconsetPrivate_setInformation.
    rewrite (IconsetPrivate_update_run _ d IconsetPrivate_init)
      by (simpl; apply lookup_insert_eq).
    match goal with |- context [for_each _ _ ?st] =>
      assert (Est : st = s2) end.
    { unfold s2, set_iset_d, set_next. simpl. by rewrite insert_insert_eq. }
    rewrite Est. unfold mbind, M_bind, mret, M_ret in Hrun. simpl in Hrun.
    unfold d in Hrun |- *. by rewrite Hrun. }
  destruct Hfr' as [F1 F2 F3 F4 F5 F6 F7].
  split_and!; [done| |by rewrite Hc'|by rewrite Hi'| | |done|done|done|done|done|].
  - apply map_eq. intros k. destruct (decide (k = d)) as [->|Hk].
    + by rewrite lookup_insert_eq.
    + rewrite lookup_insert_ne by done. rewrite F4 by done. simpl.
      by rewrite lookup_insert_ne.
  - intros x Hx. rewrite F5; [done|unfold d; lia|].
    intros (q & Hq & Hin). rewrite Hd2 in Hq. injection Hq as <-.
    by apply elem_of_nil in Hin.
  - intros x Hx. destruct (F6 x) as [(q & Hq & Hin)|]; [by exists p'| |unfold d in *; lia].
    rewrite Hd2 in Hq. injection Hq as <-. by apply elem_of_nil in Hin.
  - simpl in F7. unfold d in *. lia.
Qed.

End PrivateLife.

Section IconsetHeap.
Context `{AL : AnimLib} `{PF : Platform}.

(** ** Well-formed Iconset heaps under the elementary changes *)

Lemma objs_ok_maps s :
  objs_ok s ↔ iset_wf_maps (iset_d s) (iset_o s) (next s)
              ∧ NoDup (registry s)
              ∧ (∀ o, o ∈ registry s → is_Some (iset_o s !! o)).
Proof.
  split.
  - intros [H1 H2 H3 H4 H5]. by repeat split.
  - intros ([H1 H2 H3] & H4 & H5). by split.
Qed.

Lemma refs_none (D : gmap nat IconsetPrivate) O n d :
  iset_wf_maps D O n → D !! d = None → refs O d = 0%nat.
Proof.
  intros [H1 _ _] Hd. destruct (refs O d) eqn:E; [done|].
  assert (refs O d ≠ 0%nat) as Hnz by lia.
  unfold refs in Hnz. apply map_size_non_empty_iff, map_choose in Hnz.
  destruct Hnz as (o' & d' & Hl). apply map_lookup_filter_Some in Hl.
  destruct Hl as [Hl Heq]. simpl in Heq. subst d'.
  destruct (H1 _ _ Hl) as [? E']. congruence.
Qed.

Lemma iset_wf_maps_next D O n n' :
  iset_wf_maps D O n → (n ≤ n')%nat → iset_wf_maps D O n'.
Proof.
  intros [H1 H2 H3] Hn. split; try done.
  intros o Ho. specialize (H3 o Ho). lia.
Qed.

(** a new Iconset with a new Private *)
Lemma iset_wf_maps_new D O n o d p n' :
  iset_wf_maps D O n → O !! o = None → D !! d = None → sp_count p = 1 →
  (o < n')%nat → (n ≤ n')%nat →
  iset_wf_maps (<[d := p]> D) (<[o := d]> O) n'.
Proof.
  intros Hwf HOo HDd Hp Ho Hn. pose proof (refs_none _ _ _ _ Hwf HDd) as Hr.
  destruct Hwf as [H1 H2 H3]. split.
  - intros o' d'. rewrite lookup_insert_Some. intros [[<- <-]|[Hne Ho']].
    + rewrite lookup_insert_eq. eauto.
    + rewrite lookup_insert_ne; [by eapply H1|].
      intros <-. destruct (H1 _ _ Ho') as [? E]. congruence.
  - intros d' p'. rewrite lookup_insert_Some. intros [[<- <-]|[Hne Hd']].
    + rewrite refs_insert, decide_True, refs_delete_None by done. lia.
    + rewrite refs_insert, decide_False, refs_delete_None by done.
      by apply H2.
  - intros o'. rewrite lookup_insert_is_Some. intros [<-|[_ Ho']]; [lia|].
    specialize (H3 o' Ho'). lia.
Qed.

(** an Iconset starts pointing to an existing Private *)
Lemma iset_wf_maps_ref D O n o d p n' :
  iset_wf_maps D O n → D !! d = Some p → O !! o = None → (o < n')%nat →
  (n ≤ n')%nat →
  iset_wf_maps (<[d := sp_set_count (sp_count p + 1) p]> D) (<[o := d]> O) n'.
Proof.
  intros [H1 H2 H3] Hd Ho Hlt Hn. split.
  - intros o' d'. rewrite lookup_insert_Some. intros [[<- <-]|[Hne Ho']].
    + rewrite lookup_insert_eq. eauto.
    + rewrite lookup_insert_is_Some. destruct (decide (d = d')); [by left|right].
      split; [done|]. by eapply H1.
  - intros d' p'. rewrite lookup_insert_Some. intros [[<- <-]|[Hne Hd']].
    + rewrite refs_insert, decide_True, refs_delete_None by done. simpl.
      rewrite (H2 _ _ Hd). lia.
    + rewrite refs_insert, decide_False, refs_delete_None by done.
      by apply H2.
  - intros o'. rewrite lookup_insert_is_Some. intros [<-|[_ Ho']]; [lia|].
    specialize (H3 o' Ho'). lia.
Qed.

(** an Iconset stops pointing to a Private to which others still point *)
Lemma iset_wf_maps_deref D O n o d p :
  iset_wf_maps D O n → O !! o = Some d → D !! d = Some p → sp_count p - 1 ≠ 0 →
  iset_wf_maps (<[d := sp_set_count (sp_count p - 1) p]> D) (delete o O) n.
Proof.
  intros [H1 H2 H3] Ho Hd Hc. split.
  - intros o' d'. rewrite lookup_delete_Some. intros [Hne Ho'].
    rewrite lookup_insert_is_Some. destruct (decide (d = d')); [by left|right].
    split; [done|]. by eapply H1.
  - intros d' p'. rewrite lookup_insert_Some. intros [[<- <-]|[Hne Hd']].
    + simpl. rewrite (H2 _ _ Hd), (refs_delete O o d d Ho), decide_True by done. lia.
    + rewrite (H2 _ _ Hd'), (refs_delete O o d d' Ho), decide_False by done. done.
  - intros o'. rewrite lookup_delete_is_Some. intros [_ Ho']. by apply H3.
Qed.

(** the last Iconset pointing to a Private stops, and the Private goes *)
Lemma iset_wf_maps_free D O n o d p :
  iset_wf_maps D O n → O !! o = Some d → D !! d = Some p → sp_count p - 1 = 0 →
  iset_wf_maps (delete d D) (delete o O) n.
Proof.
  intros [H1 H2 H3] Ho Hd Hc.
  assert (refs O d = 1%nat) as Hr by (specialize (H2 _ _ Hd); lia).
  split.
  - intros o' d'. rewrite lookup_delete_Some. intros [Hne Ho'].
    rewrite lookup_delete_is_Some. split; [|by eapply H1].
    intros <-. apply Hne. by eapply refs_unique.
  - intros d' p'. rewrite lookup_delete_Some. intros [Hne Hd'].
    rewrite (H2 _ _ Hd'), (refs_delete O o d d' Ho), decide_False by done. done.
  - intros o'. rewrite lookup_delete_is_Some. intros [_ Ho']. by apply H3.
Qed.

(** the Privates change, their reference counts do not *)
Lemma iset_wf_maps_update D D' O n :
  iset_wf_maps D O n →
  (∀ d, is_Some (D !! d) → is_Some (D' !! d)) →
  (∀ d p', D' !! d = Some p' → ∃ p, D !! d = Some p ∧ sp_count p' = sp_count p) →
  iset_wf_maps D' O n.
Proof.
  intros [H1 H2 H3] Hdom Hc. split; try done.
  - intros o d Ho. by eapply Hdom, H1.
  - intros d p' Hd. destruct (Hc _ _ Hd) as (p & Hp & ->). by apply H2.
Qed.

(** a Private at a new address, to which no Iconset points yet, is
    counted once the first one does *)
Lemma iset_wf_maps_unique D O n this d p :
  iset_wf_maps D O n → O !! this = Some d → D !! d = Some p → sp_count p = 1 →
  ∀ o, O !! o = Some d → o = this.
Proof.
  intros [H1 H2 H3] Ho Hd Hc o Ho'.
  eapply (refs_unique O); [|done|done]. specialize (H2 _ _ Hd). lia.
Qed.

(** ** Well-formed heaps and what they do not depend on *)

Lemma private_ok_same_content s p p' :
  sp_dict p' = sp_dict p → sp_list p' = sp_list p →
  private_ok s p → private_ok s p'.
Proof. intros Ed El [P1 P2 P3 P4 P5]. split; rewrite ?Ed, ?El; done. Qed.

Lemma heap_ok_set_count s d p c :
  heap_ok s → iset_d s !! d = Some p →
  heap_ok (set_iset_d <[d := sp_set_count c p]> s).
Proof.
  intros Hok Hd. apply (heap_ok_update_private s d p); [done|done| |].
  - apply (private_ok_same_content s p); [done|done|]. by eapply (hok_private _ Hok).
  - intros x Hx. by left.
Qed.

Lemma heap_ok_next s s' :
  icon_d s' = icon_d s → icon_o s' = icon_o s → iset_d s' = iset_d s →
  (next s ≤ next s')%nat → heap_ok s → heap_ok s'.
Proof.
  intros E1 E2 E3 Hn [Hi Hp Hdis Hfr]. split.
  - unfold icon_wf. rewrite E1, E2. by eapply icon_wf_maps_next.
  - intros d p. rewrite E3. intros Hd.
    eapply private_ok_same_icons; [|by eapply Hp]. by rewrite E2.
  - intros d1 d2 x H1 H2.
    apply (owned_by_same s s') in H1; [|by rewrite E3].
    apply (owned_by_same s s') in H2; [|by rewrite E3]. by eapply Hdis.
  - intros d. rewrite E3. intros Hd. specialize (Hfr d Hd). lia.
Qed.

(** ** What is seen through an Iconset *)


Lemma iset_view_None s o : iset_o s !! o = None → iset_view s o = None.
Proof. intros Ho. unfold iset_view. by rewrite Ho. Qed.

Lemma iset_view_same s s' o o' :
  iset_o s' !! o' = iset_o s !! o →
  (∀ d, iset_o s !! o = Some d →
     match iset_d s !! d with
     | Some p => ∃ p', iset_d s' !! d = Some p'
                   ∧ sp_set_count 0 p' = sp_set_count 0 p
                   ∧ ∀ x, x ∈ sp_list p → icon_view s' x = icon_view s x
     | None => iset_d s' !! d = None
     end) →
  iset_view s' o' = iset_view s o.
Proof.
  intros Ho Hd. unfold iset_view. rewrite Ho.
  destruct (iset_o s !! o) as [d|]; [|done]. simpl.
  specialize (Hd d eq_refl). destruct (iset_d s !! d) as [p|].
  - destruct Hd as (p' & -> & Hc & Hv). simpl. f_equal. f_equal; [done|].
    assert (sp_list p' = sp_list p) as ->.
    { by apply (f_equal sp_list) in Hc. }
    apply list_fmap_ext. intros i x Hx. apply Hv. by eapply list_elem_of_lookup_2.
  - by rewrite Hd.
Qed.

End IconsetHeap.

Section IconsetLife.
Context `{AL : AnimLib} `{PF : Platform}.

(** ** Copy construction, destruction and assignment of Iconsets *)

Lemma bind_run2 {A B C} (m : M A) (f : A → M B) (g : B → M C) s b s1 :
  (m ≫= f) s = Some (b, s1) → (m ≫= λ a, f a ≫= g) s = g b s1.
Proof.
  unfold mbind, M_bind. destruct (m s) as [[a s0]|]; [|done].
  by intros ->.
Qed.

Lemma external_mono s s' x :
  (∀ d, owned_by s' d x → owned_by s d x) → external s x → external s' x.
Proof. intros Hsub Hext d Ho. by apply (Hext d), Hsub. Qed.

Lemma WF_view_same s s' o :
  objs_ok s →
  iset_o s' !! o = iset_o s !! o →
  (∀ d p, iset_o s !! o = Some d → iset_d s !! d = Some p →
     ∃ p', iset_d s' !! d = Some p'
       ∧ sp_set_count 0 p' = sp_set_count 0 p
       ∧ ∀ x, x ∈ sp_list p → icon_view s' x = icon_view s x) →
  iset_view s' o = iset_view s o.
Proof.
  intros Hobj Ho Hd. apply iset_view_same; [done|]. intros d Hod.
  destruct (ook_ptr _ Hobj _ _ Hod) as [p Hp]. rewrite Hp. by apply Hd.
Qed.

(** The Iconset [this] lets go of its Private: the reference count goes
    down by one and the Private is deleted when it reaches zero. *)
Lemma Iconset_release_spec s this d p :
  WF s → iset_o s !! this = Some d → iset_d s !! d = Some p →
  ∃ s1, (z ← IconsetPrivate_deref d; when z (IconsetPrivate_delete d)) s
          = Some (tt, s1)
    ∧ heap_ok s1
    ∧ iset_wf_maps (iset_d s1) (delete this (iset_o s)) (next s)
    ∧ iset_o s1 = iset_o s
    ∧ iset_d s1 = (if decide (sp_count p = 1) then delete d (iset_d s)
                   else <[d := sp_set_count (sp_count p - 1) p]> (iset_d s))
    ∧ iconsets s1 = iconsets s ∧ emptyPixmap s1 = emptyPixmap s
    ∧ icon_counter s1 = icon_counter s ∧ fs s1 = fs s ∧ next s1 = next s
    ∧ (sp_count p ≠ 1 → ∀ x, icon_view s1 x = icon_view s x)
    ∧ (∀ x, x ∉ sp_list p → icon_view s1 x = icon_view s x)
    ∧ (∀ d0 x, owned_by s1 d0 x → owned_by s d0 x).
Proof.
  intros [Hok Hobj] Ho Hd.
  apply objs_ok_maps in Hobj as (Hmaps & Hnd & Hlive).
  unfold IconsetPrivate_deref.
  set (p1 := sp_set_count (sp_count p - 1) p).
  set (s0 := set_iset_d <[d := p1]> s).
  assert (Hrun0 : (p ← IconsetPrivate_get d;
                   let c := sp_count p - 1 in
                   IconsetPrivate_put d (sp_set_count c p);;
                   mret (bool_decide (c = 0))) s
                  = Some (bool_decide (sp_count p - 1 = 0), s0)).
  { by rewrite (bind_run _ _ _ _ _ (IconsetPrivate_get_run _ _ _ Hd)). }
  rewrite (bind_run _ _ _ _ _ Hrun0).
  assert (Hok0 : heap_ok s0) by (by apply heap_ok_set_count).
  destruct (decide (sp_count p = 1)) as [Hc|Hc].
  - rewrite bool_decide_eq_true_2 by lia. simpl.
    destruct (IconsetPrivate_delete_spec s0 d p1 Hok0) as
      (s1 & Hrun & Hok1 & Hd1 & G & V & E1 & E2 & E3 & E4 & E5 & E6);
      [simpl; apply lookup_insert_eq|].
    exists s1. split; [done|]. simpl in *.
    assert (Hd1' : iset_d s1 = delete d (iset_d s)).
    { rewrite Hd1. by rewrite delete_insert_eq. }
    split_and!; try done.
    + rewrite Hd1'. eapply iset_wf_maps_free; [done|done|done|lia].
    + intros d0 x (q & Hq & Hx). rewrite Hd1' in Hq.
      apply lookup_delete_Some in Hq as [_ Hq]. by exists q.
  - rewrite bool_decide_eq_false_2 by lia. simpl. unfold mret, M_ret.
    exists s0. split; [done|]. simpl.
    split_and!; try done.
    + eapply iset_wf_maps_deref; [done|done|done|lia].
    + intros d0 x (q & Hq & Hx). simpl in Hq.
      apply lookup_insert_Some in Hq as [[<- <-]|[_ Hq]]; [by exists p|by exists q].
Qed.

Lemma release_views s s1 this d p :
  WF s → iset_o s !! this = Some d → iset_d s !! d = Some p →
  iset_o s1 = iset_o s →
  iset_d s1 = (if decide (sp_count p = 1) then delete d (iset_d s)
               else <[d := sp_set_count (sp_count p - 1) p]> (iset_d s)) →
  (∀ x, x ∉ sp_list p → icon_view s1 x = icon_view s x) →
  (sp_count p ≠ 1 → ∀ x, icon_view s1 x = icon_view s x) →
  ∀ o, o ≠ this → iset_view s1 o = iset_view s o.
Proof.
  intros [Hok Hobj] Ho Hd Eo Ed V1 V2 o Hne.
  apply WF_view_same; [done|by rewrite Eo|].
  intros d0 p0 Ho0 Hd0. rewrite Ed.
  pose proof (proj1 (objs_ok_maps s) Hobj) as (Hmaps & _ & _).
  destruct (decide (sp_count p = 1)) as [Hc|Hc].
  - assert (d0 ≠ d) as Hd0d.
    { intros ->. apply Hne. by eapply (iset_wf_maps_unique _ _ _ this d p). }
    exists p0. rewrite lookup_delete_ne by done. split_and!; [done|done|].
    intros x Hx. apply V1. intros Hin. apply Hd0d.
    eapply (hok_disjoint _ Hok _ _ x); [by exists p0|by exists p].
  - destruct (decide (d0 = d)) as [->|Hd0d].
    + rewrite lookup_insert_eq. eexists. split; [done|].
      assert (p0 = p) as -> by congruence. split; [done|]. intros x _. by apply V2.
    + rewrite lookup_insert_ne by done. exists p0. split_and!; [done|done|].
      intros x _. by apply V2.
Qed.

Lemma Iconset_new_copy_spec s from d p :
  WF s → iset_o s !! from = Some d → iset_d s !! d = Some p →
  ∃ s', Iconset_new_copy from s = Some (next s, s')
    ∧ WF s'
    ∧ iset_o s' = <[next s := d]> (iset_o s)
    ∧ iset_d s' = <[d := sp_set_count (sp_count p + 1) p]> (iset_d s)
    ∧ iset_frame (next s) s s'
    ∧ iset_view s' (next s) = iset_view s from.
Proof.
  intros [Hok Hobj] Ho Hd.
  pose proof (proj1 (objs_ok_maps s) Hobj) as (Hmaps & Hnd & Hlive).
  assert (Hfresh : iset_o s !! next s = None).
  { destruct (iset_o s !! next s) eqn:E; [|done].
    pose proof (ook_fresh _ Hobj (next s) ltac:(eauto)). lia. }
  set (s' := set_iset_d <[d := sp_set_count (sp_count p + 1) p]>
               (set_iset_o <[next s := d]> (set_next (S (next s)) s))).
  exists s'. split.
  { unfold Iconset_new_copy. mrun.
    assert (from ≠ next s) by congruence.
    unfold iconset_dptr. mrun. rewrite Ho. simpl.
    unfold IconsetPrivate_ref.
    by rewrite (IconsetPrivate_update_run _ d p). }
  assert (Hown : ∀ d0 x, owned_by s' d0 x → owned_by s d0 x).
  { intros d0 x (q & Hq & Hx). simpl in Hq.
    apply lookup_insert_Some in Hq as [[<- <-]|[_ Hq]]; [by exists p|by exists q]. }
  assert (Hview : ∀ o o', iset_o s' !! o' = iset_o s !! o →
                          iset_view s' o' = iset_view s o).
  { intros o o' Ho'. apply iset_view_same; [done|]. intros d0 Ho0.
    destruct (ook_ptr _ Hobj _ _ Ho0) as [p0 Hp0]. rewrite Hp0. simpl.
    destruct (decide (d0 = d)) as [->|Hne].
    - rewrite lookup_insert_eq. eexists. split; [done|].
      assert (p0 = p) as -> by congruence. done.
    - rewrite lookup_insert_ne by done. by exists p0. }
  split_and!; [split| done | done | split | ].
  - apply (heap_ok_set_count (set_iset_o <[next s := d]> (set_next (S (next s)) s)) d p);
      [|done].
    apply (heap_ok_next s); simpl; [done|done|done|lia|done].
  - apply objs_ok_maps. simpl. split_and!; [|done|].
    + eapply iset_wf_maps_ref; [done|done|done|lia|lia].
    + intros o Hin. rewrite lookup_insert_is_Some. destruct (decide (next s = o)); [by left|].
      right. split; [done|]. by apply Hlive.
  - intros o Hne. apply Hview. simpl. by rewrite lookup_insert_ne.
  - intros x Hx Hext. split; [done|].
    apply (external_mono s); [intros ?; apply Hown|done].
  - done.
  - simpl. lia.
  - apply Hview. simpl. by rewrite lookup_insert_eq.
Qed.

Lemma Iconset_delete_spec s this d p :
  WF s → iset_o s !! this = Some d → iset_d s !! d = Some p →
  ∃ s', Iconset_delete this s = Some (tt, s')
    ∧ WF s'
    ∧ iset_o s' = delete this (iset_o s)
    ∧ iset_d s' = (if decide (sp_count p = 1) then delete d (iset_d s)
                   else <[d := sp_set_count (sp_count p - 1) p]> (iset_d s))
    ∧ registry s' = filter (λ x, x ≠ this) (registry s)
    ∧ (∀ o, o ≠ this → iset_view s' o = iset_view s o)
    ∧ (∀ x, external s x → icon_view s' x = icon_view s x ∧ external s' x)
    ∧ next s' = next s ∧ icon_counter s' = icon_counter s ∧ fs s' = fs s
    ∧ (sp_count p ≠ 1 → ∀ x, icon_view s' x = icon_view s x).
Proof.
  intros HWF Ho Hd. pose proof HWF as [Hok Hobj].
  pose proof (proj1 (objs_ok_maps s) Hobj) as (Hmaps & Hnd & Hlive).
  destruct (Iconset_release_spec s this d p HWF Ho Hd)
    as (s1 & Hrun1 & Hok1 & Hmaps1 & Eo & Ed & E1 & E2 & E3 & E4 & E5 & V2 & V1 & Hown).
  destruct (unregisterIconset_run s1 this)
    as (s2 & Hrun2 & Hreg & U1 & U2 & U3 & U4 & U5 & U6 & U7 & U8).
  exists (set_iset_o (delete this) s2). split.
  { unfold Iconset_delete.
    rewrite (bind_run _ _ _ _ _ (iconset_dptr_run _ _ _ Ho)).
    rewrite (bind_run2 _ _ _ _ _ _ Hrun1).
    by rewrite (bind_run _ _ _ _ _ Hrun2). }
  assert (Hreg' : registry s1 = registry s) by (unfold registry; by rewrite E1).
  assert (Hicons : ∀ x, icon_view (set_iset_o (delete this) s2) x = icon_view s1 x).
  { intros x. unfold icon_view. simpl. by rewrite U1, U2. }
  split_and!; simpl.
  - split.
    + apply (heap_ok_same_heaps s1); simpl; done.
    + apply objs_ok_maps. simpl. rewrite U3, U4, U8, E5, Eo.
      split_and!; [done| |].
      * change (registry (set_iset_o (delete this) s2)) with (registry s2).
        rewrite Hreg, Hreg'. by apply NoDup_filter.
      * intros o. change (registry (set_iset_o (delete this) s2)) with (registry s2).
        rewrite Hreg, Hreg', list_elem_of_filter. intros [Hne Hin].
        rewrite lookup_delete_is_Some. split; [done|]. by apply Hlive.
  - by rewrite U4, Eo.
  - by rewrite U3.
  - change (registry (set_iset_o (delete this) s2)) with (registry s2).
    by rewrite Hreg, Hreg'.
  - intros o Hne.
    rewrite <- (release_views s s1 this d p HWF Ho Hd Eo Ed V1 V2 o Hne).
    unfold iset_view. simpl. rewrite U4, U3, lookup_delete_ne by done.
    destruct (iset_o s1 !! o) as [d0|]; [|done]. simpl.
    destruct (iset_d s1 !! d0) as [p0|]; [|done]. simpl. do 2 f_equal.
    apply list_fmap_ext. intros i x _. apply Hicons.
  - intros x Hext. split.
    + rewrite Hicons. apply V1. intros Hin. apply (Hext d). by exists p.
    + apply (external_mono s); [|done]. intros d0 Hx. apply Hown.
      destruct Hx as (q & Hq & Hx). simpl in Hq. rewrite U3 in Hq. by exists q.
  - congruence.
  - congruence.
  - congruence.
  - intros Hc x. rewrite Hicons. by apply V2.
Qed.

Lemma Iconset_assign_spec s this from d p d' p' :
  WF s → this ≠ from ∨ sp_count p ≠ 1 →
  iset_o s !! this = Some d → iset_d s !! d = Some p →
  iset_o s !! from = Some d' → iset_d s !! d' = Some p' →
  ∃ s' q, Iconset_assign this from s = Some (tt, s')
    ∧ WF s'
    ∧ iset_o s' = <[this := d']> (iset_o s)
    ∧ iset_d s' !! d' = Some q
    ∧ sp_set_count 0 q = sp_set_count 0 p'
    ∧ sp_count q = (if decide (d = d') then sp_count p' else sp_count p' + 1)
    ∧ (d ≠ d' → iset_d s' !! d = if decide (sp_count p = 1) then None
                                 else Some (sp_set_count (sp_count p - 1) p))
    ∧ (∀ d0, d0 ≠ d → d0 ≠ d' → iset_d s' !! d0 = iset_d s !! d0)
    ∧ (∀ o, o ≠ this → iset_view s' o = iset_view s o)
    ∧ iset_view s' this = iset_view s from
    ∧ (∀ x, external s x → icon_view s' x = icon_view s x ∧ external s' x)
    ∧ iconsets s' = iconsets s
    ∧ next s' = next s ∧ icon_counter s' = icon_counter s ∧ fs s' = fs s
    ∧ (sp_count p ≠ 1 → ∀ x, icon_view s' x = icon_view s x).
Proof.
  intros HWF Hne Ho Hd Ho' Hd'. pose proof HWF as [Hok Hobj].
  pose proof (proj1 (objs_ok_maps s) Hobj) as (Hmaps & Hnd & Hlive).
  destruct (Iconset_release_spec s this d p HWF Ho Hd)
    as (s1 & Hrun1 & Hok1 & Hmaps1 & Eo & Ed & E1 & E2 & E3 & E4 & E5 & V2 & V1 & Hown).
  assert (Hq1 : ∃ q1, iset_d s1 !! d' = Some q1
                 ∧ sp_set_count 0 q1 = sp_set_count 0 p'
                 ∧ sp_count q1 = (if decide (d = d') then sp_count p' - 1
                                  else sp_count p')).
  { rewrite Ed. destruct (decide (sp_count p = 1)) as [Hc|Hc].
    - assert (d ≠ d') as Hdd.
      { intros <-. destruct Hne as [Hne|Hne]; [|done]. apply Hne. symmetry.
        exact (iset_wf_maps_unique _ _ _ this d p Hmaps Ho Hd Hc from Ho'). }
      exists p'. rewrite lookup_delete_ne, decide_False by done. done.
    - destruct (decide (d = d')) as [<-|Hdd].
      + rewrite lookup_insert_eq. eexists. split; [done|].
        assert (p' = p) as -> by congruence. done.
      + rewrite lookup_insert_ne by done. by exists p'. }
  destruct Hq1 as (q1 & Hq1 & Hq1v & Hq1c).
  set (q := sp_set_count (sp_count q1 + 1) q1).
  set (s' := set_iset_d <[d' := q]> (set_iset_o <[this := d']> s1)).
  exists s', q. split.
  { unfold Iconset_assign.
    rewrite (bind_run _ _ _ _ _ (iconset_dptr_run _ _ _ Ho)).
    rewrite (bind_run2 _ _ _ _ _ _ Hrun1).
    rewrite (bind_run _ _ _ _ _ (iconset_dptr_run s1 from d' ltac:(by rewrite Eo))).
    mrun. unfold IconsetPrivate_ref.
    by rewrite (IconsetPrivate_update_run _ d' q1). }
  assert (Hicons : ∀ x, icon_view s' x = icon_view s1 x) by done.
  assert (Hview1 : ∀ o d0, iset_o s' !! o = Some d0 → iset_o s1 !! o = Some d0 ∨ o = this).
  { intros o d0. simpl. rewrite lookup_insert_Some. naive_solver. }
  assert (Hview : ∀ o, o ≠ this → iset_view s' o = iset_view s o).
  { intros o Hno.
    rewrite <- (release_views s s1 this d p HWF Ho Hd Eo Ed V1 V2 o Hno).
    apply iset_view_same; [simpl; by rewrite lookup_insert_ne|].
    intros d0 Ho0. simpl. destruct (decide (d0 = d')) as [->|Hd0].
    - rewrite Hq1, lookup_insert_eq. by eexists.
    - rewrite lookup_insert_ne by done.
      destruct (iset_d s1 !! d0) as [p0|]; [|done]. by exists p0. }
  split_and!.
  - split.
    + apply (heap_ok_set_count (set_iset_o <[this := d']> s1) d' q1); [|done].
      by apply (heap_ok_same_heaps s1).
    + apply objs_ok_maps. simpl. rewrite E5. split_and!.
      * rewrite Eo, <- (insert_delete_eq (iset_o s)).
        apply (iset_wf_maps_ref (iset_d s1) (delete this (iset_o s)) (next s)
                 this d' q1 (next s)); [done|done|apply lookup_delete_eq| |lia].
        apply (ook_fresh _ Hobj). eauto.
      * change (registry s') with (registry s1). unfold registry. by rewrite E1.
      * intros o. change (registry s') with (registry s1). unfold registry.
        rewrite E1. intros Hin. rewrite lookup_insert_is_Some, Eo.
        destruct (decide (this = o)); [by left|right]. split; [done|]. by apply Hlive.
  - simpl. by rewrite Eo.
  - simpl. apply lookup_insert_eq.
  - unfold q. simpl. by rewrite <- Hq1v.
  - unfold q. simpl. rewrite Hq1c. destruct (decide (d = d')); lia.
  - intros Hdd. simpl. rewrite lookup_insert_ne by done. rewrite Ed.
    destruct (decide (sp_count p = 1)).
    + apply lookup_delete_eq.
    + apply lookup_insert_eq.
  - intros d0 H1 H2. simpl. rewrite lookup_insert_ne by done. rewrite Ed.
    destruct (decide (sp_count p = 1)).
    + by rewrite lookup_delete_ne.
    + by rewrite lookup_insert_ne.
  - done.
  - apply iset_view_same; [simpl; by rewrite lookup_insert_eq|].
    intros d0 Ho0. assert (d0 = d') as -> by congruence. rewrite Hd'.
    exists q. split_and!; [simpl; apply lookup_insert_eq|by rewrite <- Hq1v|].
    intros x Hx. rewrite Hicons.
    destruct (decide (sp_count p = 1)) as [Hc|Hc]; [|by apply V2].
    apply V1. intros Hin.
    assert (d' = d) as ->.
    { eapply (hok_disjoint _ Hok _ _ x); [by exists p'|by exists p]. }
    destruct Hne as [Hne|Hne]; [|done]. apply Hne. symmetry.
    exact (iset_wf_maps_unique _ _ _ this d p Hmaps Ho Hd Hc from Ho').
  - intros x Hext. split.
    + rewrite Hicons. apply V1. intros Hin. apply (Hext d). by exists p.
    + apply (external_mono s); [|done]. intros d0 (r & Hr & Hx). apply Hown.
      simpl in Hr. apply lookup_insert_Some in Hr as [[<- <-]|[_ Hr]].
      * exists q1. done.
      * by exists r.
  - done.
  - done.
  - done.
  - done.
  - intros Hc x. rewrite Hicons. by apply V2.
Qed.

(** Assigning an Iconset to itself when no other Iconset shares its
    Private: the Private is deleted and then read. *)
Lemma Iconset_assign_self_sole s this d p :
  WF s → iset_o s !! this = Some d → iset_d s !! d = Some p → sp_count p = 1 →
  Iconset_assign this this s = None.
Proof.
  intros HWF Ho Hd Hc.
  destruct (Iconset_release_spec s this d p HWF Ho Hd)
    as (s1 & Hrun1 & _ & _ & Eo & Ed & _).
  rewrite decide_True in Ed by done.
  unfold Iconset_assign.
  rewrite (bind_run _ _ _ _ _ (iconset_dptr_run _ _ _ Ho)).
  rewrite (bind_run2 _ _ _ _ _ _ Hrun1).
  rewrite (bind_run _ _ _ _ _ (iconset_dptr_run s1 this d ltac:(by rewrite Eo))).
  unfold IconsetPrivate_ref, IconsetPrivate_update, IconsetPrivate_get. mrun.
  by rewrite Ed, lookup_delete_eq.
Qed.

(** C3: Iconsets are reference counted.  In a well-formed heap the
    count of a Private is the number of Iconsets that point to it.  The
    copy constructor makes the new Iconset point to the Private of its
    source and adds one to the count.  The destructor takes one off the
    count of the Private of [this], and the Private is deleted exactly
    when [this] was the last Iconset pointing to it.  Assignment from
    [from] does the same to the Private that [this] leaves and makes
    [this] point to the Private of [from], whose count goes up by one (it
    stays as it is when both shared it); the heap stays well formed, so
    the counts still are the numbers of referring Iconsets.  There is one
    exception: when [this] is assigned to itself and is the only Iconset
    on its Private, the Private is deleted and then read, and the
    assignment is undefined. *)
Theorem Iconset_reference_counted s this from d p d' p' :
  WF s →
  iset_o s !! this = Some d → iset_d s !! d = Some p →
  iset_o s !! from = Some d' → iset_d s !! d' = Some p' →
  sp_count p = Z.of_nat (refs (iset_o s) d)
  ∧ (∃ s1, Iconset_new_copy from s = Some (next s, s1) ∧ WF s1
       ∧ iset_o s1 !! next s = Some d' ∧ iset_o s1 !! from = Some d'
       ∧ iset_d s1 !! d' = Some (sp_set_count (sp_count p' + 1) p'))
  ∧ (∃ s3, Iconset_delete this s = Some (tt, s3) ∧ WF s3
       ∧ iset_o s3 !! this = None
       ∧ iset_d s3 !! d = if decide (refs (iset_o s) d = 1%nat) then None
                          else Some (sp_set_count (sp_count p - 1) p))
  ∧ (this ≠ from ∨ refs (iset_o s) d ≠ 1%nat →
     ∃ s2 q, Iconset_assign this from s = Some (tt, s2) ∧ WF s2
       ∧ iset_o s2 !! this = Some d' ∧ iset_o s2 !! from = Some d'
       ∧ iset_d s2 !! d' = Some q ∧ sp_set_count 0 q = sp_set_count 0 p'
       ∧ sp_count q = (if decide (d = d') then sp_count p' else sp_count p' + 1)
       ∧ (d ≠ d' → iset_d s2 !! d =
                     if decide (refs (iset_o s) d = 1%nat) then None
                     else Some (sp_set_count (sp_count p - 1) p)))
  ∧ (this = from → refs (iset_o s) d = 1%nat → Iconset_assign this from s = None).
Proof.
  intros HWF Ho Hd Ho' Hd'. pose proof HWF as [Hok Hobj].
  pose proof (ook_count _ Hobj _ _ Hd) as Hc.
  assert (Hdec : ∀ A (x y : A),
            (if decide (sp_count p = 1) then x else y)
            = (if decide (refs (iset_o s) d = 1%nat) then x else y)).
  { intros A x y. destruct (decide (sp_count p = 1)), (decide (refs (iset_o s) d = 1%nat));
      try done; lia. }
  split; [done|]. split_and!.
  - destruct (Iconset_new_copy_spec s from d' p' HWF Ho' Hd')
      as (s1 & Hrun & HWF1 & Eo & Ed & _ & _).
    exists s1. split_and!; [done|done| | |].
    + rewrite Eo. apply lookup_insert_eq.
    + rewrite Eo. rewrite lookup_insert_ne; [done|].
      intros E. pose proof (ook_fresh _ Hobj from ltac:(eauto)). lia.
    + rewrite Ed. apply lookup_insert_eq.
  - destruct (Iconset_delete_spec s this d p HWF Ho Hd)
      as (s3 & Hrun & HWF3 & Eo & Ed & _).
    exists s3. split_and!; [done|done| |].
    + rewrite Eo. apply lookup_delete_eq.
    + rewrite Ed, <- Hdec. destruct (decide (sp_count p = 1)).
      * apply lookup_delete_eq.
      * apply lookup_insert_eq.
  - intros Hne.
    assert (Hne' : this ≠ from ∨ sp_count p ≠ 1) by (destruct Hne; [by left|right; lia]).
    destruct (Iconset_assign_spec s this from d p d' p' HWF Hne' Ho Hd Ho' Hd')
      as (s2 & q & Hrun & HWF2 & Eo & Hq & Hqv & Hqc & Hold & _).
    exists s2, q. split_and!; [done|done| | |done|done|done|].
    + rewrite Eo. apply lookup_insert_eq.
    + rewrite Eo. destruct (decide (this = from)) as [->|Hn].
      * apply lookup_insert_eq.
      * by rewrite lookup_insert_ne.
    + intros Hdd. rewrite (Hold Hdd). apply Hdec.
  - intros <- Hr. apply (Iconset_assign_self_sole s this d p HWF Ho Hd). lia.
Qed.

End IconsetLife.

Section IconsetDetach.
Context `{AL : AnimLib} `{PF : Platform}.

(** ** Frames of operations on an Iconset *)

Lemma iset_frame_refl this s : iset_frame this s s.
Proof. by split. Qed.

Lemma icon_view_is_Some_live s x : is_Some (icon_view s x) → is_Some (icon_o s !! x).
Proof.
  unfold icon_view, view_maps. destruct (icon_o s !! x); [eauto|].
  simpl. by intros [? ?].
Qed.

Lemma iset_frame_trans this s1 s2 s3 :
  icon_wf s1 → iset_frame this s1 s2 → iset_frame this s2 s3 →
  iset_frame this s1 s3.
Proof.
  intros Hwf [V1 I1 R1 N1] [V2 I2 R2 N2]. split.
  - intros o Ho. by rewrite V2, V1.
  - intros x Hx Hext. destruct (I1 x Hx Hext) as [Hv1 Hext1].
    assert (is_Some (icon_o s2 !! x)) as Hx2.
    { apply icon_view_is_Some_live. rewrite Hv1. by apply icon_view_live. }
    destruct (I2 x Hx2 Hext1) as [Hv2 Hext2]. split; [congruence|done].
  - congruence.
  - lia.
Qed.

(** A member function of the Private of [this], which no other Iconset
    shares, keeps the heaps well formed and is not seen through any other
    Iconset or external Icon. *)
Lemma priv_at_WF s this d p s' p' :
  WF s → iset_o s !! this = Some d → iset_d s !! d = Some p → sp_count p = 1 →
  priv_at (next s) d s p s' p' →
  WF s' ∧ iset_frame this s s'.
Proof.
  intros [Hok Hobj] Ho Hd Hc [Hok' Hd' Hc' [F1 F2 F3 F4 F5 F6 F7]].
  pose proof (proj1 (objs_ok_maps s) Hobj) as (Hmaps & Hnd & Hlive).
  assert (Hreg : registry s' = registry s) by (unfold registry; by rewrite F2).
  split; [split; [done|]|split].
  - apply objs_ok_maps. rewrite F1, Hreg. split_and!; [|done|done].
    apply (iset_wf_maps_next _ _ (next s)); [|done].
    apply (iset_wf_maps_update (iset_d s)); [done| |].
    + intros d0 Hd0. destruct (decide (d0 = d)) as [->|Hne]; [by rewrite Hd'|].
      by rewrite F4.
    + intros d0 p0 Hd0. destruct (decide (d0 = d)) as [->|Hne].
      * exists p. split; [done|]. congruence.
      * exists p0. rewrite <- F4 by done. done.
  - intros o Hne. apply WF_view_same; [done|by rewrite F1|].
    intros d0 p0 Ho0 Hd0.
    assert (d0 ≠ d) as Hd0d.
    { intros ->. apply Hne.
      exact (iset_wf_maps_unique _ _ _ this d p Hmaps Ho Hd Hc o Ho0). }
    exists p0. rewrite F4 by done. split_and!; [done|done|].
    intros x Hx. apply F5.
    + apply (heap_ok_owned_lt s d0); [done|]. by exists p0.
    + intros Hown. apply Hd0d.
      eapply (hok_disjoint _ Hok _ _ x); [by exists p0|done].
  - intros x Hx Hext. split.
    + apply F5; [|apply Hext]. apply (iwf_fresh_o _ _ _ (hok_icons _ Hok)). done.
    + intros d0 Hown. destruct (decide (d0 = d)) as [->|Hne].
      * destruct (F6 x Hown) as [Hown'|Hge]; [by apply (Hext d)|].
        pose proof (iwf_fresh_o _ _ _ (hok_icons _ Hok) x Hx). lia.
      * apply (Hext d0). destruct Hown as (q & Hq & Hin). rewrite F4 in Hq by done.
        by exists q.
  - done.
  - done.
Qed.

(** ** The default constructor, [copy()] and [detach()] *)

Lemma WF_fresh_o s o : WF s → (next s ≤ o)%nat → iset_o s !! o = None.
Proof.
  intros [_ Hobj] Hn. destruct (iset_o s !! o) eqn:E; [|done].
  pose proof (ook_fresh _ Hobj o ltac:(eauto)). lia.
Qed.

Lemma WF_fresh_d s d : WF s → (next s ≤ d)%nat → iset_d s !! d = None.
Proof.
  intros [Hok _] Hn. destruct (iset_d s !! d) eqn:E; [|done].
  pose proof (hok_fresh _ Hok d ltac:(eauto)). lia.
Qed.

Lemma Iconset_new_spec s :
  WF s →
  ∃ s', Iconset_new s = Some (next s, s')
    ∧ WF s'
    ∧ s' = set_iset_o <[next s := S (next s)]>
             (set_iset_d <[S (next s) := IconsetPrivate_init]>
                (set_next (S (S (next s))) s))
    ∧ iset_frame (next s) s s'.
Proof.
  intros HWF. pose proof HWF as [Hok Hobj].
  pose proof (proj1 (objs_ok_maps s) Hobj) as (Hmaps & Hnd & Hlive).
  eexists. split; [reflexivity|]. split_and!; [split| |split]; simpl.
  - apply (heap_ok_same_heaps
             (set_iset_d <[S (next s) := IconsetPrivate_init]>
                (set_next (S (S (next s))) s))); [done|done|done|done|].
    apply heap_ok_new_private; [done| |lia|lia|done|done].
    apply WF_fresh_d; [done|lia].
  - apply objs_ok_maps. simpl. split_and!; [|done|].
    + apply (iset_wf_maps_new _ _ (next s)); [done| | |done|lia|lia].
      * by apply WF_fresh_o.
      * apply WF_fresh_d; [done|lia].
    + intros o Hin. rewrite lookup_insert_is_Some.
      destruct (decide (next s = o)); [by left|right]. split; [done|]. by apply Hlive.
  - done.
  - intros o Hne. apply WF_view_same; [done|simpl; by rewrite lookup_insert_ne|].
    intros d p Ho Hd. exists p. simpl. rewrite lookup_insert_ne; [done|].
    intros <-. rewrite WF_fresh_d in Hd; [done|done|lia].
  - intros x Hx Hext. split; [done|]. intros d (q & Hq & Hin). simpl in Hq.
    apply lookup_insert_Some in Hq as [[_ <-]|[_ Hq]]; [by apply elem_of_nil in Hin|].
    apply (Hext d). by exists q.
  - done.
  - lia.
Qed.

Lemma Iconset_copy_spec s this d p :
  WF s → iset_o s !! this = Some d → iset_d s !! d = Some p →
  ∃ s' d1 p1, Iconset_copy this s = Some (next s, s')
    ∧ WF s' ∧ iset_frame (next s) s s'
    ∧ iset_o s' = <[next s := d1]> (iset_o s)
    ∧ iset_d s' = <[d1 := p1]> (iset_d s)
    ∧ iset_d s !! d1 = None
    ∧ sp_count p1 = 1 ∧ sp_information p1 = sp_information p
    ∧ iconsets s' = iconsets s
    ∧ icon_counter s' = icon_counter s ∧ fs s' = fs s
    ∧ (∀ x, (x < next s)%nat → icon_view s' x = icon_view s x).
Proof.
  intros HWF Ho Hd. pose proof HWF as [Hok Hobj].
  pose proof (proj1 (objs_ok_maps s) Hobj) as (Hmaps & Hnd & Hlive).
  set (n := next s).
  assert (Hfo : iset_o s !! n = None) by (by apply WF_fresh_o).
  assert (Hfd : iset_d s !! S n = None) by (apply WF_fresh_d; [done|unfold n; lia]).
  destruct (Iconset_new_spec s HWF) as (sA & HrunA & [HokA HobjA] & EA & _).
  fold n in HrunA, EA.
  assert (HdA : iset_d sA !! S n = Some IconsetPrivate_init).
  { rewrite EA. simpl. apply lookup_insert_eq. }
  destruct (IconsetPrivate_delete_spec sA (S n) IconsetPrivate_init HokA HdA)
    as (sB & HrunB & HokB & EdB & _ & VB & B1 & B2 & B3 & B4 & B5 & B6).
  assert (EdB' : iset_d sB = iset_d s).
  { rewrite EdB, EA. simpl. rewrite delete_insert_eq. by apply delete_id. }
  assert (HdB : iset_d sB !! d = Some p) by (by rewrite EdB').
  destruct (IconsetPrivate_new_copy_spec sB d p HokB HdB)
    as (sC & p1 & HrunC & HokC & EdC & Hc1 & Hi1 & VC & LC & C1 & C2 & C3 & C4 & C5 & C6).
  assert (HnB : next sB = S (S n)) by (rewrite B6, EA; done).
  rewrite HnB in *.
  assert (HoB : iset_o sB = <[n := S n]> (iset_o s)) by (rewrite B1, EA; done).
  assert (Hne : this ≠ n) by congruence.
  set (d1 := S (S n)) in *.
  assert (Hfd1 : iset_d s !! d1 = None) by (apply WF_fresh_d; [done|unfold d1, n; lia]).
  exists (set_iset_o <[n := d1]> sC), d1, p1. split.
  { unfold Iconset_copy. rewrite (bind_run _ _ _ _ _ HrunA).
    rewrite (bind_run _ _ _ _ _ (iconset_dptr_run sA n (S n)
               ltac:(rewrite EA; simpl; apply lookup_insert_eq))).
    rewrite (bind_run _ _ _ _ _ HrunB).
    rewrite (bind_run _ _ _ _ _ (iconset_dptr_run sB this d
               ltac:(rewrite HoB; by rewrite lookup_insert_ne))).
    by rewrite (bind_run _ _ _ _ _ HrunC). }
  assert (HvAB : ∀ x, icon_view sB x = icon_view s x).
  { intros x. rewrite VB; [|apply not_elem_of_nil]. by rewrite EA. }
  assert (Hview : ∀ x, (x < n)%nat →
            icon_view (set_iset_o <[n := d1]> sC) x = icon_view s x).
  { intros x Hx. rewrite <- HvAB.
    change (icon_view (set_iset_o <[n := d1]> sC) x) with (icon_view sC x).
    apply VC. lia. }
  assert (EoC : iset_o (set_iset_o <[n := d1]> sC) = <[n := d1]> (iset_o s)).
  { simpl. rewrite C1, HoB. by rewrite insert_insert_eq. }
  assert (EdC' : iset_d (set_iset_o <[n := d1]> sC) = <[d1 := p1]> (iset_d s)).
  { simpl. by rewrite EdC, EdB'. }
  split_and!; [split| split |done|done|done|done|done| | | |done].
  - by apply (heap_ok_same_heaps sC).
  - apply objs_ok_maps. rewrite EoC, EdC'. split_and!.
    + apply (iset_wf_maps_new _ _ (next s)); [done|done|done|done| |]; simpl; lia.
    + change (registry (set_iset_o <[n := d1]> sC)) with (registry sC).
      unfold registry. rewrite C2, B2, EA. done.
    + intros o. change (registry (set_iset_o <[n := d1]> sC)) with (registry sC).
      unfold registry. rewrite C2, B2, EA. simpl. intros Hin.
      rewrite lookup_insert_is_Some. destruct (decide (n = o)); [by left|right].
      split; [done|]. by apply Hlive.
  - intros o Hno. apply WF_view_same; [done|rewrite EoC; by rewrite lookup_insert_ne|].
    intros d0 p0 Ho0 Hd0. exists p0. rewrite EdC'.
    rewrite lookup_insert_ne by congruence. split_and!; [done|done|].
    intros x Hx. apply Hview. apply (heap_ok_owned_lt s d0); [done|]. by exists p0.
  - intros x Hx Hext.
    pose proof (iwf_fresh_o _ _ _ (hok_icons _ Hok) x Hx) as Hlt.
    split; [by apply Hview|].
    intros d0 (q & Hq & Hin). rewrite EdC' in Hq.
    apply lookup_insert_Some in Hq as [[_ <-]|[_ Hq]].
    + specialize (LC x Hin). unfold n in *. lia.
    + apply (Hext d0). by exists q.
  - change (registry (set_iset_o <[n := d1]> sC)) with (registry sC).
    unfold registry. rewrite C2, B2, EA. done.
  - simpl. unfold n in *. lia.
  - simpl. rewrite C2, B2, EA. done.
  - simpl. rewrite C4, B4, EA. done.
  - simpl. rewrite C5, B5, EA. done.
Qed.

Lemma sp_information_count c p : sp_information (sp_set_count c p) = sp_information p.
Proof. done. Qed.

Lemma sp_information_view p q :
  sp_set_count 0 q = sp_set_count 0 p → sp_information q = sp_information p.
Proof.
  intros E. rewrite <- (sp_information_count 0 q), <- (sp_information_count 0 p).
  by rewrite E.
Qed.

(** [detach()] leaves [this] alone on its Private, with the information
    it had; no other Iconset and no external Icon sees a change. *)
Lemma Iconset_detach_spec s this d p :
  WF s → iset_o s !! this = Some d → iset_d s !! d = Some p →
  ∃ s' d' p', Iconset_detach this s = Some (tt, s')
    ∧ WF s' ∧ iset_frame this s s'
    ∧ iset_o s' !! this = Some d' ∧ iset_d s' !! d' = Some p'
    ∧ sp_count p' = 1
    ∧ sp_information p' = sp_information p
    ∧ (sp_count p = 1 → s' = s ∧ d' = d ∧ p' = p)
    ∧ icon_counter s' = icon_counter s ∧ fs s' = fs s
    ∧ (∀ x, (x < next s)%nat → icon_view s' x = icon_view s x).
Proof.
  intros HWF Ho Hd. pose proof HWF as [Hok Hobj].
  pose proof (proj1 (objs_ok_maps s) Hobj) as (Hmaps & Hnd & Hlive).
  unfold Iconset_detach.
  rewrite (bind_run _ _ _ _ _ (Iconset_d_run _ _ _ _ Ho Hd)).
  assert (Hpos : 1 ≤ sp_count p).
  { rewrite (ook_count _ Hobj _ _ Hd). pose proof (refs_pos _ _ _ Ho). lia. }
  destruct (decide (sp_count p > 1)) as [Hc|Hc].
  2:{ exists s, d, p. split; [done|].
      split_and!; [done|apply iset_frame_refl|done|done|lia|done|done|done|done|done]. }
  set (tmp := next s).
  destruct (Iconset_copy_spec s this d p HWF Ho Hd)
    as (sA & d1 & p1 & HrunA & HWFA & HfrA & EoA & EdA & Hfd1 & Hc1 & Hi1 & RA & CA & FA
        & AA).
  fold tmp in HrunA, EoA, HfrA.
  assert (Hne : this ≠ tmp).
  { intros ->. rewrite (WF_fresh_o s tmp HWF) in Ho; [done|unfold tmp; lia]. }
  assert (Hdd : d ≠ d1) by congruence.
  destruct (Iconset_assign_spec sA this tmp d p d1 p1 HWFA (or_introl Hne))
    as (sB & q & HrunB & HWFB & EoB & HqB & Hqv & Hqc & Hold & Hoth & VB & VBthis
        & IB & RB & NB & CB & FB & AB).
  { rewrite EoA. by rewrite lookup_insert_ne. }
  { rewrite EdA. by rewrite lookup_insert_ne. }
  { rewrite EoA. apply lookup_insert_eq. }
  { rewrite EdA. apply lookup_insert_eq. }
  rewrite decide_False in Hqc by done.
  destruct (Iconset_delete_spec sB tmp d1 q HWFB)
    as (sC & HrunC & HWFC & EoC & EdC & RegC & VC & IC & NC & CC & FC & AC).
  { rewrite EoB, lookup_insert_ne by done. rewrite EoA. apply lookup_insert_eq. }
  { done. }
  rewrite decide_False in EdC by lia.
  exists sC, d1, (sp_set_count (sp_count q - 1) q). split.
  { rewrite (bind_run _ _ _ _ _ HrunA). rewrite (bind_run _ _ _ _ _ HrunB). done. }
  assert (Hreg : registry sC = registry s).
  { rewrite RegC. unfold registry at 1. rewrite RB.
    change (default [] (iconsets sA)) with (registry sA).
    rewrite (sfr_registry _ _ _ HfrA). apply filter_all.
    intros o Hin Heq. apply Hlive in Hin as [? Hin]. rewrite Heq in Hin.
    rewrite (WF_fresh_o s tmp HWF) in Hin; [done|unfold tmp; lia]. }
  split_and!; [done|split| | | | | | | |].
  - intros o Hno. destruct (decide (o = tmp)) as [->|Hnt].
    + rewrite !iset_view_None; [done| |].
      * apply WF_fresh_o; [done|unfold tmp; lia].
      * rewrite EoC. apply lookup_delete_eq.
    + rewrite VC, VB by done. by apply (sfr_view _ _ _ HfrA).
  - intros x Hx Hext. destruct (sfr_icons _ _ _ HfrA x Hx Hext) as [V1 X1].
    destruct (IB x X1) as [V2 X2]. destruct (IC x X2) as [V3 X3].
    split; [congruence|done].
  - done.
  - pose proof (sfr_next _ _ _ HfrA). lia.
  - rewrite EoC, lookup_delete_ne by done. rewrite EoB. apply lookup_insert_eq.
  - rewrite EdC. apply lookup_insert_eq.
  - simpl. lia.
  - rewrite sp_information_count, (sp_information_view p1 q) by done. done.
  - lia.
  - congruence.
  - congruence.
  - intros x Hx. rewrite AC by lia. rewrite AB by lia. by apply AA.
Qed.

End IconsetDetach.

Section IconsetMutators.
Context `{AL : AnimLib} `{PF : Platform}.

(** ** The mutators of Iconset *)

Lemma iset_view_live s o :
  objs_ok s → (is_Some (iset_view s o) ↔ is_Some (iset_o s !! o)).
Proof.
  intros Hobj. unfold iset_view. split.
  - destruct (iset_o s !! o); [eauto|]. simpl. by intros [? ?].
  - intros [d Ho]. rewrite Ho. simpl.
    destruct (ook_ptr _ Hobj _ _ Ho) as [p ->]. simpl. eauto.
Qed.

Lemma iset_frame_live_icon this s s' x :
  icon_wf s → iset_frame this s s' →
  is_Some (icon_o s !! x) → external s x →
  is_Some (icon_o s' !! x) ∧ external s' x.
Proof.
  intros Hwf Hfr Hx Hext. destruct (sfr_icons _ _ _ Hfr x Hx Hext) as [Hv Hext'].
  split; [|done]. apply icon_view_is_Some_live. rewrite Hv. by apply icon_view_live.
Qed.

Lemma iset_frame_live_iset this s s' o :
  objs_ok s → objs_ok s' → iset_frame this s s' → o ≠ this →
  is_Some (iset_o s !! o) → is_Some (iset_o s' !! o).
Proof.
  intros Hobj Hobj' Hfr Hne Ho. apply (iset_view_live s' o Hobj').
  rewrite (sfr_view _ _ _ Hfr o Hne). by apply iset_view_live.
Qed.

(** What a member function of the Private of a detached Iconset gives
    for the Iconset. *)
Lemma mutate_finish s s1 this d1 p1 s' p' :
  WF s → WF s1 → iset_frame this s s1 →
  iset_o s1 !! this = Some d1 → iset_d s1 !! d1 = Some p1 → sp_count p1 = 1 →
  priv_at (next s1) d1 s1 p1 s' p' →
  WF s' ∧ iset_frame this s s'
  ∧ iset_o s' !! this = Some d1 ∧ iset_d s' !! d1 = Some p'
  ∧ sp_count p' = 1 ∧ private_ok s' p'.
Proof.
  intros HWF HWF1 Hfr Ho1 Hd1 Hc1 Hat.
  destruct (priv_at_WF s1 this d1 p1 s' p' HWF1 Ho1 Hd1 Hc1 Hat) as [HWF' Hfr'].
  destruct Hat as [Hok' Hd' Hc' Hpf].
  split_and!; [done| | |done| |].
  - eapply iset_frame_trans; [|done|done]. apply (hok_icons _ (proj1 HWF)).
  - by rewrite (pfr_o _ _ _ _ Hpf).
  - congruence.
  - by apply (hok_private _ Hok' d1).
Qed.

Lemma Iconset_removeIcon_spec s this d p name :
  WF s → iset_o s !! this = Some d → iset_d s !! d = Some p →
  ∃ s' d' p', Iconset_removeIcon this name s = Some (tt, s')
    ∧ WF s' ∧ iset_frame this s s'
    ∧ iset_o s' !! this = Some d' ∧ iset_d s' !! d' = Some p'
    ∧ sp_count p' = 1 ∧ private_ok s' p'
    ∧ sp_dict p' !! qs_str name = None
    ∧ sp_information p' = sp_information p.
Proof.
  intros HWF Ho Hd.
  destruct (Iconset_detach_spec s this d p HWF Ho Hd)
    as (s1 & d1 & p1 & Hrun1 & HWF1 & Hfr1 & Ho1 & Hd1 & Hc1 & Hi1 & _).
  destruct (IconsetPrivate_remove_spec (next s1) s1 d1 p1 name (proj1 HWF1) Hd1)
    as (s' & p' & Hrun' & Hat & Hi' & Hdict & _).
  exists s', d1, p'. split.
  { unfold Iconset_removeIcon. rewrite (bind_run _ _ _ _ _ Hrun1).
    by rewrite (bind_run _ _ _ _ _ (iconset_dptr_run _ _ _ Ho1)). }
  destruct (mutate_finish s s1 this d1 p1 s' p' HWF HWF1 Hfr1 Ho1 Hd1 Hc1 Hat)
    as (? & ? & ? & ? & ? & ?).
  split_and!; try done.
  - rewrite Hdict. apply lookup_delete_eq.
  - congruence.
Qed.

Lemma Iconset_clear_spec s this d p :
  WF s → iset_o s !! this = Some d → iset_d s !! d = Some p →
  ∃ s' d' p', Iconset_clear this s = Some (tt, s')
    ∧ WF s' ∧ iset_frame this s s'
    ∧ iset_o s' !! this = Some d' ∧ iset_d s' !! d' = Some p'
    ∧ sp_count p' = 1 ∧ private_ok s' p'
    ∧ sp_dict p' = ∅ ∧ sp_list p' = []
    ∧ sp_information p' = sp_information p.
Proof.
  intros HWF Ho Hd.
  destruct (Iconset_detach_spec s this d p HWF Ho Hd)
    as (s1 & d1 & p1 & Hrun1 & HWF1 & Hfr1 & Ho1 & Hd1 & Hc1 & Hi1 & _).
  destruct (IconsetPrivate_clear_spec (next s1) s1 d1 p1 (proj1 HWF1) Hd1)
    as (s' & Hrun' & Hat & _).
  eexists s', d1, _. split.
  { unfold Iconset_clear. rewrite (bind_run _ _ _ _ _ Hrun1).
    by rewrite (bind_run _ _ _ _ _ (iconset_dptr_run _ _ _ Ho1)). }
  destruct (mutate_finish s s1 this d1 p1 s' _ HWF HWF1 Hfr1 Ho1 Hd1 Hc1 Hat)
    as (? & ? & ? & ? & ? & ?).
  split_and!; try done.
Qed.





End IconsetMutators.

Section IconsetRuns.
Context `{AL : AnimLib} `{PF : Platform}.

(** ** Runs of setIcon, removeIcon, operator+= and clear *)




End IconsetRuns.

Section Factory.
Context `{AL : AnimLib} `{PF : Platform}.

(** ** Looking an icon up in the factory *)

Lemma null_entries_added_refl s : null_entries_added s s.
Proof.
  repeat split. intros d. destruct (iset_d s !! d); by constructor.
Qed.

Lemma null_entries_added_trans s1 s2 s3 :
  null_entries_added s1 s2 → null_entries_added s2 s3 → null_entries_added s1 s3.
Proof.
  intros (A1 & A2 & A3 & A4 & A5 & A6 & A7 & A8 & A9 & A10)
         (B1 & B2 & B3 & B4 & B5 & B6 & B7 & B8 & B9 & B10).
  split_and!; try congruence. intros d.
  specialize (A10 d). specialize (B10 d).
  destruct A10 as [p1 p2 [Ha Ha']|]; inversion B10 as [p2' p3 [Hb Hb']|]; subst;
    constructor.
  split; [congruence|]. intros n. by rewrite Hb', Ha'.
Qed.

Lemma null_entries_added_lookup s s' o name :
  null_entries_added s s' → iconset_lookup s' o name = iconset_lookup s o name.
Proof.
  intros (_ & _ & Eo & _ & _ & _ & _ & _ & _ & Hd). unfold iconset_lookup.
  rewrite Eo. destruct (iset_o s !! o) as [d|]; [|done]. simpl.
  specialize (Hd d). destruct Hd as [p p' [_ Hn]|]; [|done]. simpl. apply Hn.
Qed.

Lemma null_entries_added_first s s' l name :
  null_entries_added s s' → first_icon s' l name = first_icon s l name.
Proof.
  intros Hs. induction l as [|o r IH]; simpl; [done|].
  by rewrite (null_entries_added_lookup s s'), IH.
Qed.

Lemma null_entries_added_live s s' o :
  null_entries_added s s' →
  (∃ d p, iset_o s !! o = Some d ∧ iset_d s !! d = Some p) →
  ∃ d p, iset_o s' !! o = Some d ∧ iset_d s' !! d = Some p.
Proof.
  intros (_ & _ & Eo & _ & _ & _ & _ & _ & _ & Hd) (d & p & Ho & Hp).
  specialize (Hd d). rewrite Hp in Hd. inversion Hd as [? p' _ E1 E2|]; subst.
  exists d, p'. by rewrite Eo.
Qed.

(** [Iconset::icon(name)] gives the Icon held under the name, and may
    add a null entry to the hash. *)
Lemma Iconset_icon_run s o d p name :
  iset_o s !! o = Some d → iset_d s !! d = Some p →
  ∃ s', Iconset_icon o name s = Some (iconset_lookup s o (qs_str name), s')
    ∧ null_entries_added s s'.
Proof.
  intros Ho Hd. unfold Iconset_icon, iconset_lookup.
  rewrite (bind_run _ _ _ _ _ (Iconset_d_run _ _ _ _ Ho Hd)).
  rewrite Ho. simpl. rewrite Hd. simpl.
  destruct (decide (sp_dict p = ∅)) as [He|He].
  - rewrite bool_decide_eq_true_2 by done. rewrite He, lookup_empty. simpl.
    exists s. split; [done|]. apply null_entries_added_refl.
  - rewrite bool_decide_eq_false_2 by done.
    destruct (sp_dict p !! qs_str name) as [i|] eqn:En; simpl.
    + exists s. split; [done|]. apply null_entries_added_refl.
    + rewrite (bind_run _ _ _ _ _ (Iconset_d_update_run _ _ _ _ _ Ho Hd)).
      eexists. split; [done|]. split_and!; try done. intros d'. simpl.
      destruct (decide (d' = d)) as [->|Hne].
      * rewrite lookup_insert_eq, Hd. constructor. split; [done|].
        intros n. simpl. destruct (decide (n = qs_str name)) as [->|Hn].
        -- by rewrite lookup_insert_eq, En.
        -- by rewrite lookup_insert_ne.
      * rewrite lookup_insert_ne by done. destruct (iset_d s !! d'); by constructor.
Qed.

Lemma IconsetFactoryPrivate_icon_loop_run name : ∀ l s,
  (∀ o, o ∈ l → ∃ d p, iset_o s !! o = Some d ∧ iset_d s !! d = Some p) →
  ∃ s', IconsetFactoryPrivate_icon_loop l name s
          = Some (first_icon s l (qs_str name), s')
    ∧ null_entries_added s s'.
Proof.
  induction l as [|o r IH]; intros s Hl; simpl.
  - exists s. split; [done|]. apply null_entries_added_refl.
  - destruct (Hl o) as (d & p & Ho & Hd); [set_solver|].
    destruct (Iconset_icon_run s o d p name Ho Hd) as (s1 & Hrun1 & Hs1).
    rewrite (bind_run _ _ _ _ _ Hrun1).
    destruct (iconset_lookup s o (qs_str name)) as [a|].
    + by exists s1.
    + destruct (IH s1) as (s' & Hrun' & Hs').
      { intros o' Ho'. apply (null_entries_added_live s s1); [done|].
        apply Hl. set_solver. }
      exists s'. rewrite Hrun'. split.
      * by rewrite (null_entries_added_first s s1).
      * by eapply null_entries_added_trans.
Qed.

Lemma IconsetFactory_iconPtr_run s name :
  objs_ok s →
  ∃ s', IconsetFactory_iconPtr name s = Some (factory_lookup s (qs_str name), s')
    ∧ null_entries_added s s'.
Proof.
  intros Hobj. unfold IconsetFactory_iconPtr, IconsetFactoryPrivate_icon, factory_lookup.
  unfold registry in *. mrun.
  destruct (iconsets s) as [l|] eqn:El; simpl.
  - apply IconsetFactoryPrivate_icon_loop_run. intros o Ho.
    destruct (ook_registry_live _ Hobj o) as [d Hd].
    { unfold registry. by rewrite El. }
    destruct (ook_ptr _ Hobj _ _ Hd) as [p Hp]. by exists d, p.
  - exists s. split; [done|]. apply null_entries_added_refl.
Qed.

(** An Icon found by the factory is in the list of a registered Iconset,
    hence exists. *)
Lemma first_icon_live s l name a :
  heap_ok s → first_icon s l name = Some a →
  ∃ o d p, o ∈ l ∧ iset_o s !! o = Some d ∧ iset_d s !! d = Some p
    ∧ sp_dict p !! name = Some (Some a) ∧ is_Some (icon_o s !! a).
Proof.
  intros Hok. induction l as [|o r IH]; simpl; [done|].
  destruct (iconset_lookup s o name) as [b|] eqn:E.
  - intros [= ->]. unfold iconset_lookup in E.
    destruct (iset_o s !! o) as [d|] eqn:Ho; [|done]. simpl in E.
    destruct (iset_d s !! d) as [p|] eqn:Hd; [|done]. simpl in E.
    destruct (sp_dict p !! name) as [[c|]|] eqn:En; simpl in E; try done.
    injection E as ->. exists o, d, p. split_and!; [set_solver|done|done|done|].
    pose proof (hok_private _ Hok _ _ Hd) as Hp.
    apply (pok_live _ _ Hp). by apply (pok_dict_list _ _ Hp name).
  - intros Hf. destruct (IH Hf) as (o' & d & p & ? & ? & ? & ? & ?).
    exists o', d, p. split_and!; try done. set_solver.
Qed.

(** C1: the lookup of the factory.  [iconPtr(name)] gives the first Icon
    that a registered Iconset holds under [name], going through the
    registry in the order of registration, and a null pointer when none
    holds one; [icon(name)] gives a new Icon that is a copy of that one
    (it shares its data), and a default-constructed Icon when there is
    none.  No existing Icon is changed. *)
Theorem factory_icon_first_match s name :
  WF s →
  (∃ s1, IconsetFactory_iconPtr name s = Some (factory_lookup s (qs_str name), s1)
     ∧ null_entries_added s s1)
  ∧ (∃ s2, IconsetFactory_icon name s = Some (next s, s2)
       ∧ icon_o s !! next s = None
       ∧ match factory_lookup s (qs_str name) with
         | Some a => is_Some (icon_o s !! a)
                     ∧ icon_o s2 !! next s = icon_o s !! a
                     ∧ icon_view s2 (next s) = icon_view s a
         | None => icon_view s2 (next s) = Some (ip_set_count 0 IconPrivate_init)
         end
       ∧ ∀ x, x ≠ next s → icon_view s2 x = icon_view s x).
Proof.
  intros [Hok Hobj]. pose proof (hok_icons _ Hok) as Hwf.
  destruct (IconsetFactory_iconPtr_run s name Hobj) as (s1 & Hrun1 & Hs1).
  split; [by exists s1|].
  pose proof Hs1 as (E1 & E2 & _ & _ & _ & _ & _ & _ & E9 & _).
  assert (Hwf1 : icon_wf s1) by (unfold icon_wf; by rewrite E1, E2, E9).
  assert (Hv1 : ∀ x, icon_view s1 x = icon_view s x).
  { intros x. unfold icon_view. by rewrite E1, E2. }
  unfold IconsetFactory_icon. rewrite (bind_run _ _ _ _ _ Hrun1).
  assert (Hfresh : icon_o s !! next s = None) by (by apply icon_wf_fresh_o).
  destruct (factory_lookup s (qs_str name)) as [a|] eqn:Ef.
  - destruct (first_icon_live s _ _ a Hok Ef) as (_ & _ & _ & _ & _ & _ & _ & [d Hd]).
    destruct (icon_wf_ptr s a d Hwf Hd) as [p Hp].
    destruct (Icon_new_copy_spec s1 a d p Hwf1) as (s2 & Hrun2 & _ & Hfr & Ho2 & Hd2 & _);
      [by rewrite E2|by rewrite E1|].
    rewrite E9 in *. exists s2. split; [done|]. split_and!; [done|eauto| | |].
    + by rewrite Ho2, Hd.
    + rewrite (icon_view_Some s2 _ d _ Ho2 Hd2), (icon_view_Some s a d p Hd Hp). done.
    + intros x Hx. rewrite (ifr_view _ _ _ Hfr); [apply Hv1|congruence].
  - destruct (Icon_new_spec s1 Hwf1) as (s2 & Hrun2 & _ & Hfr & (Ho2 & Hd2 & _) & _).
    rewrite E9 in *. exists s2. split; [done|]. split_and!; [done| |].
    + by rewrite (icon_view_Some s2 _ _ _ Ho2 Hd2).
    + intros x Hx. rewrite (ifr_view _ _ _ Hfr); [apply Hv1|congruence].
Qed.

End Factory.

Section LoadIcon.
Context `{AL : AnimLib} `{PF : Platform}.

(** ** loadIcon *)

Lemma temp_lookup N d icon s0 p s :
  temp_at N d icon s0 p s →
  ∃ dx px, icon_o s !! icon = Some dx ∧ icon_d s !! dx = Some px ∧ icon_wf s
    ∧ ip_count px = 1.
Proof.
  intros [[Hok _ _ _] [dx Hdx] _ _ Hal]. pose proof (hok_icons _ Hok) as Hwf.
  destruct (icon_wf_ptr s icon dx Hwf Hdx) as [px Hpx]. exists dx, px.
  split_and!; [done|done|done|]. by eapply Hal.
Qed.

(** A detaching mutator of the local Icon. *)
Lemma temp_step N d icon s0 p s s' dx px :
  temp_at N d icon s0 p s → icon_at True icon s s' dx px →
  temp_at N d icon s0 p s'.
Proof.
  intros [Hat Hlive Hext HN Hal] [Hwf' Ho' Hd' Hk Hr _].
  destruct (Hk I) as [Hc Hfr]. pose proof Hat as [Hok Hp _ _].
  pose proof Hr as (E1 & _).
  split; [|eauto| |done|].
  - eapply priv_at_step; [exact Hat| | |done|].
    + eapply (heap_ok_icon_step icon); [exact Hok|done|done|]. left. eauto.
    + by rewrite E1.
    + apply (priv_frame_of_icon_frame _ _ (eq icon)); [done|]. intros ? <-. by left.
  - by apply (external_same s s').
  - intros dx' px' E E'. congruence.
Qed.

(** A change outside the heaps. *)
Lemma temp_same_heaps N d icon s0 p s s' :
  icon_d s' = icon_d s → icon_o s' = icon_o s → iset_d s' = iset_d s →
  iset_o s' = iset_o s → iconsets s' = iconsets s →
  emptyPixmap s' = emptyPixmap s → next s' = next s →
  temp_at N d icon s0 p s → temp_at N d icon s0 p s'.
Proof.
  intros E1 E2 E3 E4 E5 E6 E7 [Hat Hlive Hext HN Hal]. pose proof Hat as [Hok Hp _ _].
  split; [|by rewrite E2| |done|].
  - eapply priv_at_step; [exact Hat| | |done|].
    + by apply (heap_ok_same_heaps s).
    + by rewrite E3.
    + by apply priv_frame_same_heaps.
  - by apply (external_same s s').
  - rewrite E1, E2. apply Hal.
Qed.

(** [loadData] reads the file system and leaves the state as it is. *)
Lemma IconsetPrivate_loadData_total fileName dir s :
  ∃ ba, IconsetPrivate_loadData fileName dir s = Some (ba, s).
Proof.
  unfold IconsetPrivate_loadData. mrun.
  repeat match goal with |- context [if ?b then _ else _] => destruct b end;
    by eexists.
Qed.

Lemma IconsetPrivate_loadData_fs fileName dir s s' ba :
  fs s' = fs s →
  IconsetPrivate_loadData fileName dir s = Some (ba, s) →
  IconsetPrivate_loadData fileName dir s' = Some (ba, s').
Proof.
  unfold IconsetPrivate_loadData. mrun. intros ->.
  repeat match goal with |- context [if ?b then _ else _] => destruct b end;
    by intros [= ->].
Qed.

(** The loop over the graphic formats. *)
Lemma loadIcon_graphics_spec N d icon s0 p dir graphic isImage :
  ∀ mimes isAnimated loadSuccess s,
  temp_at N d icon s0 p s →
  ∃ b s', loadIcon_graphics icon dir graphic isImage mimes isAnimated loadSuccess s
            = Some (b, s')
    ∧ temp_at N d icon s0 p s'
    ∧ icon_counter s' = icon_counter s.
Proof.
  induction mimes as [|m rest IH]; intros isAnimated loadSuccess s Ht; simpl.
  - by exists loadSuccess, s.
  - destruct (graphic !! m) as [file|]; [|by apply IH].
    destruct (qs_isNull file); simpl; [by apply IH|].
    destruct (IconsetPrivate_loadData_total file dir s) as [ba Hba].
    rewrite (bind_run _ _ _ _ _ Hba).
    destruct (temp_lookup _ _ _ _ _ _ Ht) as (dx & px & Ho & Hd & Hwf & _).
    match goal with |- context [Icon_loadFromData icon ba ?a] =>
      destruct (Icon_loadFromData_at icon s dx px ba a Hwf Ho Hd)
        as (r & s1 & d1 & p1 & Hrun & Hat & _) end.
    rewrite (bind_run _ _ _ _ _ Hrun).
    pose proof (temp_step _ _ _ _ _ _ _ _ _ Ht Hat) as Ht1.
    pose proof (iat_rest _ _ _ _ _ _ Hat) as (_ & _ & _ & _ & Ec & _).
    destruct r.
    + exists true, s1. done.
    + match goal with |- context [loadIcon_graphics _ _ _ _ _ ?a false s1] =>
        destruct (IH a false s1 Ht1) as (b & s' & Hrun' & Ht' & Ec') end.
      exists b, s'. split; [done|]. split; [done|congruence].
Qed.

Lemma modify_run (f : State → State) s : modify f s = Some (tt, f s).
Proof. done. Qed.

(** The global object of the sounds is created when it is first used. *)
Lemma shared_object_run {A} (k : QString → M A) s :
  (o ← gets iconSharedObject;
   when (bool_decide (o = None)) (modify (set_iconSharedObject (Some QNull)));;
   o ← gets iconSharedObject;
   path ← some_or_undefined o;
   k path) s
  = k (default QNull (iconSharedObject s))
      (if iconSharedObject s is None then set_iconSharedObject (Some QNull) s else s).
Proof.
  mrun. destruct (iconSharedObject s) as [q|] eqn:E; simpl.
  - rewrite ?bool_decide_eq_false_2 by done. simpl. by rewrite ?E.
  - rewrite ?bool_decide_eq_true_2 by done. done.
Qed.

(** The loop over the sound formats. *)
Lemma loadIcon_sounds_spec N d icon s0 p dir sound isDir absFilePath :
  ∀ mimes s,
  temp_at N d icon s0 p s →
  ∃ s', loadIcon_sounds icon dir sound isDir absFilePath mimes s = Some (tt, s')
    ∧ temp_at N d icon s0 p s'
    ∧ icon_counter s' = icon_counter s.
Proof.
  induction mimes as [|m rest IH]; intros s Ht; simpl.
  - by exists s.
  - destruct (sound !! m) as [file|]; [|by apply IH].
    destruct (qs_isNull file); simpl; [by apply IH|].
    destruct isDir; simpl.
    + destruct (temp_lookup _ _ _ _ _ _ Ht) as (dx & px & Ho & Hd & Hwf & _).
      match goal with |- context [Icon_setSound icon ?a] =>
        destruct (Icon_setSound_at icon s dx px a Hwf Ho Hd)
          as (s1 & d1 & p1 & Hrun & Hat) end.
      exists s1. split; [done|]. split; [by eapply temp_step|].
      by pose proof (iat_rest _ _ _ _ _ _ Hat) as (_ & _ & _ & _ & Ec & _).
    + rewrite shared_object_run.
      set (path := default QNull (iconSharedObject s)).
      set (s1 := if iconSharedObject s is None
                 then set_iconSharedObject (Some QNull) s else s).
      assert (Ht1 : temp_at N d icon s0 p s1).
      { unfold s1. destruct (iconSharedObject s); [done|].
        by apply (temp_same_heaps _ _ _ _ _ s). }
      assert (Ec1 : icon_counter s1 = icon_counter s).
      { unfold s1. by destruct (iconSharedObject s). }
      destruct (qs_isEmpty path); [by exists s1|].
      destruct qca_sha1_supported; simpl.
      2:{ destruct (IH s1 Ht1) as (s' & Hrun & Ht' & Ec').
          exists s'. split; [done|]. split; [done|congruence]. }
      rewrite (bind_run _ _ _ _ _ (modify_run _ _)).
      cbv beta.
      match goal with |- context [(IconsetPrivate_loadData file dir ≫= _) ?st] =>
        set (s2 := st);
        destruct (IconsetPrivate_loadData_total file dir s2) as [data Hdata] end.
      rewrite (bind_run _ _ _ _ _ Hdata).
      rewrite (bind_run _ _ _ _ _ (modify_run _ _)). cbv beta.
      match goal with |- context [Icon_setSound icon ?a ?st] =>
        set (s3 := st);
        assert (Ht3 : temp_at N d icon s0 p s3)
          by (by apply (temp_same_heaps _ _ _ _ _ s1));
        destruct (temp_lookup _ _ _ _ _ _ Ht3) as (dx & px & Ho & Hd & Hwf & _);
        destruct (Icon_setSound_at icon s3 dx px a Hwf Ho Hd)
          as (s4 & d4 & p4 & Hrun & Hat)
      end.
      exists s4. split; [done|]. split; [by eapply temp_step|].
      pose proof (iat_rest _ _ _ _ _ _ Hat) as (_ & _ & _ & _ & Ec & _).
      rewrite Ec. unfold s3, s2. simpl. done.
Qed.

Lemma gets_run {A} (f : State → A) s : gets f s = Some (f s, s).
Proof. done. Qed.

(** [blockSignals] on the local Icon. *)
Lemma temp_blockSignals N d icon s0 p s b :
  temp_at N d icon s0 p s →
  ∃ r s', Icon_blockSignals icon b s = Some (r, s')
    ∧ temp_at N d icon s0 p s' ∧ icon_counter s' = icon_counter s.
Proof.
  intros Ht. destruct (temp_lookup _ _ _ _ _ _ Ht) as (dx & px & Ho & Hd & Hwf & Hc).
  destruct (Icon_blockSignals_at icon s dx px b Hwf Ho Hd) as (r & s' & Hrun & Hat).
  exists r, s'. split; [done|].
  pose proof (iat_rest _ _ _ _ _ _ Hat) as (_ & _ & _ & _ & Ec & _).
  split; [|done]. eapply temp_step; [done|].
  eapply icon_at_weaken; [|exact Hat]. done.
Qed.

Lemma IconsetPrivate_loadIcon_spec N s d p i dir :
  heap_ok s → iset_d s !! d = Some p → (N ≤ next s)%nat →
  icon_counter s < INT_MAX →
  ∃ b s' p', IconsetPrivate_loadIcon d i dir s = Some (b, s')
    ∧ priv_at N d s p s' p'
    ∧ sp_information p' = sp_information p
    ∧ icon_counter s' = icon_counter s + 1.
Proof.
  intros Hok Hp HN Hcnt. pose proof (hok_icons _ Hok) as Hwf.
  unfold IconsetPrivate_loadIcon. set (icon := next s).
  (* the local Icon *)
  destruct (Icon_new_spec s Hwf) as (s1 & Hrun1 & Hwf1 & Hfr1 & (Ho1 & Hd1 & Hc1) & Hn1 & _).
  fold icon in Hrun1, Hfr1, Ho1, Hd1.
  rewrite (bind_run _ _ _ _ _ Hrun1).
  pose proof Hfr1 as [_ (E1 & _ & _ & _ & Ec1 & _) _].
  assert (Ht1 : temp_at N d icon s p s1).
  { split; [|eauto| |done|].
    - eapply (priv_at_step _ _ _ _ s p); [by apply priv_at_refl| | |done|].
      + eapply (heap_ok_icon_step icon); [exact Hok|done|done|]. left. eauto.
      + by rewrite E1.
      + apply (priv_frame_of_icon_frame _ _ (eq icon)); [done|]. intros ? <-. by left.
    - apply (external_same s s1); [done|]. by apply heap_ok_fresh_external.
    - intros dx px E E'. rewrite Ho1 in E. injection E as <-. congruence. }
  destruct (temp_blockSignals _ _ _ _ _ _ true Ht1) as (r2 & s2 & Hrun2 & Ht2 & Ec2).
  rewrite (bind_run _ _ _ _ _ Hrun2).
  (* the counter *)
  rewrite (bind_run _ _ _ _ _ (gets_run _ _)).
  assert (Ecnt : icon_counter s2 = icon_counter s) by congruence.
  unfold int_incr. rewrite decide_True by lia.
  rewrite (bind_run (some_or_undefined _) _ s2 (icon_counter s2 + 1) s2) by done.
  rewrite (bind_run _ _ _ _ _ (modify_run _ _)).
  set (s3 := set_icon_counter (icon_counter s2 + 1) s2).
  assert (Ht3 : temp_at N d icon s p s3) by (by apply (temp_same_heaps _ _ _ _ _ s2)).
  cbv zeta.
  set (a := fold_left loadIcon_node (dom_children i) _).
  (* text and name *)
  destruct (temp_lookup _ _ _ _ _ _ Ht3) as (dx3 & px3 & Ho3 & Hd3 & Hwf3 & _).
  destruct (Icon_setText_at icon s3 dx3 px3 (id_text a) Hwf3 Ho3 Hd3)
    as (s4 & d4 & p4 & Hrun4 & Hat4).
  rewrite (bind_run _ _ _ _ _ Hrun4).
  pose proof (temp_step _ _ _ _ _ _ _ _ _ Ht3 Hat4) as Ht4.
  pose proof (iat_rest _ _ _ _ _ _ Hat4) as (_ & _ & _ & _ & Ec4 & _).
  destruct (Icon_setName_at icon s4 d4 p4 (id_name a)
              (iat_wf _ _ _ _ _ _ Hat4) (iat_o _ _ _ _ _ _ Hat4) (iat_d _ _ _ _ _ _ Hat4))
    as (s5 & d5 & p5 & Hrun5 & Hat5 & _).
  rewrite (bind_run _ _ _ _ _ Hrun5).
  pose proof (temp_step _ _ _ _ _ _ _ _ _ Ht4 Hat5) as Ht5.
  pose proof (iat_rest _ _ _ _ _ _ Hat5) as (_ & _ & _ & _ & Ec5 & _).
  (* graphics and sounds *)
  match goal with |- context [loadIcon_graphics icon dir ?g ?im ?ms ?an ?ls] =>
    destruct (loadIcon_graphics_spec N d icon s p dir g im ms an ls s5 Ht5)
      as (loadSuccess & s6 & Hrun6 & Ht6 & Ec6) end.
  rewrite (bind_run _ _ _ _ _ Hrun6).
  rewrite (bind_run _ _ _ _ _ (gets_run _ _)).
  match goal with |- context [loadIcon_sounds icon dir ?g ?isd ?ab ?ms] =>
    destruct (loadIcon_sounds_spec N d icon s p dir g isd ab ms s6 Ht6)
      as (s7 & Hrun7 & Ht7 & Ec7) end.
  rewrite (bind_run _ _ _ _ _ Hrun7).
  (* the pattern *)
  assert (∃ s8, when (negb (bool_decide (length (id_text a) = 0%nat)))
                  (Icon_setRegExp icon (regExp_fromPattern (loadIcon_regexp (id_text a)))) s7
                = Some (tt, s8)
            ∧ temp_at N d icon s p s8 ∧ icon_counter s8 = icon_counter s7)
    as (s8 & Hrun8 & Ht8 & Ec8).
  { unfold when. destruct (negb (bool_decide (length (id_text a) = 0%nat)));
      [|by exists s7].
    destruct (temp_lookup _ _ _ _ _ _ Ht7) as (dx & px & Ho & Hd & Hwf7 & _).
    destruct (Icon_setRegExp_at icon s7 dx px
                (regExp_fromPattern (loadIcon_regexp (id_text a))) Hwf7 Ho Hd)
      as (s8 & d8 & p8 & Hrun8 & Hat8).
    exists s8. split; [done|]. split; [by eapply temp_step|].
    by pose proof (iat_rest _ _ _ _ _ _ Hat8) as (_ & _ & _ & _ & Ec & _). }
  rewrite (bind_run _ _ _ _ _ Hrun8).
  destruct (temp_blockSignals _ _ _ _ _ _ false Ht8) as (r9 & s9 & Hrun9 & Ht9 & Ec9).
  rewrite (bind_run _ _ _ _ _ Hrun9).
  assert (Ecount9 : icon_counter s9 = icon_counter s + 1).
  { rewrite Ec9, Ec8, Ec7, Ec6, Ec5, Ec4. unfold s3. simpl. lia. }
  (* the Icon is handed to the iconset *)
  assert (∃ s10 p10, when loadSuccess
                       (n ← Icon_new_copy icon; IconsetPrivate_append d (id_name a) n) s9
                     = Some (tt, s10)
            ∧ priv_at N d s p s10 p10
            ∧ sp_information p10 = sp_information p
            ∧ is_Some (icon_o s10 !! icon) ∧ external s10 icon
            ∧ icon_counter s10 = icon_counter s9)
    as (s10 & p10 & Hrun10 & Hat10 & Hi10 & Hlive10 & Hext10 & Ec10).
  { destruct Ht9 as [Hat9 Hlive9 Hext9 _ _]. unfold when. destruct loadSuccess.
    2:{ by exists s9, p. }
    pose proof Hat9 as [Hok9 Hp9 _ Hpf9]. pose proof (hok_icons _ Hok9) as Hwf9.
    destruct Hlive9 as [dx Ho9]. destruct (icon_wf_ptr s9 icon dx Hwf9 Ho9) as [px Hd9].
    destruct (Icon_new_copy_spec s9 icon dx px Hwf9 Ho9 Hd9)
      as (sA & HrunA & HwfA & HfrA & HoA & HdA & HnA & _).
    rewrite (bind_run _ _ _ _ _ HrunA).
    pose proof HfrA as [VA (EA1 & _ & _ & _ & EcA & _) _].
    set (n := next s9) in *.
    assert (HNn : (N ≤ n)%nat) by (pose proof (pfr_next _ _ _ _ Hpf9); unfold n; lia).
    assert (Hneq : icon ≠ n).
    { pose proof (iwf_fresh_o _ _ _ Hwf9 icon ltac:(eauto)). unfold n. lia. }
    assert (HokA : heap_ok sA).
    { eapply (heap_ok_icon_step n); [exact Hok9|done|done|]. left. eauto. }
    assert (HpA : iset_d sA !! d = Some p) by (by rewrite EA1).
    assert (HextA : external sA n).
    { apply (external_same s9 sA); [done|]. by apply heap_ok_fresh_external. }
    destruct (IconsetPrivate_append_spec N sA d p (id_name a) n HokA HpA
                ltac:(eauto) HextA HNn)
      as (sB & pB & HrunB & HatB & HiB & _ & HlistB & _ & VB & EcB & _).
    exists sB, pB. split; [done|].
    assert (Hnot : sp_dict p !! qs_str (id_name a) ≠ Some (Some icon)).
    { intros E. apply (Hext9 d). exists p. split; [done|].
      by eapply (pok_dict_list _ _ (hok_private _ Hok9 _ _ Hp9)). }
    pose proof HatB as [HokB HpB _ HpfB].
    split_and!; [|done| | |congruence].
    - eapply priv_at_trans; [|exact HatB].
      eapply priv_at_step; [exact Hat9|done|done|done|].
      apply (priv_frame_of_icon_frame _ _ (eq n)); [done|]. intros ? <-. by left.
    - apply (icon_view_live_same s9 sB); [done|apply (hok_icons _ HokB)| |eauto].
      rewrite (VB icon Hnot). apply VA. done.
    - intros d0 Hown. destruct (decide (d0 = d)) as [->|Hne].
      + destruct Hown as (q & Hq & Hin). rewrite HpB in Hq. injection Hq as <-.
        rewrite HlistB in Hin. apply elem_of_app in Hin as [Hin|Hin].
        * apply (Hext9 d). exists p. split; [done|].
          destruct (sp_dict p !! qs_str (id_name a)) as [[a0|]|]; [|done|done].
          apply list_elem_of_filter in Hin. tauto.
        * apply list_elem_of_singleton in Hin. done.
      + apply (Hext9 d0). destruct Hown as (q & Hq & Hin).
        rewrite (pfr_d _ _ _ _ HpfB) in Hq by done. rewrite EA1 in Hq. by exists q. }
  rewrite (bind_run _ _ _ _ _ Hrun10).
  (* the local Icon goes *)
  pose proof Hat10 as [Hok10 Hp10 _ _]. pose proof (hok_icons _ Hok10) as Hwf10.
  destruct Hlive10 as [dx Ho10]. destruct (icon_wf_ptr s10 icon dx Hwf10 Ho10) as [px Hd10].
  destruct (Icon_delete_spec s10 icon dx px Hwf10 Ho10 Hd10)
    as (s11 & Hrun11 & Hwf11 & Hfr11 & _ & _ & _).
  rewrite (bind_run _ _ _ _ _ Hrun11).
  pose proof Hfr11 as [_ (EB1 & _ & _ & _ & Ec11 & _) _].
  exists loadSuccess, s11, p10. split; [done|].
  split_and!; [|done|congruence].
  eapply priv_at_step; [exact Hat10| | |done|].
  - eapply (heap_ok_icon_step icon); [exact Hok10|done|done|]. by right.
  - by rewrite EB1.
  - apply (priv_frame_of_icon_frame _ _ (eq icon)); [done|]. intros ? <-. left.
    unfold icon. done.
Qed.

End LoadIcon.

Section Load.
Context `{AL : AnimLib} `{PF : Platform}.

(** ** load *)

(** Writing the information of a Private. *)
Lemma update_information_priv_at N s d p i :
  heap_ok s → iset_d s !! d = Some p →
  priv_at N d s p (set_iset_d <[d := sp_set_information i p]> s)
    (sp_set_information i p).
Proof.
  intros Hok Hd.
  eapply (priv_at_step _ _ _ _ s p); [by apply priv_at_refl| | |done|].
  - apply (heap_ok_update_private s d p); [done|done| |].
    + apply (private_ok_same_content s p); [done|done|]. by apply (hok_private _ Hok d).
    + intros x Hx. by left.
  - simpl. apply lookup_insert_eq.
  - apply (priv_frame_update_private _ s d p); [done|]. intros x Hx. by left.
Qed.

Lemma IconsetPrivate_loadMeta_spec N s d p meta dir :
  heap_ok s → iset_d s !! d = Some p →
  ∃ s' p', IconsetPrivate_loadMeta d meta dir s = Some (tt, s')
    ∧ priv_at N d s p s' p'
    ∧ sp_filename p' = sp_filename p
    ∧ icon_counter s' = icon_counter s.
Proof.
  intros Hok Hd. unfold IconsetPrivate_loadMeta.
  destruct (IconsetPrivate_loadMeta_run (dom_children meta) s d p Hd)
    as (s' & Hrun & Hd' & (E1 & E2 & E3 & E4 & E5 & E6 & E7 & E8 & E9)).
  set (i := fold_left loadMeta_node (dom_children meta) (sp_information p)) in *.
  exists s', (sp_set_information i p). split; [done|].
  pose proof (update_information_priv_at N s d p i Hok Hd) as [Hok1 Hd1 Hc1 Hfr1].
  split_and!; [|apply loadMeta_fold_filename|done].
  eapply (priv_at_step _ _ _ _ s p); [by apply priv_at_refl| | |done|].
  - apply (heap_ok_same_heaps (set_iset_d <[d := sp_set_information i p]> s));
      [done|done|by rewrite Hd'|done|done].
  - rewrite Hd'. apply lookup_insert_eq.
  - eapply priv_frame_trans; [exact Hfr1|].
    by apply priv_frame_same_heaps.
Qed.

Lemma is_tagged_eqb tag n :
  dom_isElement n = true →
  qs_eqb (dom_tagName n) (QStr tag) = bool_decide (is_tagged tag n).
Proof. apply qs_eqb_tag. Qed.

(** A child that is no element tagged "icon" leaves the result of the
    loop as it is. *)
Lemma IconsetPrivate_load_node_other N s d p dir node :
  heap_ok s → iset_d s !! d = Some p → ¬ is_tagged "icon" node →
  ∃ s' p', (∀ success,
              IconsetPrivate_load_node d dir success node s = Some (success, s'))
    ∧ priv_at N d s p s' p'
    ∧ sp_filename p' = sp_filename p
    ∧ icon_counter s' = icon_counter s.
Proof.
  intros Hok Hd Hni. unfold IconsetPrivate_load_node.
  destruct (dom_isElement node) eqn:He; simpl.
  2:{ exists s, p. split; [done|]. split; [by apply priv_at_refl|done]. }
  rewrite !(qs_eqb_tag node) by done.
  rewrite (bool_decide_eq_false_2 (is_tagged "icon" node)) by done.
  destruct (decide (is_tagged "meta" node)) as [Hm|Hm].
  - rewrite bool_decide_eq_true_2 by done.
    destruct (IconsetPrivate_loadMeta_spec N s d p node dir Hok Hd)
      as (s' & p' & Hrun & Hat & Hf & Hc).
    exists s', p'. split; [|done]. intros success.
    by rewrite (bind_run _ _ _ _ _ Hrun).
  - rewrite bool_decide_eq_false_2 by done.
    destruct (decide (is_tagged "x" node)) as [Hx|Hx].
    + rewrite bool_decide_eq_true_2 by done.
      eexists _, _. split; [|split].
      * intros success.
        by rewrite (bind_run _ _ _ _ _ (IconsetPrivate_update_run _ _ _ _ Hd)).
      * by apply update_information_priv_at.
      * done.
    + rewrite bool_decide_eq_false_2 by done.
      exists s, p. split; [done|]. split; [by apply priv_at_refl|done].
Qed.

Lemma IconsetPrivate_load_node_icon s d dir success node :
  is_tagged "icon" node →
  IconsetPrivate_load_node d dir success node s
  = (ret ← IconsetPrivate_loadIcon d node dir;
     mret (if negb ret then false else success)) s.
Proof.
  intros [He Ht]. unfold IconsetPrivate_load_node. rewrite He. simpl.
  unfold qs_eqb. simpl. rewrite Ht. done.
Qed.

(** The loop of [load]: its result is the conjunction of the results of
    [loadIcon] for the children tagged "icon". *)
Lemma IconsetPrivate_load_loop_spec N d dir : ∀ nodes success s p,
  heap_ok s → iset_d s !! d = Some p → (N ≤ next s)%nat →
  icon_counter s + Z.of_nat (length nodes) ≤ INT_MAX →
  ∃ rs s' p', IconsetPrivate_load_loop d dir nodes success s
                = Some (success && forallb id rs, s')
    ∧ IconsetPrivate_load_icons d dir nodes s = Some (rs, s')
    ∧ priv_at N d s p s' p'
    ∧ sp_filename p' = sp_filename p.
Proof.
  induction nodes as [|node rest IH]; intros success s p Hok Hd HN Hc; simpl.
  - exists [], s, p. rewrite andb_true_r. split_and!; [done|done|by apply priv_at_refl|done].
  - simpl in Hc. destruct (decide (is_tagged "icon" node)) as [Hi|Hi].
    + rewrite bool_decide_eq_true_2 by done.
      destruct (IconsetPrivate_loadIcon_spec N s d p node dir Hok Hd HN ltac:(lia))
        as (b & s1 & p1 & Hrun1 & Hat1 & Hi1 & Hc1).
      pose proof Hat1 as [Hok1 Hd1 _ Hfr1].
      destruct (IH (if negb b then false else success) s1 p1 Hok1 Hd1)
        as (rs & s' & p' & Hrun' & Hic' & Hat' & Hf');
        [pose proof (pfr_next _ _ _ _ Hfr1); lia|lia|].
      exists (b :: rs), s', p'. split_and!.
      * rewrite (bind_run _ _ _ _ _
                  (eq_trans (IconsetPrivate_load_node_icon s d dir success node Hi)
                            (bind_run _ _ _ _ _ Hrun1))).
        rewrite Hrun'. simpl. by destruct b, success.
      * rewrite (bind_run _ _ _ _ _ Hrun1). by rewrite (bind_run _ _ _ _ _ Hic').
      * by eapply priv_at_trans.
      * rewrite Hf'. by apply (f_equal si_filename) in Hi1.
    + rewrite bool_decide_eq_false_2 by done.
      destruct (IconsetPrivate_load_node_other N s d p dir node Hok Hd Hi)
        as (s1 & p1 & Hrun1 & Hat1 & Hf1 & Hc1).
      pose proof Hat1 as [Hok1 Hd1 _ Hfr1].
      destruct (IH success s1 p1 Hok1 Hd1)
        as (rs & s' & p' & Hrun' & Hic' & Hat' & Hf');
        [pose proof (pfr_next _ _ _ _ Hfr1); lia|lia|].
      exists rs, s', p'. split_and!.
      * by rewrite (bind_run _ _ _ _ _ (Hrun1 success)).
      * by rewrite (bind_run _ _ _ _ _ (Hrun1 true)).
      * by eapply priv_at_trans.
      * congruence.
Qed.

Lemma forallb_id_Forall (rs : list bool) :
  forallb id rs = true ↔ Forall (λ b, b = true) rs.
Proof.
  induction rs as [|b rs IH]; simpl.
  - split; [constructor|done].
  - rewrite andb_true_iff, Forall_cons, IH. done.
Qed.

Lemma Iconset_load_spec s this d p dir ba :
  WF s → iset_o s !! this = Some d → iset_d s !! d = Some p →
  IconsetPrivate_loadData (QStr "icondef.xml") dir s = Some (ba, s) →
  (∀ doc, dom_setContent ba = Some doc →
     icon_counter s + Z.of_nat (length (dom_children (documentElement doc))) ≤ INT_MAX) →
  ∃ r s' s1 d1 p',
    Iconset_load this dir s = Some (r, s')
    ∧ Iconset_detach this s = Some (tt, s1) ∧ iset_o s1 !! this = Some d1
    ∧ WF s' ∧ iset_frame this s s'
    ∧ iset_o s' !! this = Some d1 ∧ iset_d s' !! d1 = Some p'
    ∧ sp_filename p' = (if r then dir else sp_filename p)
    ∧ (r = true ↔
         ba ≠ [] ∧ ∃ doc rs s2,
           dom_setContent ba = Some doc
           ∧ qs_str (dom_tagName (documentElement doc)) = "icondef"%string
           ∧ IconsetPrivate_load_icons d1 dir (dom_children (documentElement doc)) s1
             = Some (rs, s2)
           ∧ Forall (λ b, b = true) rs).
Proof.
  intros HWF Ho Hd Hba Hbound.
  destruct (Iconset_detach_spec s this d p HWF Ho Hd)
    as (s1 & d1 & p1 & Hrun1 & HWF1 & Hfr1 & Ho1 & Hd1 & Hc1 & Hi1 & _ & Ec1 & Ef1 & _).
  pose proof HWF1 as [Hok1 Hobj1].
  pose proof (IconsetPrivate_loadData_fs _ _ s s1 ba Ef1 Hba) as Hba1.
  assert (Hf1 : sp_filename p1 = sp_filename p) by (by apply (f_equal si_filename) in Hi1).
  assert (Hbody : ∃ r s' p',
    (if negb (ba_isEmpty ba) then
       match dom_setContent ba with
       | Some doc =>
           ok ← IconsetPrivate_load d1 doc dir;
           if ok : bool then
             Iconset_d_update this (λ p,
               sp_set_information (si_set_filename dir (sp_information p)) p);;
             mret true
           else mret false
       | None => mret false
       end
     else mret false) s1 = Some (r, s')
    ∧ priv_at (next s1) d1 s1 p1 s' p'
    ∧ sp_filename p' = (if r then dir else sp_filename p)
    ∧ (r = true ↔
         ba ≠ [] ∧ ∃ doc rs s2,
           dom_setContent ba = Some doc
           ∧ qs_str (dom_tagName (documentElement doc)) = "icondef"%string
           ∧ IconsetPrivate_load_icons d1 dir (dom_children (documentElement doc)) s1
             = Some (rs, s2)
           ∧ Forall (λ b, b = true) rs)).
  { destruct ba as [|b0 ba']; simpl.
    { exists false, s1, p1. split; [done|]. split; [by apply priv_at_refl|].
      split; [done|]. split; [done|]. by intros [? _]. }
    set (ba := b0 :: ba') in *.
    destruct (dom_setContent ba) as [doc|] eqn:Edoc.
    2:{ exists false, s1, p1. split; [done|]. split; [by apply priv_at_refl|].
        split; [done|]. split; [done|]. by intros [_ (? & ? & ? & ? & _)]. }
    unfold IconsetPrivate_load, qs_eqb. simpl.
    destruct (decide (qs_str (dom_tagName (documentElement doc)) = "icondef"%string))
      as [Et|Et].
    2:{ rewrite bool_decide_eq_false_2 by done. simpl.
        exists false, s1, p1. split; [done|]. split; [by apply priv_at_refl|].
        split; [done|]. split; [done|].
        intros [_ (doc' & ? & ? & [= <-] & ? & _)]. done. }
    rewrite bool_decide_eq_true_2 by done. simpl.
    destruct (IconsetPrivate_load_loop_spec (next s1) d1 dir
                (dom_children (documentElement doc)) true s1 p1 Hok1 Hd1 ltac:(lia))
      as (rs & s2 & p2 & Hrun2 & Hic2 & Hat2 & Hf2).
    { rewrite Ec1. by apply Hbound. }
    rewrite (bind_run _ _ _ _ _ Hrun2). simpl.
    pose proof Hat2 as [Hok2 Hd2 _ Hfr2].
    destruct (forallb id rs) eqn:Eall.
    - assert (Ho2 : iset_o s2 !! this = Some d1) by (by rewrite (pfr_o _ _ _ _ Hfr2)).
      rewrite (bind_run _ _ _ _ _ (Iconset_d_update_run _ _ _ _ _ Ho2 Hd2)).
      eexists true, _, _. split; [done|]. split_and!.
      + eapply priv_at_trans; [exact Hat2|]. by apply update_information_priv_at.
      + done.
      + split; [|done]. intros _. split; [done|].
        exists doc, rs, s2. split_and!; [done|done|done|]. by apply forallb_id_Forall.
    - exists false, s2, p2. split; [done|]. split; [done|]. split; [congruence|].
      split; [done|]. intros [_ (doc' & rs' & s2' & [= <-] & _ & Hic' & Hall)].
      rewrite Hic2 in Hic'. injection Hic' as <- <-.
      apply forallb_id_Forall in Hall. congruence. }
  destruct Hbody as (r & s' & p' & Hrun & Hat & Hf & Hr).
  exists r, s', s1, d1, p'. split.
  { unfold Iconset_load. rewrite (bind_run _ _ _ _ _ Hrun1).
    rewrite (bind_run _ _ _ _ _ (iconset_dptr_run _ _ _ Ho1)).
    by rewrite (bind_run _ _ _ _ _ Hba1). }
  destruct (mutate_finish s s1 this d1 p1 s' p' HWF HWF1 Hfr1 Ho1 Hd1 Hc1 Hat)
    as (? & ? & ? & ? & ? & ?).
  split_and!; done.
Qed.

Lemma Iconset_fileName_run s this d p :
  iset_o s !! this = Some d → iset_d s !! d = Some p →
  Iconset_fileName this s = Some (sp_filename p, s).
Proof.
  intros Ho Hd. unfold Iconset_fileName.
  by rewrite (bind_run _ _ _ _ _ (Iconset_d_run _ _ _ _ Ho Hd)).
Qed.

(** C2: [load(dir)].  The bytes [ba] of icondef.xml are read from the
    directory [dir], or from the archive [dir] when it is no directory
    and its extension is "jisp" or "zip" (first under the base name of
    the archive, then at its root); any other [dir] gives no bytes.  In a
    well-formed heap, and as long as the counter that names the icons
    stays within [int], [load] is defined, and it returns true exactly
    when [ba] is not empty, parses as a document whose document element
    is tagged "icondef", and [loadIcon] returns true for every child
    element tagged "icon", the children being handled in document order
    on the detached Iconset.  Afterwards [fileName()] is [dir] when the
    result is true and what it was otherwise. *)
Theorem Iconset_load_result s this d p dir ba :
  WF s → iset_o s !! this = Some d → iset_d s !! d = Some p →
  IconsetPrivate_loadData (QStr "icondef.xml") dir s = Some (ba, s) →
  (∀ doc, dom_setContent ba = Some doc →
     icon_counter s + Z.of_nat (length (dom_children (documentElement doc))) ≤ INT_MAX) →
  ba = (if fi_isDir (fs s) dir then
          file_readAll (fs s) (qs_app (qs_app dir (QStr "/")) (QStr "icondef.xml"))
        else if qs_eqb (fi_extension dir) (QStr "jisp")
                || qs_eqb (fi_extension dir) (QStr "zip") then
          if negb (zip_open (fs s) dir) then []
          else
            let r := zip_readFile (fs s) dir
                       (qs_app (qs_app (fi_baseName dir) (QStr "/")) (QStr "icondef.xml"))
                       [] in
            if r.1 then r.2
            else (zip_readFile (fs s) dir (qs_app (QStr "/") (QStr "icondef.xml")) r.2).2
        else [])
  ∧ Iconset_fileName this s = Some (sp_filename p, s)
  ∧ ∃ r s' s1 d1,
      Iconset_load this dir s = Some (r, s')
      ∧ Iconset_detach this s = Some (tt, s1) ∧ iset_o s1 !! this = Some d1
      ∧ (r = true ↔
           ba ≠ [] ∧ ∃ doc rs s2,
             dom_setContent ba = Some doc
             ∧ qs_str (dom_tagName (documentElement doc)) = "icondef"%string
             ∧ IconsetPrivate_load_icons d1 dir (dom_children (documentElement doc)) s1
               = Some (rs, s2)
             ∧ Forall (λ b, b = true) rs)
      ∧ Iconset_fileName this s' = Some (if r then dir else sp_filename p, s')
      ∧ WF s'.
Proof.
  intros HWF Ho Hd Hba Hbound. split_and!.
  - revert Hba. unfold IconsetPrivate_loadData. mrun.
    repeat match goal with |- context [if ?b then _ else _] => destruct b end;
      by intros [= ->].
  - by apply (Iconset_fileName_run s this d p).
  - destruct (Iconset_load_spec s this d p dir ba HWF Ho Hd Hba Hbound)
      as (r & s' & s1 & d1 & p' & Hrun & Hdet & Ho1 & HWF' & _ & Ho' & Hd' & Hf & Hr).
    exists r, s', s1, d1. split_and!; try done.
    rewrite (Iconset_fileName_run s' this d1 p' Ho' Hd'). by rewrite Hf.
Qed.

End Load.

Section CopyOnWrite.
Context `{AL : AnimLib} `{PF : Platform}.

(** ** Copy on write *)




End CopyOnWrite.

Section Further.
Context `{AL : AnimLib} `{PF : Platform}.

(** * Further properties of the code *)

(** X1: [Icon::detach()].  Afterwards the Icon is alone on its data: it
    keeps its Private when the count was one and gets a copy made by the
    copy constructor of [Icon::Private] otherwise; every other Icon
    shows the data it showed. *)
Theorem Icon_detach_alone s this d p :
  icon_wf s → icon_o s !! this = Some d → icon_d s !! d = Some p →
  ∃ s' d' p', Icon_detach this s = Some (tt, s')
    ∧ icon_wf s'
    ∧ icon_unique s' this d' p'
    ∧ p' = (if decide (ip_count p = 1) then p else IconPrivate_copy d' p)
    ∧ ∀ o, o ≠ this → icon_view s' o = icon_view s o.
Proof.
  intros Hwf Ho Hd.
  destruct (Icon_detach_spec s this d p Hwf Ho Hd)
    as (s' & d' & p' & Hrun & Hwf' & Hfr & Hu & Hp & _).
  exists s', d', p'. split_and!; try done.
  intros o Hne. apply (ifr_view _ _ _ Hfr). congruence.
Qed.

(** X2: the copy constructor and the destructor of Icon.  In a
    well-formed heap the count of a Private is the number of Icons that
    point to it; a copy points to the Private of its source, whose count
    goes up by one; the destructor takes the Icon away; both keep the
    heap well formed and are not seen through any other Icon. *)
Theorem Icon_reference_counted s this d p :
  icon_wf s → icon_o s !! this = Some d → icon_d s !! d = Some p →
  ip_count p = Z.of_nat (refs (icon_o s) d)
  ∧ (∃ s1, Icon_new_copy this s = Some (next s, s1) ∧ icon_wf s1
       ∧ icon_o s1 !! next s = Some d
       ∧ icon_d s1 !! d = Some (ip_set_count (ip_count p + 1) p)
       ∧ ∀ o, o ≠ next s → icon_view s1 o = icon_view s o)
  ∧ (∃ s2, Icon_delete this s = Some (tt, s2) ∧ icon_wf s2
       ∧ icon_o s2 !! this = None
       ∧ ∀ o, o ≠ this → icon_view s2 o = icon_view s o).
Proof.
  intros Hwf Ho Hd. split_and!.
  - by apply icon_wf_count.
  - destruct (Icon_new_copy_spec s this d p Hwf Ho Hd)
      as (s1 & Hrun & Hwf1 & Hfr & Ho1 & Hd1 & _).
    exists s1. split_and!; try done.
    intros o Hne. apply (ifr_view _ _ _ Hfr). congruence.
  - destruct (Icon_delete_spec s this d p Hwf Ho Hd)
      as (s2 & Hrun & Hwf2 & Hfr & Hgone & _).
    exists s2. split_and!; try done.
    intros o Hne. apply (ifr_view _ _ _ Hfr). congruence.
Qed.

(** X3: [Icon::loadFromData(ba, isAnim)] returns true when [isAnim] is
    set and the data gives an animation with at least one frame, and
    otherwise exactly when the data loads as an image; no other Icon
    sees a change. *)
Theorem Icon_loadFromData_result s this d p ba isAnim :
  icon_wf s → icon_o s !! this = Some d → icon_d s !! d = Some p →
  ∃ r s', Icon_loadFromData this ba isAnim s = Some (r, s')
    ∧ r = (if isAnim && bool_decide (anim_numFrames (anim_fromData ba) > 0) then true
           else bool_decide (is_Some (image_loadFromData ba)))
    ∧ icon_wf s'
    ∧ ∀ o, o ≠ this → icon_view s' o = icon_view s o.
Proof.
  intros Hwf Ho Hd.
  destruct (Icon_loadFromData_at this s d p ba isAnim Hwf Ho Hd)
    as (r & s' & d' & p' & Hrun & Hat & Hr).
  exists r, s'. split_and!; [done|done|apply (iat_wf _ _ _ _ _ _ Hat)|].
  intros o Hne. destruct (iat_kept _ _ _ _ _ _ Hat I) as [_ Hfr].
  apply (ifr_view _ _ _ Hfr). congruence.
Qed.

(** X4: [IconsetFactoryPrivate::unregisterIconset].  When the registry
    holds no other Iconset than the one taken out, the list and the
    empty pixmap of the factory are deleted. *)
Theorem unregisterIconset_last s i :
  (∀ x, x ∈ registry s → x = i) →
  ∃ s', IconsetFactoryPrivate_unregisterIconset i s = Some (tt, s')
    ∧ iconsets s' = None ∧ emptyPixmap s' = None.
Proof.
  intros Hall.
  assert (Hf : ∀ l, iconsets s = Some l → filter (λ x, x ≠ i) l = []).
  { intros l Hl. unfold registry in Hall. rewrite Hl in Hall. simpl in Hall.
    clear Hl. induction l as [|x l IH]; [done|].
    rewrite filter_cons. destruct (decide (x ≠ i)) as [Hne|_].
    - exfalso. apply Hne, Hall. set_solver.
    - apply IH. intros y Hy. apply Hall. set_solver. }
  assert (Hnil : ∀ l, iconsets s = Some l → i ∉ l → l = []).
  { intros l Hl Hi. rewrite <- (Hf l Hl). symmetry.
    clear Hf Hl. induction l as [|x l IH]; [done|].
    rewrite filter_cons. rewrite decide_True by set_solver.
    f_equal. apply IH. set_solver. }
  unfold IconsetFactoryPrivate_unregisterIconset.
  destruct s as [a b c d r e f g h n]; simpl in *.
  unfold mbind, M_bind, gets, modify, when, mret, M_ret; simpl.
  destruct r as [l|]; simpl.
  - destruct (decide (i ∈ l)) as [Hi|Hi].
    + rewrite bool_decide_eq_true_2 by done. simpl.
      rewrite (Hf l eq_refl). simpl.
      destruct e; simpl; eexists; split_and!; done.
    + rewrite bool_decide_eq_false_2 by done. simpl.
      rewrite (Hnil l eq_refl Hi). simpl.
      destruct e; simpl; eexists; split_and!; done.
  - destruct e; simpl; eexists; split_and!; done.
Qed.

(** X5: [Iconset::icon(name)] returns the Icon held under the name, a
    null pointer when the hash is empty or holds none, and changes
    nothing but for a null entry that [dict[name]] may add to the hash:
    the same Icons are found under the same names afterwards. *)
Theorem Iconset_icon_lookup s o d p name :
  iset_o s !! o = Some d → iset_d s !! d = Some p →
  ∃ s', Iconset_icon o name s = Some (mjoin (sp_dict p !! qs_str name), s')
    ∧ null_entries_added s s'
    ∧ ∀ o' n, iconset_lookup s' o' n = iconset_lookup s o' n.
Proof.
  intros Ho Hd. destruct (Iconset_icon_run s o d p name Ho Hd) as (s' & Hrun & Hs).
  exists s'. split_and!; [|done|].
  - rewrite Hrun. unfold iconset_lookup. rewrite Ho. simpl. by rewrite Hd.
  - intros o' n. by apply null_entries_added_lookup.
Qed.

(** X6: [Iconset::detach()].  Afterwards the Iconset is alone on its
    Private, which holds the information it held; nothing changes when
    it was alone already; every other Iconset and every existing Icon
    shows what it showed. *)
Theorem Iconset_detach_alone s this d p :
  WF s → iset_o s !! this = Some d → iset_d s !! d = Some p →
  ∃ s' d' p', Iconset_detach this s = Some (tt, s')
    ∧ WF s'
    ∧ iset_o s' !! this = Some d' ∧ iset_d s' !! d' = Some p'
    ∧ sp_count p' = 1
    ∧ sp_information p' = sp_information p
    ∧ (sp_count p = 1 → s' = s)
    ∧ (∀ o, o ≠ this → iset_view s' o = iset_view s o)
    ∧ (∀ x, is_Some (icon_o s !! x) → icon_view s' x = icon_view s x).
Proof.
  intros HWF Ho Hd.
  destruct (Iconset_detach_spec s this d p HWF Ho Hd)
    as (s' & d' & p' & Hrun & HWF' & Hfr & Ho' & Hd' & Hc & Hi & Hsame & _ & _ & Hall).
  exists s', d', p'. split_and!; try done.
  - intros Hc1. by destruct (Hsame Hc1).
  - apply (sfr_view _ _ _ Hfr).
  - intros x Hx. apply Hall. by apply (iwf_fresh_o _ _ _ (hok_icons _ (proj1 HWF))).
Qed.

(** X7: [Iconset::clear()] leaves the Iconset without icons and under
    the name it had; no other Iconset sees a change. *)
Theorem Iconset_clear_empties s this d p :
  WF s → iset_o s !! this = Some d → iset_d s !! d = Some p →
  ∃ s', Iconset_clear this s = Some (tt, s')
    ∧ WF s'
    ∧ Iconset_count this s' = Some (0, s')
    ∧ Iconset_iterator this s' = Some ([], s')
    ∧ Iconset_name this s' = Some (sp_name p, s')
    ∧ ∀ o, o ≠ this → iset_view s' o = iset_view s o.
Proof.
  intros HWF Ho Hd.
  destruct (Iconset_clear_spec s this d p HWF Ho Hd)
    as (s' & d' & p' & Hrun & HWF' & Hfr & Ho' & Hd' & _ & _ & _ & Hl & Hi).
  exists s'. split_and!; [done|done| | | |apply (sfr_view _ _ _ Hfr)].
  - unfold Iconset_count. rewrite (bind_run _ _ _ _ _ (Iconset_d_run _ _ _ _ Ho' Hd')).
    by rewrite Hl.
  - unfold Iconset_iterator. rewrite (bind_run _ _ _ _ _ (Iconset_d_run _ _ _ _ Ho' Hd')).
    by rewrite Hl.
  - unfold Iconset_name. rewrite (bind_run _ _ _ _ _ (Iconset_d_run _ _ _ _ Ho' Hd')).
    pose proof (f_equal si_name Hi) as Hn. simpl in Hn. unfold mret, M_ret. congruence.
Qed.


(** X9: after [Iconset::removeIcon(name)] the Iconset holds no Icon
    under [name]. *)
Theorem Iconset_removeIcon_forgets s this d p name :
  WF s → iset_o s !! this = Some d → iset_d s !! d = Some p →
  ∃ s' s'', Iconset_removeIcon this name s = Some (tt, s')
    ∧ WF s'
    ∧ Iconset_icon this name s' = Some (None, s'')
    ∧ ∀ o, o ≠ this → iset_view s' o = iset_view s o.
Proof.
  intros HWF Ho Hd.
  destruct (Iconset_removeIcon_spec s this d p name HWF Ho Hd)
    as (s' & d' & p' & Hrun & HWF' & Hfr & Ho' & Hd' & _ & _ & Hdict & _).
  destruct (Iconset_icon_run s' this d' p' name Ho' Hd') as (s'' & Hrun'' & _).
  exists s', s''. split_and!; [done|done| |apply (sfr_view _ _ _ Hfr)].
  rewrite Hrun''. unfold iconset_lookup. rewrite Ho'. simpl. rewrite Hd'. simpl.
  by rewrite Hdict.
Qed.

(** X10: [Iconset::Private::loadIcon] takes one number from the counter
    that names the icons, whatever its result, and leaves the
    information of the iconset as it is. *)
Theorem loadIcon_counts s d p i dir :
  heap_ok s → iset_d s !! d = Some p → icon_counter s < INT_MAX →
  ∃ b s' p', IconsetPrivate_loadIcon d i dir s = Some (b, s')
    ∧ heap_ok s'
    ∧ iset_d s' !! d = Some p'
    ∧ sp_information p' = sp_information p
    ∧ icon_counter s' = icon_counter s + 1.
Proof.
  intros Hok Hd Hc.
  destruct (IconsetPrivate_loadIcon_spec (next s) s d p i dir Hok Hd ltac:(lia) Hc)
    as (b & s' & p' & Hrun & [Hok' Hd' _ _] & Hi & Hc').
  by exists b, s', p'.
Qed.


(** X12: [Iconset::Iconset()] makes an Iconset named "Unnamed" without
    icons, alone on its Private; no other object sees it. *)
Theorem Iconset_new_default s :
  WF s →
  ∃ s', Iconset_new s = Some (next s, s')
    ∧ WF s'
    ∧ Iconset_name (next s) s' = Some (QStr "Unnamed", s')
    ∧ Iconset_count (next s) s' = Some (0, s')
    ∧ iset_view s' (next s) = Some (sp_set_count 0 IconsetPrivate_init, [])
    ∧ ∀ o, o ≠ next s → iset_view s' o = iset_view s o.
Proof.
  intros HWF.
  destruct (Iconset_new_spec s HWF) as (s' & Hrun & HWF' & Hs & Hfr).
  assert (Ho : iset_o s' !! next s = Some (S (next s))).
  { rewrite Hs. simpl. by rewrite lookup_insert_eq. }
  assert (Hd : iset_d s' !! S (next s) = Some IconsetPrivate_init).
  { rewrite Hs. simpl. by rewrite lookup_insert_eq. }
  exists s'. split_and!; [done|done| | | |apply (sfr_view _ _ _ Hfr)].
  - unfold Iconset_name. by rewrite (bind_run _ _ _ _ _ (Iconset_d_run _ _ _ _ Ho Hd)).
  - unfold Iconset_count. by rewrite (bind_run _ _ _ _ _ (Iconset_d_run _ _ _ _ Ho Hd)).
  - unfold iset_view. rewrite Ho. simpl. by rewrite Hd.
Qed.

End Further.

(** * The properties at work on concrete states *)

Section Witnesses.
#[local] Existing Instances sample_gui sample_anim sample_platform.


Lemma registerIconset_idempotent_witness :
  ∃ s1 s2,
    Iconset_addToFactory 7%nat sample_state = Some (tt, s1)
    ∧ (Iconset_addToFactory 7%nat;; Iconset_addToFactory 7%nat) sample_state = Some (tt, s1)
    ∧ registry s1 = (if decide (7%nat ∈ registry sample_state)
                     then registry sample_state else registry sample_state ++ [7%nat])
    ∧ NoDup (registry s1)
    ∧ IconsetFactoryPrivate_unregisterIconset 7%nat sample_state = Some (tt, s2)
    ∧ registry s2 = filter (λ x, x ≠ 7%nat) (registry sample_state)
    ∧ NoDup (registry s2)
    ∧ (length (registry sample_state) ≤ length (registry s2) + 1)%nat.
Proof.
  apply (registerIconset_idempotent sample_state 7%nat). vm_compute. constructor.
Defined.

Lemma activatedCount_never_negative_witness :
  ∃ s' p' s'' p'',
    Icon_calls 1%nat [CallActivated true; CallStop; CallStop] sample_icon_state = Some (tt, s')
    ∧ icon_o s' !! 1%nat = Some 2%nat ∧ icon_d s' !! 2%nat = Some p'
    ∧ 0 ≤ ip_activatedCount p'
    ∧ Icon_stop 1%nat s' = Some (tt, s'')
    ∧ icon_o s'' !! 1%nat = Some 2%nat ∧ icon_d s'' !! 2%nat = Some p''
    ∧ ip_activatedCount p'' = Z.max 0 (ip_activatedCount p' - 1)
    ∧ ip_anim p'' =
        (if decide (ip_activatedCount p' - 1 ≤ 0)
         then (λ a, anim_restart (anim_pause a)) <$> ip_anim p'
         else ip_anim p').
Proof.
  apply (activatedCount_never_negative sample_icon_state 1%nat 2%nat
           (@IconPrivate_init sample_gui sample_anim)).
  - reflexivity.
  - reflexivity.
  - reflexivity.
  - vm_compute. discriminate.
Defined.


Lemma loadMeta_sets_information_witness :
  ∃ s', IconsetPrivate_loadMeta 2%nat sample_meta (QStr "set") sample_iconset_state
          = Some (tt, s')
    ∧ Iconset_name 1%nat s'
        = Some (last_child_text "name" sample_meta (sp_name IconsetPrivate_init), s')
    ∧ Iconset_version 1%nat s'
        = Some (last_child_text "version" sample_meta (sp_version IconsetPrivate_init), s')
    ∧ Iconset_description 1%nat s'
        = Some (last_child_text "description" sample_meta
                  (sp_description IconsetPrivate_init), s')
    ∧ Iconset_creation 1%nat s'
        = Some (last_child_text "creation" sample_meta (sp_creation IconsetPrivate_init), s')
    ∧ Iconset_homeUrl 1%nat s'
        = Some (last_child_text "home" sample_meta (sp_homeUrl IconsetPrivate_init), s')
    ∧ Iconset_authors 1%nat s'
        = Some (sp_authors IconsetPrivate_init
                  ++ (loadMeta_author <$> children_tagged "author" sample_meta), s').
Proof.
  apply (loadMeta_sets_information sample_iconset_state 1%nat 2%nat
           IconsetPrivate_init sample_meta (QStr "set")); reflexivity.
Defined.

Lemma sample_two_iconsets_WF : WF sample_two_iconsets.
Proof.
  split; split; simpl.
  - split; simpl.
    + intros o d. by rewrite lookup_empty.
    + intros d p. by rewrite lookup_empty.
    + intros o [d Ho]. by rewrite lookup_empty in Ho.
    + intros d [p Hd]. by rewrite lookup_empty in Hd.
  - intros d p Hd. apply private_ok_empty.
    + apply lookup_insert_Some in Hd as [[_ <-]|[_ Hd]]; [done|].
      by apply lookup_singleton_Some in Hd as [_ <-].
    + apply lookup_insert_Some in Hd as [[_ <-]|[_ Hd]]; [done|].
      by apply lookup_singleton_Some in Hd as [_ <-].
  - intros d1 d2 x (p & Hp & Hx) _. exfalso. simpl in Hp.
    apply lookup_insert_Some in Hp as [[_ <-]|[_ Hp]]; [by apply elem_of_nil in Hx|].
    apply lookup_singleton_Some in Hp as [_ <-]. by apply elem_of_nil in Hx.
  - intros d [p Hd].
    apply lookup_insert_Some in Hd as [[<- _]|[_ Hd]]; [lia|].
    apply lookup_singleton_Some in Hd as [<- _]. lia.
  - intros o d Ho.
    apply lookup_insert_Some in Ho as [[_ <-]|[_ Ho]]; [by eexists|].
    apply lookup_singleton_Some in Ho as [_ <-]. by eexists.
  - intros d p Hd.
    apply lookup_insert_Some in Hd as [[<- <-]|[_ Hd]]; [by vm_compute|].
    apply lookup_singleton_Some in Hd as [<- <-]. by vm_compute.
  - intros o [d Ho].
    apply lookup_insert_Some in Ho as [[<- _]|[_ Ho]]; [lia|].
    apply lookup_singleton_Some in Ho as [<- _]. lia.
  - constructor.
  - intros o Ho. by apply elem_of_nil in Ho.
Qed.

Lemma Iconset_reference_counted_witness :
  (sp_count IconsetPrivate_init = Z.of_nat (refs (iset_o sample_two_iconsets) 2%nat)
   ∧ (∃ s1, Iconset_new_copy 3%nat sample_two_iconsets
              = Some (next sample_two_iconsets, s1) ∧ WF s1
        ∧ iset_o s1 !! next sample_two_iconsets = Some 4%nat
        ∧ iset_o s1 !! 3%nat = Some 4%nat
        ∧ iset_d s1 !! 4%nat
          = Some (sp_set_count (sp_count IconsetPrivate_init + 1) IconsetPrivate_init))
   ∧ (∃ s3, Iconset_delete 1%nat sample_two_iconsets = Some (tt, s3) ∧ WF s3
        ∧ iset_o s3 !! 1%nat = None
        ∧ iset_d s3 !! 2%nat =
            if decide (refs (iset_o sample_two_iconsets) 2%nat = 1%nat) then None
            else Some (sp_set_count (sp_count IconsetPrivate_init - 1)
                         IconsetPrivate_init))
   ∧ (1%nat ≠ 3%nat ∨ refs (iset_o sample_two_iconsets) 2%nat ≠ 1%nat →
      ∃ s2 q, Iconset_assign 1%nat 3%nat sample_two_iconsets = Some (tt, s2)
        ∧ WF s2
        ∧ iset_o s2 !! 1%nat = Some 4%nat ∧ iset_o s2 !! 3%nat = Some 4%nat
        ∧ iset_d s2 !! 4%nat = Some q
        ∧ sp_set_count 0 q = sp_set_count 0 IconsetPrivate_init
        ∧ sp_count q = (if decide (2%nat = 4%nat) then sp_count IconsetPrivate_init
                        else sp_count IconsetPrivate_init + 1)
        ∧ (2%nat ≠ 4%nat → iset_d s2 !! 2%nat =
             if decide (refs (iset_o sample_two_iconsets) 2%nat = 1%nat) then None
             else Some (sp_set_count (sp_count IconsetPrivate_init - 1)
                          IconsetPrivate_init)))
   ∧ (1%nat = 3%nat → refs (iset_o sample_two_iconsets) 2%nat = 1%nat →
      Iconset_assign 1%nat 3%nat sample_two_iconsets = None))
  ∧ (sp_count IconsetPrivate_init = Z.of_nat (refs (iset_o sample_two_iconsets) 2%nat)
   ∧ (∃ s1, Iconset_new_copy 1%nat sample_two_iconsets
              = Some (next sample_two_iconsets, s1) ∧ WF s1
        ∧ iset_o s1 !! next sample_two_iconsets = Some 2%nat
        ∧ iset_o s1 !! 1%nat = Some 2%nat
        ∧ iset_d s1 !! 2%nat
          = Some (sp_set_count (sp_count IconsetPrivate_init + 1) IconsetPrivate_init))
   ∧ (∃ s3, Iconset_delete 1%nat sample_two_iconsets = Some (tt, s3) ∧ WF s3
        ∧ iset_o s3 !! 1%nat = None
        ∧ iset_d s3 !! 2%nat =
            if decide (refs (iset_o sample_two_iconsets) 2%nat = 1%nat) then None
            else Some (sp_set_count (sp_count IconsetPrivate_init - 1)
                         IconsetPrivate_init))
   ∧ (1%nat ≠ 1%nat ∨ refs (iset_o sample_two_iconsets) 2%nat ≠ 1%nat →
      ∃ s2 q, Iconset_assign 1%nat 1%nat sample_two_iconsets = Some (tt, s2)
        ∧ WF s2
        ∧ iset_o s2 !! 1%nat = Some 2%nat ∧ iset_o s2 !! 1%nat = Some 2%nat
        ∧ iset_d s2 !! 2%nat = Some q
        ∧ sp_set_count 0 q = sp_set_count 0 IconsetPrivate_init
        ∧ sp_count q = (if decide (2%nat = 2%nat) then sp_count IconsetPrivate_init
                        else sp_count IconsetPrivate_init + 1)
        ∧ (2%nat ≠ 2%nat → iset_d s2 !! 2%nat =
             if decide (refs (iset_o sample_two_iconsets) 2%nat = 1%nat) then None
             else Some (sp_set_count (sp_count IconsetPrivate_init - 1)
                          IconsetPrivate_init)))
   ∧ (1%nat = 1%nat → refs (iset_o sample_two_iconsets) 2%nat = 1%nat →
      Iconset_assign 1%nat 1%nat sample_two_iconsets = None)).
Proof.
  split.
  - apply (Iconset_reference_counted sample_two_iconsets 1%nat 3%nat 2%nat
             IconsetPrivate_init 4%nat IconsetPrivate_init).
    + apply sample_two_iconsets_WF.
    + reflexivity.
    + reflexivity.
    + reflexivity.
    + reflexivity.
  - apply (Iconset_reference_counted sample_two_iconsets 1%nat 1%nat 2%nat
             IconsetPrivate_init 2%nat IconsetPrivate_init).
    + apply sample_two_iconsets_WF.
    + reflexivity.
    + reflexivity.
    + reflexivity.
    + reflexivity.
Defined.

Lemma sample_heap_WF : WF sample_heap.
Proof.
  split; split; simpl.
  - split; simpl.
    + intros o d Ho.
      apply lookup_insert_Some in Ho as [[_ <-]|[_ Ho]]; [by eexists|].
      apply lookup_singleton_Some in Ho as [_ <-]. by eexists.
    + intros d p Hd.
      apply lookup_insert_Some in Hd as [[<- <-]|[_ Hd]]; [by vm_compute|].
      apply lookup_singleton_Some in Hd as [<- <-]. by vm_compute.
    + intros o [d Ho].
      apply lookup_insert_Some in Ho as [[<- _]|[_ Ho]]; [lia|].
      apply lookup_singleton_Some in Ho as [<- _]. lia.
    + intros d [p Hd].
      apply lookup_insert_Some in Hd as [[<- _]|[_ Hd]]; [lia|].
      apply lookup_singleton_Some in Hd as [<- _]. lia.
  - intros d p Hd.
    apply lookup_insert_Some in Hd as [[_ <-]|[_ Hd]].
    + split; simpl.
      * apply NoDup_singleton.
      * intros x Hx. apply list_elem_of_singleton in Hx as ->. by eexists.
      * intros n a Hn. apply lookup_singleton_Some in Hn as [_ [= <-]].
        by apply list_elem_of_singleton.
      * intros a Ha. apply list_elem_of_singleton in Ha as ->.
        by exists "smile"%string.
      * intros n m a Hn Hm. apply lookup_singleton_Some in Hn as [<- _].
        by apply lookup_singleton_Some in Hm as [<- _].
    + apply lookup_singleton_Some in Hd as [_ <-]. by apply private_ok_empty.
  - intros d1 d2 x (p1 & Hp1 & Hx1) (p2 & Hp2 & Hx2). simpl in Hp1, Hp2.
    apply lookup_insert_Some in Hp1 as [[<- <-]|[_ Hp1]].
    + apply lookup_insert_Some in Hp2 as [[<- _]|[_ Hp2]]; [done|].
      apply lookup_singleton_Some in Hp2 as [_ <-]. by apply elem_of_nil in Hx2.
    + apply lookup_singleton_Some in Hp1 as [_ <-]. by apply elem_of_nil in Hx1.
  - intros d [p Hd].
    apply lookup_insert_Some in Hd as [[<- _]|[_ Hd]]; [lia|].
    apply lookup_singleton_Some in Hd as [<- _]. lia.
  - intros o d Ho.
    apply lookup_insert_Some in Ho as [[_ <-]|[_ Ho]]; [by eexists|].
    apply lookup_singleton_Some in Ho as [_ <-]. by eexists.
  - intros d p Hd.
    apply lookup_insert_Some in Hd as [[<- <-]|[_ Hd]]; [by vm_compute|].
    apply lookup_singleton_Some in Hd as [<- <-]. by vm_compute.
  - intros o [d Ho].
    apply lookup_insert_Some in Ho as [[<- _]|[_ Ho]]; [lia|].
    apply lookup_singleton_Some in Ho as [<- _]. lia.
  - apply NoDup_cons. split; [|apply NoDup_singleton].
    intros Hin. by apply list_elem_of_singleton in Hin.
  - intros o Ho. apply elem_of_cons in Ho as [->|Ho]; [by eexists|].
    apply list_elem_of_singleton in Ho as ->. by eexists.
Qed.


Lemma sample_shared_WF : WF sample_shared.
Proof.
  split; split; simpl.
  - split; simpl.
    + intros o d Ho.
      apply lookup_insert_Some in Ho as [[_ <-]|[_ Ho]]; [by eexists|].
      apply lookup_singleton_Some in Ho as [_ <-]. by eexists.
    + intros d p Hd. apply lookup_singleton_Some in Hd as [<- <-]. by vm_compute.
    + intros o [d Ho].
      apply lookup_insert_Some in Ho as [[<- _]|[_ Ho]]; [lia|].
      apply lookup_singleton_Some in Ho as [<- _]. lia.
    + intros d [p Hd]. apply lookup_singleton_Some in Hd as [<- _]. lia.
  - intros d p Hd. apply lookup_singleton_Some in Hd as [_ <-].
    by apply private_ok_empty.
  - intros d1 d2 x (p1 & Hp1 & Hx1) _. exfalso. simpl in Hp1.
    apply lookup_singleton_Some in Hp1 as [_ <-]. by apply elem_of_nil in Hx1.
  - intros d [p Hd]. apply lookup_singleton_Some in Hd as [<- _]. lia.
  - intros o d Ho.
    apply lookup_insert_Some in Ho as [[_ <-]|[_ Ho]]; [by eexists|].
    apply lookup_singleton_Some in Ho as [_ <-]. by eexists.
  - intros d p Hd. apply lookup_singleton_Some in Hd as [<- <-]. by vm_compute.
  - intros o [d Ho].
    apply lookup_insert_Some in Ho as [[<- _]|[_ Ho]]; [lia|].
    apply lookup_singleton_Some in Ho as [<- _]. lia.
  - constructor.
  - intros o Ho. by apply elem_of_nil in Ho.
Qed.



Lemma factory_icon_first_match_witness :
  (∃ s1, IconsetFactory_iconPtr (QStr "smile") sample_heap
           = Some (factory_lookup sample_heap (qs_str (QStr "smile")), s1)
     ∧ null_entries_added sample_heap s1)
  ∧ (∃ s2, IconsetFactory_icon (QStr "smile") sample_heap = Some (next sample_heap, s2)
       ∧ icon_o sample_heap !! next sample_heap = None
       ∧ match factory_lookup sample_heap (qs_str (QStr "smile")) with
         | Some a => is_Some (icon_o sample_heap !! a)
                     ∧ icon_o s2 !! next sample_heap = icon_o sample_heap !! a
                     ∧ icon_view s2 (next sample_heap) = icon_view sample_heap a
         | None => icon_view s2 (next sample_heap)
                   = Some (ip_set_count 0 IconPrivate_init)
         end
       ∧ ∀ x, x ≠ next sample_heap → icon_view s2 x = icon_view sample_heap x).
Proof.
  apply (factory_icon_first_match sample_heap (QStr "smile")).
  apply sample_heap_WF.
Defined.

Lemma Iconset_load_result_witness :
  ["<"%byte; ">"%byte]
  = (if fi_isDir (fs sample_heap) (QStr "set") then
       file_readAll (fs sample_heap)
         (qs_app (qs_app (QStr "set") (QStr "/")) (QStr "icondef.xml"))
     else if qs_eqb (fi_extension (QStr "set")) (QStr "jisp")
             || qs_eqb (fi_extension (QStr "set")) (QStr "zip") then
       if negb (zip_open (fs sample_heap) (QStr "set")) then []
       else
         let r := zip_readFile (fs sample_heap) (QStr "set")
                    (qs_app (qs_app (fi_baseName (QStr "set")) (QStr "/"))
                       (QStr "icondef.xml")) [] in
         if r.1 then r.2
         else (zip_readFile (fs sample_heap) (QStr "set")
                 (qs_app (QStr "/") (QStr "icondef.xml")) r.2).2
     else [])
  ∧ Iconset_fileName 3%nat sample_heap = Some (sp_filename IconsetPrivate_init, sample_heap)
  ∧ ∃ r s' s1 d1,
      Iconset_load 3%nat (QStr "set") sample_heap = Some (r, s')
      ∧ Iconset_detach 3%nat sample_heap = Some (tt, s1) ∧ iset_o s1 !! 3%nat = Some d1
      ∧ (r = true ↔
           ["<"%byte; ">"%byte] ≠ [] ∧ ∃ doc rs s2,
             dom_setContent ["<"%byte; ">"%byte] = Some doc
             ∧ qs_str (dom_tagName (documentElement doc)) = "icondef"%string
             ∧ IconsetPrivate_load_icons d1 (QStr "set")
                 (dom_children (documentElement doc)) s1
               = Some (rs, s2)
             ∧ Forall (λ b, b = true) rs)
      ∧ Iconset_fileName 3%nat s'
        = Some (if r then QStr "set" else sp_filename IconsetPrivate_init, s')
      ∧ WF s'.
Proof.
  apply (Iconset_load_result sample_heap 3%nat 4%nat IconsetPrivate_init (QStr "set")
           ["<"%byte; ">"%byte]).
  - apply sample_heap_WF.
  - reflexivity.
  - reflexivity.
  - reflexivity.
  - intros doc [= <-]. vm_compute. discriminate.
Defined.

End Witnesses.

Section FurtherWitnesses.
#[local] Existing Instances sample_gui sample_anim sample_platform.

Lemma Icon_detach_alone_witness :
  ∃ s' d' p',
    Icon_detach 1%nat sample_shared = Some (tt, s')
    ∧ icon_wf s'
    ∧ icon_unique s' 1%nat d' p'
    ∧ p' = (if decide (ip_count (ip_set_count 2 IconPrivate_init) = 1)
            then ip_set_count 2 IconPrivate_init
            else IconPrivate_copy d' (ip_set_count 2 IconPrivate_init))
    ∧ ∀ o, o ≠ 1%nat → icon_view s' o = icon_view sample_shared o.
Proof.
  apply (Icon_detach_alone sample_shared 1%nat 2%nat (ip_set_count 2 IconPrivate_init)).
  - apply (hok_icons _ (proj1 sample_shared_WF)).
  - reflexivity.
  - reflexivity.
Defined.

Lemma Icon_reference_counted_witness :
  ip_count (ip_set_count 2 IconPrivate_init) = Z.of_nat (refs (icon_o sample_shared) 2%nat)
  ∧ (∃ s1, Icon_new_copy 1%nat sample_shared = Some (next sample_shared, s1)
       ∧ icon_wf s1
       ∧ icon_o s1 !! next sample_shared = Some 2%nat
       ∧ icon_d s1 !! 2%nat
         = Some (ip_set_count (ip_count (ip_set_count 2 IconPrivate_init) + 1)
                   (ip_set_count 2 IconPrivate_init))
       ∧ ∀ o, o ≠ next sample_shared → icon_view s1 o = icon_view sample_shared o)
  ∧ (∃ s2, Icon_delete 1%nat sample_shared = Some (tt, s2)
       ∧ icon_wf s2
       ∧ icon_o s2 !! 1%nat = None
       ∧ ∀ o, o ≠ 1%nat → icon_view s2 o = icon_view sample_shared o).
Proof.
  apply (Icon_reference_counted sample_shared 1%nat 2%nat
           (ip_set_count 2 IconPrivate_init)).
  - apply (hok_icons _ (proj1 sample_shared_WF)).
  - reflexivity.
  - reflexivity.
Defined.

Lemma Icon_loadFromData_result_witness :
  ∃ r s',
    Icon_loadFromData 1%nat ["a"%byte; "b"%byte] true sample_shared = Some (r, s')
    ∧ r = (if true && bool_decide (anim_numFrames (anim_fromData ["a"%byte; "b"%byte]) > 0)
           then true
           else bool_decide (is_Some (image_loadFromData ["a"%byte; "b"%byte])))
    ∧ icon_wf s'
    ∧ ∀ o, o ≠ 1%nat → icon_view s' o = icon_view sample_shared o.
Proof.
  apply (Icon_loadFromData_result sample_shared 1%nat 2%nat
           (ip_set_count 2 IconPrivate_init) ["a"%byte; "b"%byte] true).
  - apply (hok_icons _ (proj1 sample_shared_WF)).
  - reflexivity.
  - reflexivity.
Defined.

Lemma unregisterIconset_last_witness :
  ∃ s', IconsetFactoryPrivate_unregisterIconset 7%nat
          (set_iconsets (Some [7%nat]) sample_state) = Some (tt, s')
    ∧ iconsets s' = None ∧ emptyPixmap s' = None.
Proof.
  apply (unregisterIconset_last (set_iconsets (Some [7%nat]) sample_state) 7%nat).
  intros x Hx. vm_compute in Hx. by apply list_elem_of_singleton in Hx.
Defined.

Lemma Iconset_icon_lookup_witness :
  ∃ s', Iconset_icon 1%nat (QStr "smile") sample_heap
          = Some (mjoin (sp_dict sample_private !! qs_str (QStr "smile")), s')
    ∧ null_entries_added sample_heap s'
    ∧ ∀ o' n, iconset_lookup s' o' n = iconset_lookup sample_heap o' n.
Proof.
  apply (Iconset_icon_lookup sample_heap 1%nat 2%nat sample_private (QStr "smile"));
    reflexivity.
Defined.

Lemma Iconset_detach_alone_witness :
  ∃ s' d' p',
    Iconset_detach 4%nat sample_shared = Some (tt, s')
    ∧ WF s'
    ∧ iset_o s' !! 4%nat = Some d' ∧ iset_d s' !! d' = Some p'
    ∧ sp_count p' = 1
    ∧ sp_information p' = sp_information (sp_set_count 2 IconsetPrivate_init)
    ∧ (sp_count (sp_set_count 2 IconsetPrivate_init) = 1 → s' = sample_shared)
    ∧ (∀ o, o ≠ 4%nat → iset_view s' o = iset_view sample_shared o)
    ∧ (∀ x, is_Some (icon_o sample_shared !! x) →
            icon_view s' x = icon_view sample_shared x).
Proof.
  apply (Iconset_detach_alone sample_shared 4%nat 5%nat
           (sp_set_count 2 IconsetPrivate_init)).
  - apply sample_shared_WF.
  - reflexivity.
  - reflexivity.
Defined.

Lemma Iconset_clear_empties_witness :
  ∃ s', Iconset_clear 1%nat sample_heap = Some (tt, s')
    ∧ WF s'
    ∧ Iconset_count 1%nat s' = Some (0, s')
    ∧ Iconset_iterator 1%nat s' = Some ([], s')
    ∧ Iconset_name 1%nat s' = Some (sp_name sample_private, s')
    ∧ ∀ o, o ≠ 1%nat → iset_view s' o = iset_view sample_heap o.
Proof.
  apply (Iconset_clear_empties sample_heap 1%nat 2%nat sample_private).
  - apply sample_heap_WF.
  - reflexivity.
  - reflexivity.
Defined.


Lemma Iconset_removeIcon_forgets_witness :
  ∃ s' s'',
    Iconset_removeIcon 1%nat (QStr "smile") sample_heap = Some (tt, s')
    ∧ WF s'
    ∧ Iconset_icon 1%nat (QStr "smile") s' = Some (None, s'')
    ∧ ∀ o, o ≠ 1%nat → iset_view s' o = iset_view sample_heap o.
Proof.
  apply (Iconset_removeIcon_forgets sample_heap 1%nat 2%nat sample_private
           (QStr "smile")).
  - apply sample_heap_WF.
  - reflexivity.
  - reflexivity.
Defined.

Lemma loadIcon_counts_witness :
  ∃ b s' p',
    IconsetPrivate_loadIcon 4%nat (DomElement "icon" [] []) (QStr "set") sample_heap
      = Some (b, s')
    ∧ heap_ok s'
    ∧ iset_d s' !! 4%nat = Some p'
    ∧ sp_information p' = sp_information IconsetPrivate_init
    ∧ icon_counter s' = icon_counter sample_heap + 1.
Proof.
  apply (loadIcon_counts sample_heap 4%nat IconsetPrivate_init
           (DomElement "icon" [] []) (QStr "set")).
  - apply (proj1 sample_heap_WF).
  - reflexivity.
  - reflexivity.
Defined.


Lemma Iconset_new_default_witness :
  ∃ s', Iconset_new sample_heap = Some (next sample_heap, s')
    ∧ WF s'
    ∧ Iconset_name (next sample_heap) s' = Some (QStr "Unnamed", s')
    ∧ Iconset_count (next sample_heap) s' = Some (0, s')
    ∧ iset_view s' (next sample_heap) = Some (sp_set_count 0 IconsetPrivate_init, [])
    ∧ ∀ o, o ≠ next sample_heap → iset_view s' o = iset_view sample_heap o.
Proof.
  apply (Iconset_new_default sample_heap). apply sample_heap_WF.
Defined.

End FurtherWitnesses.
